(** * Adapter-OSC: the OSC 1.0 codec of deno-plc/adapter-osc

    A shallow embedding of [src/oscProtocol.ts] (the optimized codec:
    [decodeOSC], [encodeOSC], [encodeOSC_UTF8], [align4]) and of
    [src/oscProtocol.slow.ts] (the reference codec: [decodeOSCSlow],
    [encodeOSCSlow], [pad]), together with the part of the JavaScript
    runtime the two files rely on: typed-array views, [DataView] accessors,
    [TextEncoder] / [TextDecoder] and the number conversions.  The first
    version of [src/oscProtocol.ts] is embedded in the module [Legacy].

    Conventions.
    - A byte is a [Z] in [0, 256); a [Uint8Array] is a view (offset and
      length) on a buffer, a [list Z].
    - A JavaScript string is the list of its UTF-16 code units.
    - A JavaScript exception is the [Throw] branch of [result]. *)

From Stdlib Require Import Strings.String Strings.Ascii.
From Stdlib Require Import ZArith Lia List Bool.
From stdpp Require Import base list.

Open Scope Z_scope.

(** ** Exceptions *)

(** The [message] of an [OSCProtocolError], one constructor per [throw]
    site of the two source files. *)
Inductive message : Type :=
| MsgLengthMod4        (* `data.length % 4 !== 0` *)
| MsgPacketTooShort    (* `Packet too short (length < 8)` *)
| MsgInvalidTypeTag    (* `invalid type tag`             (decodeOSC) *)
| MsgAddrNoSlash       (* `addr[0] != '/'`               (slow codec) *)
| MsgMissingTypeTag    (* `missing type tag`             (decodeOSCSlow) *)
| MsgIllegalCharacters (* `string '...' contains illegal characters (\0)` *)
| MsgMoreBytesWritten. (* `more ... bytes written than expected (...)` *)

(** What a call can throw: the repository's own error class, or an error
    of the runtime that the code lets escape. *)
Inductive exn : Type :=
| OSCProtocolError (m : message)
| RangeError
| TypeError
| AssertionError.

Inductive result (A : Type) : Type :=
| Ok (a : A)
| Throw (e : exn).
Arguments Ok {A} a.
Arguments Throw {A} e.

Definition bind {A B : Type} (r : result A) (k : A -> result B) : result B :=
  match r with
  | Ok a => k a
  | Throw e => Throw e
  end.

Notation "x <~ r ; k" := (bind r (fun x => k))
  (at level 20, r at level 100, k at level 200, only parsing).
Notation "' p <~ r ; k" := (bind r (fun p => k))
  (at level 20, p pattern, r at level 100, k at level 200, only parsing).

Definition is_Ok {A : Type} (r : result A) : Prop := exists a, r = Ok a.

(** ** ascii.ts *)

(** Modelled from the spec: [./ascii.ts], from which the codec imports the
    table [ASCII], is not among the sources.  Its members are taken to be
    the ASCII codes of the characters they name: the NUL terminator, the
    leading comma of the type-tag string and the tag characters
    [s i f d b T F] of the wire format. *)
Module ASCII.
Definition NULL : Z := 0.
Definition COMMA : Z := 44.   (* ',' *)
Definition SLASH : Z := 47.   (* '/' *)
Definition F : Z := 70.
Definition T : Z := 84.
Definition b : Z := 98.
Definition d : Z := 100.
Definition f : Z := 102.
Definition i : Z := 105.
Definition s : Z := 115.
End ASCII.

(** ** Integer conversions of the runtime *)

(** [ToInt32]: reduction modulo 2^32 into [-2^31, 2^31). *)
Definition ToInt32 (x : Z) : Z := (x + 2 ^ 31) mod 2 ^ 32 - 2 ^ 31.

(** ** Alignment utilities *)

(** [align4(x) = ((x | 0) + 3) & -4]: [x | 0] is [ToInt32 x], the sum is
    exact, [&] converts its left operand with [ToInt32] again. *)
Definition align4 (x : Z) : Z := Z.land (ToInt32 (ToInt32 x + 3)) (-4).

(** [pad(content, minPad) = (4 - ((content + minPad) % 4)) % 4 + minPad];
    [%] is the remainder that takes the sign of the dividend. *)
Definition pad (content minPad : Z) : Z :=
  Z.rem (4 - Z.rem (content + minPad) 4) 4 + minPad.

(** ** Numbers

    A JavaScript number is an IEEE 754 binary64 value.  It is represented
    by what it denotes, so that equality of representations is sameness of
    values: an integer, minus zero, an infinity, NaN, or a dyadic fraction
    [± (2k+1) / 2^e] with [e >= 1] (the general form of a finite binary
    number that is not an integer). *)
Inductive number : Type :=
| Int (z : Z)
| NegZero
| Infinity (neg : bool)
| NaN
| Frac (neg : bool) (k : N) (e : positive).

(** [isInt(num) = Math.round(num) === num]: rounding leaves integers, the
    zeros and the infinities unchanged; [NaN === NaN] is false. *)
Definition isInt (num : number) : bool :=
  match num with
  | Int _ | NegZero | Infinity _ => true
  | NaN | Frac _ _ _ => false
  end.

(** [ToInt32] of a number: NaN, zeros and infinities give 0, a finite
    number is truncated and reduced modulo 2^32. *)
Definition number_ToInt32 (num : number) : Z :=
  match num with
  | Int z => ToInt32 z
  | NegZero | Infinity _ | NaN => 0
  | Frac neg k e =>
      let q := Z.shiftr (2 * Z.of_N k + 1) (Z.pos e) in
      ToInt32 (if neg then - q else q)
  end.

(** *** IEEE 754 interchange formats

    A format has [p] bits of precision and [w] exponent bits: binary32 is
    [p = 24, w = 8], binary64 is [p = 53, w = 11]. *)

(** [m / 2^sh] rounded to nearest, ties to even ([0 < sh]). *)
Definition shr_rne (m sh : Z) : Z :=
  let q := Z.shiftr m sh in
  let r := m - Z.shiftl q sh in
  let half := 2 ^ (sh - 1) in
  if (half <? r) || ((r =? half) && Z.odd q) then q + 1 else q.

(** Exponent and fraction fields of the finite positive value [m * 2^x]
    ([0 < m]) rounded to the format; the fields of infinity on overflow. *)
Definition ieee_magnitude (p w : Z) (m x : Z) : Z :=
  let emin := 2 - 2 ^ (w - 1) in
  let E := Z.log2 m + x in
  let q := Z.max E emin - (p - 1) in
  let S := if q <=? x then Z.shiftl m (x - q) else shr_rne m (q - x) in
  Z.min (Z.shiftl (Z.max (E - emin) 0) (p - 1) + S)
        (Z.shiftl (2 ^ w - 1) (p - 1)).

Definition ieee_sign (p w : Z) (neg : bool) : Z :=
  if neg then 2 ^ (p - 1 + w) else 0.

Definition ieee_encode (p w : Z) (num : number) : Z :=
  match num with
  | Int 0 => 0
  | Int z => ieee_sign p w (z <? 0) + ieee_magnitude p w (Z.abs z) 0
  | NegZero => ieee_sign p w true
  | Infinity neg => ieee_sign p w neg + Z.shiftl (2 ^ w - 1) (p - 1)
  | NaN => Z.shiftl (2 ^ w - 1) (p - 1) + 2 ^ (p - 2)
  | Frac neg k e =>
      ieee_sign p w neg + ieee_magnitude p w (2 * Z.of_N k + 1) (- Z.pos e)
  end.

(** Number of trailing zero bits. *)
Fixpoint ctz (m : positive) : Z :=
  match m with
  | xO m' => 1 + ctz m'
  | _ => 0
  end.

(** The number [± m * 2^x]. *)
Definition scaled (neg : bool) (m x : Z) : number :=
  match m with
  | Z0 => if neg then NegZero else Int 0
  | Zpos pm =>
      let t := ctz pm in
      if 0 <=? x + t
      then Int (if neg then - Z.shiftl m x else Z.shiftl m x)
      else Frac neg (Z.to_N (Z.shiftr m (t + 1))) (Z.to_pos (- (x + t)))
  | Zneg _ => NaN
  end.

Definition ieee_decode (p w : Z) (bits : Z) : number :=
  let emin := 2 - 2 ^ (w - 1) in
  let neg := Z.testbit bits (p - 1 + w) in
  let ex := (bits / 2 ^ (p - 1)) mod 2 ^ w in
  let fr := bits mod 2 ^ (p - 1) in
  if ex =? 2 ^ w - 1 then (if fr =? 0 then Infinity neg else NaN)
  else if ex =? 0 then scaled neg fr (emin - (p - 1))
  else scaled neg (2 ^ (p - 1) + fr) (ex - 1 + emin - (p - 1)).

(** [Math.fround]: the nearest binary32 value. *)
Definition fround (num : number) : number :=
  ieee_decode 24 8 (ieee_encode 24 8 num).

(** *** Big-endian fields *)

(** The [n] low bytes of [v], most significant first. *)
Fixpoint be_bytes (n : nat) (v : Z) : list Z :=
  match n with
  | O => []
  | S n' => (v / 256 ^ Z.of_nat n') mod 256 :: be_bytes n' v
  end.

Definition be_value (bs : list Z) : Z :=
  fold_left (fun acc b => acc * 256 + b) bs 0.

(** ** Strings and text encoding

    A string is the list of its UTF-16 code units; [.length] counts them. *)
Definition jsstring : Type := list Z.

Definition js (s : string) : jsstring :=
  map (fun c => Z.of_N (N_of_ascii c)) (list_ascii_of_string s).

(** [===] on strings. *)
Fixpoint string_eqb (a b : jsstring) : bool :=
  match a, b with
  | [], [] => true
  | x :: a', y :: b' => (x =? y) && string_eqb a' b'
  | _, _ => false
  end.

Definition is_high_surrogate (c : Z) : bool := (0xD800 <=? c) && (c <=? 0xDBFF).
Definition is_low_surrogate (c : Z) : bool := (0xDC00 <=? c) && (c <=? 0xDFFF).

(** The scalar values of a string: a surrogate pair is one value, an
    unpaired surrogate is replaced by U+FFFD. *)
Fixpoint scalar_values (s : jsstring) : list Z :=
  match s with
  | [] => []
  | c :: s' =>
      if is_high_surrogate c then
        match s' with
        | c' :: s'' =>
            if is_low_surrogate c'
            then (0x10000 + (c - 0xD800) * 0x400 + (c' - 0xDC00)) :: scalar_values s''
            else 0xFFFD :: scalar_values s'
        | [] => [0xFFFD]
        end
      else if is_low_surrogate c then 0xFFFD :: scalar_values s'
      else c :: scalar_values s'
  end.

(** The code points that the string iterator ([...str]) yields, each as
    the string of its code units: a surrogate pair stays together, an
    unpaired surrogate is yielded as it is. *)
Fixpoint string_iterator (s : jsstring) : list jsstring :=
  match s with
  | [] => []
  | c :: s' =>
      if is_high_surrogate c then
        match s' with
        | c' :: s'' =>
            if is_low_surrogate c'
            then [c; c'] :: string_iterator s''
            else [c] :: string_iterator s'
        | [] => [[c]]
        end
      else [c] :: string_iterator s'
  end.

(** UTF-8 bytes of a scalar value. *)
Definition utf8_bytes (cp : Z) : list Z :=
  if cp <? 0x80 then [cp]
  else if cp <? 0x800 then [0xC0 + cp / 64; 0x80 + cp mod 64]
  else if cp <? 0x10000 then
    [0xE0 + cp / 4096; 0x80 + (cp / 64) mod 64; 0x80 + cp mod 64]
  else
    [0xF0 + cp / 262144; 0x80 + (cp / 4096) mod 64;
     0x80 + (cp / 64) mod 64; 0x80 + cp mod 64].

(** [new TextEncoder().encode(str)]. *)
Definition TextEncoder_encode (str : jsstring) : list Z :=
  flat_map utf8_bytes (scalar_values str).

(** The bytes that [encodeInto] writes at the start of a destination of
    [avail] bytes: whole characters, as long as the next one still fits. *)
Fixpoint encodeInto_values (cps : list Z) (avail : Z) : list Z :=
  match cps with
  | [] => []
  | cp :: cps' =>
      let bs := utf8_bytes cp in
      if Z.of_nat (length bs) <=? avail
      then bs ++ encodeInto_values cps' (avail - Z.of_nat (length bs))
      else []
  end.

Definition TextEncoder_encodeInto (str : jsstring) (avail : Z) : list Z :=
  encodeInto_values (scalar_values str) avail.

(** *** The UTF-8 decoder of [TextDecoder]

    The decoder state is the code point under construction, the number of
    continuation bytes still needed, and the bounds of the next byte. *)
Definition utf8_state : Type := (Z * Z * Z * Z)%type.
Definition utf8_idle : utf8_state := (0, 0, 0x80, 0xBF).

(** A byte met outside a multi-byte sequence: what is emitted, and the
    next state. *)
Definition utf8_lead (b : Z) : list Z * utf8_state :=
  if b <=? 0x7F then ([b], utf8_idle)
  else if (0xC2 <=? b) && (b <=? 0xDF) then ([], (Z.land b 0x1F, 1, 0x80, 0xBF))
  else if (0xE0 <=? b) && (b <=? 0xEF) then
    ([], (Z.land b 0xF, 2, if b =? 0xE0 then 0xA0 else 0x80,
                           if b =? 0xED then 0x9F else 0xBF))
  else if (0xF0 <=? b) && (b <=? 0xF4) then
    ([], (Z.land b 0x7, 3, if b =? 0xF0 then 0x90 else 0x80,
                           if b =? 0xF4 then 0x8F else 0xBF))
  else ([0xFFFD], utf8_idle).

Fixpoint utf8_decode (st : utf8_state) (bs : list Z) : list Z :=
  let '(cp, needed, lower, upper) := st in
  match bs with
  | [] => if needed =? 0 then [] else [0xFFFD]
  | b :: bs' =>
      if needed =? 0 then
        let '(out, st') := utf8_lead b in out ++ utf8_decode st' bs'
      else if (lower <=? b) && (b <=? upper) then
        let cp' := cp * 64 + Z.land b 0x3F in
        if needed =? 1 then cp' :: utf8_decode utf8_idle bs'
        else utf8_decode (cp', needed - 1, 0x80, 0xBF) bs'
      else
        (* the sequence is broken: U+FFFD, and the byte is read again *)
        let '(out, st') := utf8_lead b in
        0xFFFD :: out ++ utf8_decode st' bs'
  end.

Definition utf16_units (cp : Z) : list Z :=
  if cp <? 0x10000 then [cp]
  else [0xD800 + (cp - 0x10000) / 0x400; 0xDC00 + (cp - 0x10000) mod 0x400].

Definition strip_bom (bs : list Z) : list Z :=
  match bs with
  | b1 :: b2 :: b3 :: bs' =>
      if (b1 =? 0xEF) && (b2 =? 0xBB) && (b3 =? 0xBF) then bs' else bs
  | _ => bs
  end.

(** [new TextDecoder().decode(bytes)]: UTF-8, not fatal, a leading byte
    order mark is dropped. *)
Definition TextDecoder_decode (bs : list Z) : jsstring :=
  flat_map utf16_units (utf8_decode utf8_idle (strip_bom bs)).

(** ** Typed arrays and [DataView] *)

Definition len {A : Type} (l : list A) : Z := Z.of_nat (length l).

(** A [Uint8Array]: a window of [byteLength] bytes that starts at
    [byteOffset] in [buffer].  For this element type [.length] is
    [.byteLength]. *)
Record Uint8Array : Type := mkUint8Array {
  buffer : list Z;
  byteOffset : Z;
  byteLength : Z
}.

Definition elements (a : Uint8Array) : list Z :=
  take (Z.to_nat (byteLength a)) (drop (Z.to_nat (byteOffset a)) (buffer a)).

(** A view as the constructors of the runtime can produce it. *)
Definition wf_view (a : Uint8Array) : Prop :=
  0 <= byteOffset a /\ 0 <= byteLength a /\
  byteOffset a + byteLength a <= len (buffer a).

(** An array that owns its buffer ([new Uint8Array(n)], [slice], ...). *)
Definition Uint8Array_of (l : list Z) : Uint8Array :=
  {| buffer := l; byteOffset := 0; byteLength := len l |}.

(** [new Uint8Array(n)]: [n] zero bytes. *)
Definition new_Uint8Array (n : Z) : result (list Z) :=
  if n <? 0 then Throw RangeError else Ok (replicate (Z.to_nat n) 0).

(** [new Uint8Array(buffer, byteOffset, length)]. *)
Definition new_view (buf : list Z) (off n : Z) : result Uint8Array :=
  if (off <? 0) || (n <? 0) || (len buf <? off + n) then Throw RangeError
  else Ok {| buffer := buf; byteOffset := off; byteLength := n |}.

(** [Array(n)]: [n] empty slots; an empty slot is [None]. *)
Definition new_Array {A : Type} (n : Z) : result (list (option A)) :=
  if (n <? 0) || (2 ^ 32 <=? n) then Throw RangeError
  else Ok (replicate (Z.to_nat n) None).

(** [a[i]]: [None] is [undefined]. *)
Definition get (a : list Z) (i : Z) : option Z :=
  if i <? 0 then None else a !! Z.to_nat i.

(** [x === y] on what [a[i]] returns. *)
Definition option_eqb (x y : option Z) : bool :=
  match x, y with
  | Some a, Some b => a =? b
  | None, None => true
  | _, _ => false
  end.

(** [a[i] = v] on a typed array: ignored out of range. *)
Definition store (a : list Z) (i : Z) (v : Z) : list Z :=
  if i <? 0 then a else <[Z.to_nat i := v]> a.

(** Overwrite [a] with [src] from position [off] on. *)
Definition splice (a : list Z) (off : nat) (src : list Z) : list Z :=
  take off a ++ src ++ drop (off + length src) a.

(** [a.set(src, off)] and the [DataView] setters: a range check, then the
    bytes are written. *)
Definition typed_set (a : list Z) (src : list Z) (off : Z) : result (list Z) :=
  if (off <? 0) || (len a <? off + len src) then Throw RangeError
  else Ok (splice a (Z.to_nat off) src).

(** The [DataView] getters: a range check, then [n] bytes are read. *)
Definition dv_get (a : list Z) (off : Z) (n : nat) : result (list Z) :=
  if (off <? 0) || (len a <? off + Z.of_nat n) then Throw RangeError
  else Ok (take n (drop (Z.to_nat off) a)).

Definition getInt32 (a : list Z) (off : Z) : result Z :=
  bs <~ dv_get a off 4 ; Ok (ToInt32 (be_value bs)).
Definition getFloat32 (a : list Z) (off : Z) : result number :=
  bs <~ dv_get a off 4 ; Ok (ieee_decode 24 8 (be_value bs)).
Definition getFloat64 (a : list Z) (off : Z) : result number :=
  bs <~ dv_get a off 8 ; Ok (ieee_decode 53 11 (be_value bs)).

Definition setInt32 (a : list Z) (off : Z) (v : number) : result (list Z) :=
  typed_set a (be_bytes 4 (number_ToInt32 v)) off.
Definition setFloat32 (a : list Z) (off : Z) (v : number) : result (list Z) :=
  typed_set a (be_bytes 4 (ieee_encode 24 8 v)) off.
Definition setFloat64 (a : list Z) (off : Z) (v : number) : result (list Z) :=
  typed_set a (be_bytes 8 (ieee_encode 53 11 v)) off.

(** Index of the first [x] in [l], where the head of [l] has index [k];
    [-1] when there is none. *)
Fixpoint index_from (x : Z) (l : list Z) (k : Z) : Z :=
  match l with
  | [] => -1
  | y :: l' => if y =? x then k else index_from x l' (k + 1)
  end.

(** [a.indexOf(x, from)]: a negative [from] counts from the end. *)
Definition indexOf (a : list Z) (x : Z) (from : Z) : Z :=
  let k := if from <? 0 then Z.max (len a + from) 0 else from in
  index_from x (drop (Z.to_nat k) a) k.

(** [a.slice(start, end)]: both bounds are clamped to the array, a
    negative bound counts from the end. *)
Definition clamp_index (n i : Z) : Z :=
  if i <? 0 then Z.max (n + i) 0 else Z.min i n.

Definition slice (a : list Z) (start stop : Z) : list Z :=
  let k := clamp_index (len a) start in
  let final := clamp_index (len a) stop in
  take (Z.to_nat (final - k)) (drop (Z.to_nat k) a).

(** ** OSC arguments

    [OSCArg = string | number | boolean | Uint8Array].  A blob is
    represented by its elements: the codec reads [.length] and the
    elements of a blob argument, and builds a fresh array when it decodes
    one. *)
Inductive OSCArg : Type :=
| Str (s : jsstring)
| Num (x : number)
| Bool (b : bool)
| Blob (bytes : list Z).

(** The casts [args[i] as string], [as number], [as Uint8Array]; each is
    reached only under the type tag that the sizing pass gave to an
    argument of that type. *)
Definition as_string (a : OSCArg) : jsstring :=
  match a with Str s => s | _ => [] end.
Definition as_number (a : OSCArg) : number :=
  match a with Num x => x | _ => NaN end.
Definition as_Uint8Array (a : OSCArg) : list Z :=
  match a with Blob bs => bs | _ => [] end.

(** ** The optimized codec ([oscProtocol.ts]) *)

(** *** decodeOSC *)

(** One turn of the [switch (data[ti])]: the value assigned to [args[i]]
    ([None] when no case assigns) and the new [offset]. *)
Definition decodeOSC_case (data : Uint8Array) (tag : option Z) (offset : Z)
  : result (option OSCArg * Z) :=
  let d := elements data in
  match tag with
  | None => Ok (None, offset)
  | Some t =>
      if t =? ASCII.s then
        let end_ := indexOf d ASCII.NULL offset in
        v <~ new_view (buffer data) (byteOffset data + offset) (end_ - offset) ;
        Ok (Some (Str (TextDecoder_decode (elements v))), align4 (end_ + 1))
      else if t =? ASCII.i then
        x <~ getInt32 d offset ;
        Ok (Some (Num (Int x)), offset + 4)
      else if t =? ASCII.b then
        n <~ getInt32 d offset ;
        let offset := offset + 4 in
        Ok (Some (Blob (slice d offset (offset + n))), offset + align4 n)
      else if t =? ASCII.f then
        x <~ getFloat32 d offset ;
        Ok (Some (Num x), offset + 4)
      else if t =? ASCII.d then
        x <~ getFloat64 d offset ;
        Ok (Some (Num x), offset + 8)
      else if t =? ASCII.T then Ok (Some (Bool true), offset)
      else if t =? ASCII.F then Ok (Some (Bool false), offset)
      else Ok (None, offset)
  end.

(** [for (let i = 0, ti = tt_offset + 1; ti < tt_end; (i++, ti++))], with
    the number [n] of turns that are left. *)
Fixpoint decodeOSC_loop (data : Uint8Array) (n : nat) (i : nat) (ti : Z)
    (offset : Z) (args : list (option OSCArg)) : result (list (option OSCArg)) :=
  match n with
  | O => Ok args
  | S n' =>
      '(v, offset') <~ decodeOSC_case data (get (elements data) ti) offset ;
      let args' := match v with
                   | Some a => <[i := Some a]> args
                   | None => args
                   end in
      decodeOSC_loop data n' (S i) (ti + 1) offset' args'
  end.

Definition decodeOSC (data : Uint8Array)
  : result (jsstring * list (option OSCArg)) :=
  let d := elements data in
  if negb (Z.rem (byteLength data) 4 =? 0)
  then Throw (OSCProtocolError MsgLengthMod4)
  else if byteLength data <? 8
  then Throw (OSCProtocolError MsgPacketTooShort)
  else
    let addr_end := indexOf d ASCII.NULL 0 in
    v <~ new_view (buffer data) (byteOffset data) addr_end ;
    let addr := TextDecoder_decode (elements v) in
    let offset := align4 (addr_end + 1) in
    let tt_offset := offset in
    let tt_end := indexOf d ASCII.NULL tt_offset in
    let offset := align4 (tt_end + 1) in
    if negb (option_eqb (get d tt_offset) (Some ASCII.COMMA))
    then Throw (OSCProtocolError MsgInvalidTypeTag)
    else
      args <~ new_Array (tt_end - tt_offset - 1) ;
      args <~ decodeOSC_loop data (Z.to_nat (tt_end - (tt_offset + 1))) 0
                (tt_offset + 1) offset args ;
      Ok (addr, args).

(** *** encodeOSC *)

Record OSCEncoderOptions : Type := {
  oversize : option Z;
  f64 : option bool
}.

(** [options?.oversize ?? 0] *)
Definition get_oversize (options : option OSCEncoderOptions) : Z :=
  match options with
  | Some o => match oversize o with Some n => n | None => 0 end
  | None => 0
  end.

(** [options?.f64], as a condition *)
Definition get_f64 (options : option OSCEncoderOptions) : bool :=
  match options with
  | Some o => match f64 o with Some b => b | None => false end
  | None => false
  end.

(** The sizing pass: the type tags [tt] (here [tags]) and the final [packet_size]. *)
Fixpoint encodeOSC_sizing (use_f64 : bool) (args : list OSCArg)
    (packet_size : Z) : list Z * Z :=
  match args with
  | [] => ([], packet_size)
  | a :: args' =>
      let '(t, packet_size) :=
        match a with
        | Bool true => (ASCII.T, packet_size)
        | Bool false => (ASCII.F, packet_size)
        | Str s => (ASCII.s, packet_size + align4 (len s + 1))
        | Num x =>
            if isInt x then (ASCII.i, packet_size + 4)
            else if use_f64 then (ASCII.d, packet_size + 8)
            else (ASCII.f, packet_size + 4)
        | Blob bs => (ASCII.b, packet_size + (align4 (len bs) + 4))
        end in
      let '(tags, packet_size) := encodeOSC_sizing use_f64 args' packet_size in
      (t :: tags, packet_size)
  end.

(** One turn of the writing pass of [encodeOSC]: [switch (tt[i])]. *)
Definition encodeOSC_case (t : Z) (a : OSCArg) (packet : list Z) (offset : Z)
  : result (list Z * Z) :=
  if t =? ASCII.s then
    (* new Uint8Array(packet.buffer, offset) *)
    if (offset <? 0) || (len packet <? offset) then Throw RangeError else
    let written :=
      TextEncoder_encodeInto (as_string a) (len packet - offset) in
    Ok (splice packet (Z.to_nat offset) written,
        offset + align4 (len written + 1))
  else if t =? ASCII.i then
    packet <~ setInt32 packet offset (as_number a) ;
    Ok (packet, offset + 4)
  else if t =? ASCII.f then
    packet <~ setFloat32 packet offset (as_number a) ;
    Ok (packet, offset + 4)
  else if t =? ASCII.d then
    packet <~ setFloat64 packet offset (as_number a) ;
    Ok (packet, offset + 8)
  else if t =? ASCII.b then
    let blob := as_Uint8Array a in
    packet <~ setInt32 packet offset (Int (len blob)) ;
    let offset := offset + 4 in
    packet <~ typed_set packet blob offset ;
    Ok (packet, offset + align4 (len blob))
  else Ok (packet, offset).

Fixpoint encodeOSC_write (tags : list Z) (args : list OSCArg)
    (packet : list Z) (offset : Z) : result (list Z * Z) :=
  match tags, args with
  | t :: tags', a :: args' =>
      '(packet, offset) <~ encodeOSC_case t a packet offset ;
      encodeOSC_write tags' args' packet offset
  | _, _ => Ok (packet, offset)
  end.

Definition encodeOSC (addr : jsstring) (args : list OSCArg)
    (options : option OSCEncoderOptions) : result Uint8Array :=
  let '(tags, packet_size) :=
    encodeOSC_sizing (get_f64 options) args
      (align4 (len addr + 1) + align4 (len args + 2)) in
  packet <~ new_Uint8Array (packet_size + get_oversize options) ;
  let written := TextEncoder_encodeInto addr (len packet) in
  let packet := splice packet 0 written in
  let offset := align4 (len written + 1) in
  let packet := store packet offset ASCII.COMMA in
  packet <~ typed_set packet tags (offset + 1) ;
  let offset := align4 (offset + len tags + 2) in
  '(packet, offset) <~ encodeOSC_write tags args packet offset ;
  if len packet <? offset
  then Throw (OSCProtocolError MsgMoreBytesWritten)
  else new_view packet 0 offset.

(** *** encodeOSC_UTF8 *)

(** The sizing pass: the type tags, the encoded strings [str_args] in
    order, and the final [packet_size]. *)
Fixpoint encodeOSC_UTF8_sizing (use_f64 : bool) (args : list OSCArg)
    (packet_size : Z) : list Z * list (list Z) * Z :=
  match args with
  | [] => ([], [], packet_size)
  | a :: args' =>
      let '(t, pushed, packet_size) :=
        match a with
        | Bool true => (ASCII.T, [], packet_size)
        | Bool false => (ASCII.F, [], packet_size)
        | Str s =>
            let enc := TextEncoder_encode s in
            (ASCII.s, [enc], packet_size + align4 (len enc + 1))
        | Num x =>
            if isInt x then (ASCII.i, [], packet_size + 4)
            else if use_f64 then (ASCII.d, [], packet_size + 8)
            else (ASCII.f, [], packet_size + 4)
        | Blob bs => (ASCII.b, [], packet_size + (align4 (len bs) + 4))
        end in
      let '(tags, str_args, packet_size) :=
        encodeOSC_UTF8_sizing use_f64 args' packet_size in
      (t :: tags, pushed ++ str_args, packet_size)
  end.

Definition encodeOSC_UTF8_case (t : Z) (a : OSCArg) (str_args : list (list Z))
    (packet : list Z) (offset : Z) : result (list Z * Z * list (list Z)) :=
  if t =? ASCII.s then
    match str_args with
    | str :: str_args' =>
        packet <~ typed_set packet str offset ;
        Ok (packet, offset + align4 (len str + 1), str_args')
    | [] => Throw TypeError (* [set] of the [undefined] that [shift()] gives
                               on an empty queue: not reached *)
    end
  else
    '(packet, offset) <~ encodeOSC_case t a packet offset ;
    Ok (packet, offset, str_args).

Fixpoint encodeOSC_UTF8_write (tags : list Z) (args : list OSCArg)
    (str_args : list (list Z)) (packet : list Z) (offset : Z)
  : result (list Z * Z) :=
  match tags, args with
  | t :: tags', a :: args' =>
      '(packet, offset, str_args) <~
         encodeOSC_UTF8_case t a str_args packet offset ;
      encodeOSC_UTF8_write tags' args' str_args packet offset
  | _, _ => Ok (packet, offset)
  end.

Definition encodeOSC_UTF8 (addr : jsstring) (args : list OSCArg)
    (options : option OSCEncoderOptions) : result Uint8Array :=
  let addr_enc := TextEncoder_encode addr in
  let tt_start := align4 (len addr_enc + 1) in
  let tt_end_offset := align4 (tt_start + len args + 2) in
  let '(tags, str_args, packet_size) :=
    encodeOSC_UTF8_sizing (get_f64 options) args tt_end_offset in
  packet <~ new_Uint8Array packet_size ;
  packet <~ typed_set packet addr_enc 0 ;
  let packet := store packet tt_start ASCII.COMMA in
  packet <~ typed_set packet tags (tt_start + 1) ;
  '(packet, offset) <~
     encodeOSC_UTF8_write tags args str_args packet tt_end_offset ;
  if negb (offset =? packet_size) then Throw AssertionError
  else new_view packet 0 offset.

(** ** The reference codec ([oscProtocol.slow.ts]) *)

(** *** encodeOSCSlow *)

Record OSCSlowEncoderOptions : Type := {
  slow_f64 : option bool
}.

(** [opt?.f64], as a condition *)
Definition get_slow_f64 (opt : option OSCSlowEncoderOptions) : bool :=
  match opt with
  | Some o => match slow_f64 o with Some b => b | None => false end
  | None => false
  end.

(** [VariableUint8Array.pack]: the arrays one after the other. *)
Definition pack (data : list (list Z)) : list Z := concat data.

(** [str.charAt(0) !== "/"] *)
Definition charAt0_is_not_slash (str : jsstring) : bool :=
  match str with
  | c :: _ => negb (c =? ASCII.SLASH)
  | [] => true
  end.

Module Slow.

(** The inner functions of [encodeOSCSlow]; each returns the bytes of
    its pair, the tag is added by [argsGen]. *)
Definition oscString (str : jsstring) : result (list Z) :=
  let content := TextEncoder_encode str in
  if existsb (Z.eqb 0) content
  then Throw (OSCProtocolError MsgIllegalCharacters)
  else
    pad_bytes <~ new_Uint8Array (pad (len content) 1) ;
    Ok (pack [content; pad_bytes]).

Definition oscInt (int : number) : result (list Z) :=
  buf <~ new_Uint8Array 4 ; setInt32 buf 0 int.

Definition oscFloat (int : number) : result (list Z) :=
  buf <~ new_Uint8Array 4 ; setFloat32 buf 0 int.

Definition oscDouble (int : number) : result (list Z) :=
  buf <~ new_Uint8Array 8 ; setFloat64 buf 0 int.

Definition oscBlob (blob : list Z) : result (list Z) :=
  buf <~ new_Uint8Array (4 + len blob + pad (len blob) 0) ;
  buf <~ setInt32 buf 0 (Int (len blob)) ;
  typed_set buf blob 4.

(** [[...argsGen()]]: the pairs (tag character, bytes), in order; the
    first string that is refused ends the run. *)
Fixpoint argsGen (use_f64 : bool) (args : list OSCArg)
  : result (list (Z * list Z)) :=
  match args with
  | [] => Ok []
  | arg :: args' =>
      item <~ match arg with
              | Str s => bs <~ oscString s ; Ok (ASCII.s, bs)
              | Bool true => Ok (ASCII.T, [])
              | Bool false => Ok (ASCII.F, [])
              | Num x =>
                  if isInt x then bs <~ oscInt x ; Ok (ASCII.i, bs)
                  else if use_f64 then bs <~ oscDouble x ; Ok (ASCII.d, bs)
                  else bs <~ oscFloat x ; Ok (ASCII.f, bs)
              | Blob blob => bs <~ oscBlob blob ; Ok (ASCII.b, bs)
              end ;
      items <~ argsGen use_f64 args' ;
      Ok (item :: items)
  end.

End Slow.

Definition encodeOSCSlow (addr : jsstring) (args : list OSCArg)
    (opt : option OSCSlowEncoderOptions) : result Uint8Array :=
  if charAt0_is_not_slash addr
  then Throw (OSCProtocolError MsgAddrNoSlash)
  else
    argData <~ Slow.argsGen (get_slow_f64 opt) args ;
    let typeTag := ASCII.COMMA :: map fst argData in
    a <~ Slow.oscString addr ;
    t <~ Slow.oscString typeTag ;
    Ok (Uint8Array_of (pack (a :: t :: map snd argData))).

(** *** decodeOSCSlow

    The reader keeps a cursor [pos].  [oscStringGen] has a [while] loop
    with no bound of its own, so the functions that read a string take
    [fuel], the number of turns of that loop they may make: [None] is a
    run that has not finished within the fuel. *)

Definition run (A : Type) : Type := option (result A).

Definition bind_run {A B : Type} (r : run A) (k : A -> run B) : run B :=
  match r with
  | None => None
  | Some (Throw e) => Some (Throw e)
  | Some (Ok a) => k a
  end.

Notation "x <<~ r ; k" := (bind_run r (fun x => k))
  (at level 20, r at level 100, k at level 200, only parsing).
Notation "' p <<~ r ; k" := (bind_run r (fun p => k))
  (at level 20, p pattern, r at level 100, k at level 200, only parsing).

Definition lift {A : Type} (r : result A) : run A := Some r.

Module SlowDecoder.

(** [consumeToken()] is [get data pos], then [pos + 1]. *)

(** The [for (let i = 0; i < 4; i++)] loop of [oscStringGen], with [n]
    turns left: the tokens yielded, the new [pos], and [terminated]. *)
Fixpoint block (data : list Z) (n : nat) (pos : Z) (terminated : bool)
  : list (option Z) * Z * bool :=
  match n with
  | O => ([], pos, terminated)
  | S n' =>
      let token := get data pos in
      let pos := pos + 1 in
      if option_eqb token (Some 0) then block data n' pos true
      else
        let '(ys, pos', terminated') := block data n' pos terminated in
        (token :: ys, pos', terminated')
  end.

(** [while (!terminated)]: everything the generator yields, and the
    final [pos]. *)
Fixpoint oscStringGen (fuel : nat) (data : list Z) (pos : Z)
  : option (list (option Z) * Z) :=
  match fuel with
  | O => None
  | S fuel' =>
      let '(ys, pos', terminated) := block data 4 pos false in
      if terminated then Some (ys, pos')
      else
        match oscStringGen fuel' data pos' with
        | Some (ys', pos'') => Some (ys ++ ys', pos'')
        | None => None
        end
  end.

(** [new Uint8Array(iterable)]: [undefined] is stored as 0. *)
Definition Uint8Array_from (ys : list (option Z)) : list Z :=
  map (fun y => match y with Some b => b | None => 0 end) ys.

Definition oscString (fuel : nat) (data : list Z) (pos : Z)
  : run (jsstring * Z) :=
  match oscStringGen fuel data pos with
  | Some (ys, pos') => Some (Ok (TextDecoder_decode (Uint8Array_from ys), pos'))
  | None => None
  end.

Definition oscInt (data : list Z) (pos : Z) : result (Z * Z) :=
  val <~ getInt32 data pos ; Ok (val, pos + 4).

Definition oscFloat (data : list Z) (pos : Z) : result (number * Z) :=
  val <~ getFloat32 data pos ; Ok (val, pos + 4).

Definition oscDouble (data : list Z) (pos : Z) : result (number * Z) :=
  val <~ getFloat64 data pos ; Ok (val, pos + 8).

(** The [size] tokens from [pos] on. *)
Fixpoint tokens (data : list Z) (size : nat) (pos : Z) : list (option Z) :=
  match size with
  | O => []
  | S size' => get data pos :: tokens data size' (pos + 1)
  end.

Definition oscBlob (data : list Z) (pos : Z) : result (list Z * Z) :=
  '(size, pos) <~ oscInt data pos ;
  zeros <~ new_Uint8Array size ;
  (* for (let i = 0; i < size; i++) view[i] = consumeToken(); *)
  let view := Uint8Array_from (tokens data (length zeros) pos) in
  let pos := pos + size in
  (* for (let i = 0; i < pad(size); i++) consumeToken(); *)
  let pos := pos + Z.max (pad size 0) 0 in
  Ok (view, pos).

(** [[...argsGen()]]: a tag that has no case yields nothing. *)
Fixpoint argsGen (fuel : nat) (data : list Z) (typeTag : list jsstring)
    (pos : Z) : run (list OSCArg) :=
  match typeTag with
  | [] => Some (Ok [])
  | argType :: typeTag' =>
      '(yielded, pos) <<~
        (if string_eqb argType (js "s")
         then '(v, pos) <<~ oscString fuel data pos ; Some (Ok ([Str v], pos))
         else if string_eqb argType (js "i")
         then lift ('(v, pos) <~ oscInt data pos ; Ok ([Num (Int v)], pos))
         else if string_eqb argType (js "b")
         then lift ('(v, pos) <~ oscBlob data pos ; Ok ([Blob v], pos))
         else if string_eqb argType (js "f")
         then lift ('(v, pos) <~ oscFloat data pos ; Ok ([Num v], pos))
         else if string_eqb argType (js "d")
         then lift ('(v, pos) <~ oscDouble data pos ; Ok ([Num v], pos))
         else if string_eqb argType (js "T")
         then Some (Ok ([Bool true], pos))
         else if string_eqb argType (js "F")
         then Some (Ok ([Bool false], pos))
         else Some (Ok ([], pos))) ;
      rest <<~ argsGen fuel data typeTag' pos ;
      Some (Ok (yielded ++ rest))
  end.

End SlowDecoder.

Definition decodeOSCSlow (fuel : nat) (data : Uint8Array)
  : run (jsstring * list OSCArg) :=
  let d := elements data in
  if negb (Z.rem (byteLength data) 4 =? 0)
  then Some (Throw (OSCProtocolError MsgLengthMod4))
  else if byteLength data <? 8
  then Some (Throw (OSCProtocolError MsgPacketTooShort))
  else
    '(addr, pos) <<~ SlowDecoder.oscString fuel d 0 ;
    if charAt0_is_not_slash addr
    then Some (Throw (OSCProtocolError MsgAddrNoSlash))
    else
      '(tagstr, pos) <<~ SlowDecoder.oscString fuel d pos ;
      (* typeTag.shift() !== "," *)
      let shifted := match string_iterator tagstr with
                     | c :: _ => string_eqb c (js ",")
                     | [] => false
                     end in
      let typeTag := tail (string_iterator tagstr) in
      if negb shifted
      then Some (Throw (OSCProtocolError MsgMissingTypeTag))
      else
        args <<~ SlowDecoder.argsGen fuel d typeTag pos ;
        Some (Ok (addr, args)).

(** ** Observing results *)

(** The elements of a returned packet: what [assertEquals] compares. *)
Definition packet_bytes (r : result Uint8Array) : result (list Z) :=
  p <~ r ; Ok (elements p).

(** [decodeOSC(encodeOSC(addr, args))] *)
Definition decode_encode (addr : jsstring) (args : list OSCArg)
  : result (jsstring * list (option OSCArg)) :=
  p <~ encodeOSC addr args None ; decodeOSC p.

(** An array without empty slots, as [decodeOSC] returns it. *)
Definition dense (args : list OSCArg) : list (option OSCArg) := map Some args.

(** ** The scenario of the README: [encodeOSC("/foo/bar", [5, true])] *)

Definition scenario_addr : jsstring := js "/foo/bar".
Definition scenario_args : list OSCArg := [Num (Int 5); Bool true].

(** The packet as C7 describes it: the address field, a type-tag field
    [",iT\0"] padded to 8 bytes, the big-endian 5. *)
Definition scenario_packet_as_stated : list Z :=
  (js "/foo/bar" ++ [0; 0; 0; 0]) ++ (js ",iT" ++ [0; 0; 0; 0; 0]) ++ [0; 0; 0; 5].

(** ** The wire format

    The packet as the data model describes it: the aligned address string,
    the aligned type-tag string (a comma and one tag per argument), and the
    payloads of the arguments in order.  The encoders are compared with
    this description. *)

(** A string field: the content, the terminator and the zero padding. *)
Definition string_field (content : list Z) : list Z :=
  content ++ replicate (Z.to_nat (pad (len content) 1)) 0.

Definition type_tag (use_f64 : bool) (a : OSCArg) : Z :=
  match a with
  | Str _ => ASCII.s
  | Num x => if isInt x then ASCII.i else if use_f64 then ASCII.d else ASCII.f
  | Bool true => ASCII.T
  | Bool false => ASCII.F
  | Blob _ => ASCII.b
  end.

Definition payload (use_f64 : bool) (a : OSCArg) : list Z :=
  match a with
  | Str s => string_field (TextEncoder_encode s)
  | Num x =>
      if isInt x then be_bytes 4 (number_ToInt32 x)
      else if use_f64 then be_bytes 8 (ieee_encode 53 11 x)
      else be_bytes 4 (ieee_encode 24 8 x)
  | Bool _ => []
  | Blob bs =>
      be_bytes 4 (ToInt32 (len bs)) ++ bs ++
      replicate (Z.to_nat (pad (len bs) 0)) 0
  end.

Definition OSC_packet (use_f64 : bool) (addr : jsstring) (args : list OSCArg)
  : list Z :=
  string_field (TextEncoder_encode addr) ++
  string_field (ASCII.COMMA :: map (type_tag use_f64) args) ++
  flat_map (payload use_f64) args.

(** ** Conditions on the arguments of the encoders *)

(** [addr] starts with ['/']. *)
Definition starts_with_slash (addr : jsstring) : Prop :=
  exists rest, addr = ASCII.SLASH :: rest.

(** No NUL in a string. *)
Definition no_nul (s : jsstring) : Prop := Forall (fun c => c <> 0) s.

(** ASCII text without NUL: every code unit is in [1, 127]. *)
Definition ascii_text (s : jsstring) : Prop := Forall (fun c => 0 < c < 128) s.

Definition strings_of (args : list OSCArg) : list jsstring :=
  flat_map (fun a => match a with Str s => [s] | _ => [] end) args.

(** The packet is shorter than 2^31 bytes, so that every length and
    offset of the encoders is an exact 32-bit integer. *)
Definition fits_int32 (addr : jsstring) (args : list OSCArg) : Prop :=
  len (OSC_packet true addr args) < 2 ^ 31.

(** The packet of the message, in the encoding that [use_f64] selects, is
    shorter than 2^31 bytes. *)
Definition short_packet (use_f64 : bool) (addr : jsstring)
    (args : list OSCArg) : Prop :=
  len (OSC_packet use_f64 addr args) < 2 ^ 31.

(** Some string argument holds a NUL. *)
Definition nul_in_strings (args : list OSCArg) : bool :=
  existsb (fun s => existsb (Z.eqb 0) (TextEncoder_encode s)) (strings_of args).

(** ** The sizing passes, argument by argument *)

(** What the sizing pass of [encodeOSC] adds to [packet_size] for one
    argument: a string counts one byte per code unit. *)
Definition arg_size (use_f64 : bool) (a : OSCArg) : Z :=
  match a with
  | Str s => align4 (len s + 1)
  | Num x => if isInt x then 4 else if use_f64 then 8 else 4
  | Bool _ => 0
  | Blob bs => align4 (len bs) + 4
  end.

(** The same for [encodeOSC_UTF8]: a string counts its encoded bytes. *)
Definition arg_size_UTF8 (use_f64 : bool) (a : OSCArg) : Z :=
  match a with
  | Str s => align4 (len (TextEncoder_encode s) + 1)
  | _ => arg_size use_f64 a
  end.

Definition sum_sizes (size : OSCArg -> Z) (args : list OSCArg) : Z :=
  fold_right (fun a acc => size a + acc) 0 args.

(** An argument whose payload is shorter than 2^31 bytes. *)
Definition small_arg (a : OSCArg) : Prop :=
  len (TextEncoder_encode (as_string a)) <= 2 ^ 31 - 5 /\
  len (as_Uint8Array a) <= 2 ^ 31 - 8.

(** A string argument is ASCII text without NUL. *)
Definition ascii_arg (a : OSCArg) : Prop :=
  match a with
  | Str s => ascii_text s
  | _ => True
  end.

(** ** Arguments that survive a round trip *)

(** A number that [encodeOSC] (without options) and [decodeOSC] give back:
    an integer in the 32-bit range, or a number that is not an integer
    and is a binary32 value. *)
Definition roundtrip_number (x : number) : Prop :=
  match x with
  | Int z => - 2 ^ 31 <= z < 2 ^ 31
  | NegZero | Infinity _ => False
  | NaN | Frac _ _ _ => fround x = x
  end.

Definition roundtrip_arg (a : OSCArg) : Prop :=
  match a with
  | Str s => ascii_text s
  | Num x => roundtrip_number x
  | Bool _ | Blob _ => True
  end.

(** ** Sample messages (from the test suite) *)

Definition sample_addr : jsstring := js "/foo/bar/3".
Definition sample_args : list OSCArg :=
  [Str (js "baz2"); Num (Frac false 2 1) (* 2.5 *); Bool true;
   Num (Int 123); Blob [1; 2; 3; 4; 5]].

(** ** Type tags, as the decoders read them *)

(** A tag that has a [case] in the [switch] of the decoders. *)
Definition recognized (tag : option Z) : bool :=
  match tag with
  | Some t =>
      (t =? ASCII.s) || (t =? ASCII.i) || (t =? ASCII.b) || (t =? ASCII.f) ||
      (t =? ASCII.d) || (t =? ASCII.T) || (t =? ASCII.F)
  | None => false
  end.

(** The values [data[ti]] that the loop of [decodeOSC] switches on: the
    bytes between the leading comma and the first NUL that follows. *)
Definition type_tags_read (data : Uint8Array) : list (option Z) :=
  let d := elements data in
  let tt_offset := align4 (indexOf d ASCII.NULL 0 + 1) in
  let tt_end := indexOf d ASCII.NULL tt_offset in
  map (fun k => get d (tt_offset + 1 + Z.of_nat k))
      (seq 0 (Z.to_nat (tt_end - (tt_offset + 1)))).

(** A packet in which [decodeOSC] leaves an argument unset, and in which
    [decodeOSCSlow] reads the byte after the NUL of the type tags as one
    more tag: ["/a\0\0"], [",x\0i"], and the integer 7. *)
Definition packet_with_unknown_tag : Uint8Array :=
  Uint8Array_of (js "/a" ++ [0; 0] ++ js ",x" ++ [0] ++ js "i" ++ [0; 0; 0; 7]).

(** A character of the type-tag string that has a [case] in the [switch]
    of [decodeOSCSlow]. *)
Definition recognized_char (c : jsstring) : bool :=
  string_eqb c (js "s") || string_eqb c (js "i") || string_eqb c (js "b") ||
  string_eqb c (js "f") || string_eqb c (js "d") || string_eqb c (js "T") ||
  string_eqb c (js "F").

Definition recognized_unit (u : Z) : bool := recognized (Some u).

Fixpoint count_if {A : Type} (f : A -> bool) (l : list A) : nat :=
  match l with
  | [] => 0
  | x :: l' => (if f x then 1 else 0) + count_if f l'
  end.

(** Among the [n] bytes from [pos] on: the number of recognized tags, and
    whether one of them is NUL. *)
Fixpoint count_tags (d : list Z) (pos : Z) (n : nat) : nat :=
  match n with
  | O => 0
  | S n' => (if recognized (get d pos) then 1 else 0) + count_tags d (pos + 1) n'
  end.

Fixpoint has_nul (d : list Z) (pos : Z) (n : nat) : bool :=
  match n with
  | O => false
  | S n' => option_eqb (get d pos) (Some 0) || has_nul d (pos + 1) n'
  end.

(** After the NUL of the type-tag string, its 4-byte block holds nothing
    that reads as a tag (it holds zeros, in a packet of the encoders). *)
Definition clean_tag_padding (data : Uint8Array) : Prop :=
  let d := elements data in
  let tt_offset := align4 (indexOf d ASCII.NULL 0 + 1) in
  let tt_end := indexOf d ASCII.NULL tt_offset in
  forall j : Z, tt_end <= j < align4 (tt_end + 1) -> recognized (get d j) = false.

(** A state of the decoder from which the code point under construction
    is at least U+0080. *)
Definition utf8_state_ok (st : utf8_state) : Prop :=
  let '(cp, needed, lower, upper) := st in
  needed = 0 \/
  (1 <= needed <= 3 /\ 0x80 <= lower /\ upper <= 0xBF /\ 0 <= cp /\
   128 <= cp * 64 ^ needed + (lower - 0x80) * 64 ^ (needed - 1)).

(** A packet with a tag that both decoders skip, and zero padding:
    ["/a\0\0"], [",xi\0"], and the integer 7. *)
Definition packet_with_skipped_tag : Uint8Array :=
  Uint8Array_of (js "/a" ++ [0; 0] ++ js ",xi" ++ [0] ++ [0; 0; 0; 7]).

(** ** What [decodeOSC] reads from an encoded argument

    A string comes back as its UTF-8 bytes decode; a number that [isInt]
    accepts was written with [setInt32] and comes back reduced to 32 bits;
    another number was written with [setFloat32], or with [setFloat64]
    under the [f64] option, and comes back rounded to that format. *)
Definition received (use_f64 : bool) (a : OSCArg) : OSCArg :=
  match a with
  | Str s => Str (TextDecoder_decode (TextEncoder_encode s))
  | Num x =>
      if isInt x then Num (Int (number_ToInt32 x))
      else if use_f64 then Num (ieee_decode 53 11 (ieee_encode 53 11 x))
      else Num (fround x)
  | Bool b => Bool b
  | Blob bs => Blob bs
  end.

(** The [packet_size] that [encodeOSC] computes before it allocates: a
    string counts one byte for each UTF-16 code unit. *)
Definition encodeOSC_packet_size (use_f64 : bool) (addr : jsstring)
    (args : list OSCArg) : Z :=
  snd (encodeOSC_sizing use_f64 args
         (align4 (len addr + 1) + align4 (len args + 2))).

(** ** Well-formed text *)

(** [str.isWellFormed()]: the code units are 16-bit, a high surrogate is
    followed by a low one, and no low surrogate stands alone. *)
Fixpoint isWellFormed (s : jsstring) : bool :=
  match s with
  | [] => true
  | c :: s' =>
      if is_high_surrogate c then
        match s' with
        | c' :: s'' => is_low_surrogate c' && isWellFormed s''
        | [] => false
        end
      else
        negb (is_low_surrogate c) && (0 <=? c) && (c <? 0x10000) &&
        isWellFormed s'
  end.

(** A Unicode scalar value. *)
Definition scalar_value (cp : Z) : Prop :=
  0 <= cp < 0x110000 /\ ~ 0xD800 <= cp <= 0xDFFF.

(** The string starts with U+FEFF, the byte order mark. *)
Definition starts_with_BOM (s : jsstring) : bool :=
  match s with
  | c :: _ => c =? 0xFEFF
  | [] => false
  end.

(** A string without its leading byte order mark. *)
Definition without_BOM (s : jsstring) : jsstring :=
  if starts_with_BOM s then tail s else s.

(** ** Numbers of a binary format *)

(** A number that is not an integer and is a value of the format with [p]
    bits of precision and [w] exponent bits: the odd numerator has at most
    [p] bits, and the denominator is not beyond the smallest subnormal. *)
Definition binary_fraction (p w : Z) (x : number) : Prop :=
  match x with
  | Frac _ k e =>
      2 * Z.of_N k + 1 < 2 ^ p /\ Z.pos e <= 2 ^ (w - 1) - 2 + (p - 1)
  | _ => False
  end.

(** ** Messages that come back as they are *)

(** Text that [TextEncoder] and [TextDecoder] give back: well formed,
    without NUL, and not starting with a byte order mark. *)
Definition plain_text (s : jsstring) : Prop :=
  isWellFormed s = true /\ no_nul s /\ starts_with_BOM s = false.

(** A number that the codec gives back: an integer of 32 bits, NaN, or a
    number that is not an integer and is a value of the format in which
    it is written (binary64 under the [f64] option, binary32 without). *)
Definition exact_number (use_f64 : bool) (x : number) : Prop :=
  match x with
  | Int z => - 2 ^ 31 <= z < 2 ^ 31
  | NegZero | Infinity _ => False
  | NaN => True
  | Frac _ _ _ =>
      if use_f64 then binary_fraction 53 11 x else binary_fraction 24 8 x
  end.

Definition exact_arg (use_f64 : bool) (a : OSCArg) : Prop :=
  match a with
  | Str s => plain_text s
  | Num x => exact_number use_f64 x
  | Bool _ | Blob _ => True
  end.

(** A view of [packet] inside a longer buffer, with [before] in front of
    it and [after] behind. *)
Definition subarray_of (before packet after : list Z) : Uint8Array :=
  {| buffer := before ++ packet ++ after;
     byteOffset := len before;
     byteLength := len packet |}.


(** A packet whose blob declares the length -16: ["/a\0\0"], [",bs\0"],
    and the four bytes [FF FF FF F0].  After the blob the cursor of
    [decodeOSC] is at [12 + align4(-16) = -4]. *)
Definition packet_with_negative_blob : list Z :=
  js "/a" ++ [0; 0] ++ js ",bs" ++ [0] ++ [255; 255; 255; 240].

(** ** The first version of the codec ([src/oscProtocol.ts], 2024)

    The first [decodeOSC] and [encodeOSC] work like the reference codec,
    with two differences: the reader returns 0 past the end of the packet
    ([data[pos] ?? 0]), and numbers go through typed arrays
    ([Int32Array], [Float32Array], [Float64Array]) on an [ArrayBuffer],
    which hold their elements in the byte order of the host. *)
Module Legacy.

(** The [message] of the [OSCProtocolError] of that file. *)
Inductive message : Type :=
| MsgLengthMod4        (* `data.length % 4 !== 0` *)
| MsgLengthBelow8      (* `data.length < 8` *)
| MsgAddrNoSlash       (* `addr[0] != '/'` *)
| MsgMissingTypeTag    (* `missing type tag` *)
| MsgIllegalCharacters (* `string '...' contains illegal characters (\0)` *).

Inductive exn : Type :=
| OSCProtocolError (m : message)
| RangeError.

Inductive result (A : Type) : Type :=
| Ok (a : A)
| Throw (e : exn).
Arguments Ok {A} a.
Arguments Throw {A} e.

(** The bytes of an element of a typed array, and the element that bytes
    hold, on a host that is little endian or not. *)
Definition element_bytes (little_endian : bool) (n : nat) (bits : Z) : list Z :=
  if little_endian then rev (be_bytes n bits) else be_bytes n bits.

Definition element_bits (little_endian : bool) (bytes : list Z) : Z :=
  be_value (if little_endian then rev bytes else bytes).

Module Decoder.

(** [consumeToken()]: [pos++], then [data[pos] ?? 0]; the token and the
    new [pos]. *)
Definition consumeToken (data : list Z) (pos : Z) : Z * Z :=
  let pos := pos + 1 in
  (match get data pos with Some b => b | None => 0 end, pos).

(** [n] calls of [consumeToken], in their order. *)
Fixpoint consume (data : list Z) (n : nat) (pos : Z) : list Z * Z :=
  match n with
  | O => ([], pos)
  | S n' =>
      let '(token, pos) := consumeToken data pos in
      let '(ts, pos) := consume data n' pos in
      (token :: ts, pos)
  end.

(** [oscMemcpy(view)]: the view is filled from its last index down to 0. *)
Definition oscMemcpy (data : list Z) (length : nat) (pos : Z) : list Z * Z :=
  let '(ts, pos) := consume data length pos in (rev ts, pos).

(** The [for (let i = 0; i < 4; i++)] loop of [oscStringGen], with [n]
    turns left. *)
Fixpoint block (data : list Z) (n : nat) (pos : Z) (terminated : bool)
  : list Z * Z * bool :=
  match n with
  | O => ([], pos, terminated)
  | S n' =>
      let '(token, pos) := consumeToken data pos in
      if token =? 0 then block data n' pos true
      else
        let '(ys, pos', terminated') := block data n' pos terminated in
        (token :: ys, pos', terminated')
  end.

(** [while (!terminated)], with [fuel] turns at most. *)
Fixpoint oscStringGen (fuel : nat) (data : list Z) (pos : Z)
  : option (list Z * Z) :=
  match fuel with
  | O => None
  | S fuel' =>
      let '(ys, pos', terminated) := block data 4 pos false in
      if terminated then Some (ys, pos')
      else
        match oscStringGen fuel' data pos' with
        | Some (ys', pos'') => Some (ys ++ ys', pos'')
        | None => None
        end
  end.

Definition oscString (fuel : nat) (data : list Z) (pos : Z)
  : option (jsstring * Z) :=
  match oscStringGen fuel data pos with
  | Some (ys, pos') => Some (TextDecoder_decode ys, pos')
  | None => None
  end.

(** [new Int32Array(view)[0]] *)
Definition oscInt (little_endian : bool) (data : list Z) (pos : Z) : Z * Z :=
  let '(view, pos) := oscMemcpy data 4 pos in
  (ToInt32 (element_bits little_endian view), pos).

(** [new Float32Array(view)[0]] *)
Definition oscFloat (little_endian : bool) (data : list Z) (pos : Z)
  : number * Z :=
  let '(view, pos) := oscMemcpy data 4 pos in
  (ieee_decode 24 8 (element_bits little_endian view), pos).

(** [new Float64Array(view)[0]] *)
Definition oscDouble (little_endian : bool) (data : list Z) (pos : Z)
  : number * Z :=
  let '(view, pos) := oscMemcpy data 8 pos in
  (ieee_decode 53 11 (element_bits little_endian view), pos).

Definition oscBlob (little_endian : bool) (data : list Z) (pos : Z)
  : result (list Z * Z) :=
  let '(size, pos) := oscInt little_endian data pos in
  (* new Uint8Array(size) *)
  if size <? 0 then Throw RangeError
  else
    let '(view, pos) := oscMemcpy data (Z.to_nat size) pos in
    (* for (let i = 0; i < pad(size); i++) consumeToken(); *)
    let '(_, pos) := consume data (Z.to_nat (pad size 0)) pos in
    Ok (view, pos).

(** [[...argsGen()]]: [None] is a run that is out of fuel. *)
Fixpoint argsGen (little_endian : bool) (fuel : nat) (data : list Z)
    (typeTag : list jsstring) (pos : Z) : option (result (list OSCArg)) :=
  match typeTag with
  | [] => Some (Ok [])
  | argType :: typeTag' =>
      let yielded : option (result (list OSCArg * Z)) :=
        if string_eqb argType (js "s") then
          match oscString fuel data pos with
          | Some (v, pos) => Some (Ok ([Str v], pos))
          | None => None
          end
        else if string_eqb argType (js "i") then
          let '(v, pos) := oscInt little_endian data pos in
          Some (Ok ([Num (Int v)], pos))
        else if string_eqb argType (js "b") then
          match oscBlob little_endian data pos with
          | Ok (v, pos) => Some (Ok ([Blob v], pos))
          | Throw e => Some (Throw e)
          end
        else if string_eqb argType (js "f") then
          let '(v, pos) := oscFloat little_endian data pos in
          Some (Ok ([Num v], pos))
        else if string_eqb argType (js "d") then
          let '(v, pos) := oscDouble little_endian data pos in
          Some (Ok ([Num v], pos))
        else if string_eqb argType (js "T") then Some (Ok ([Bool true], pos))
        else if string_eqb argType (js "F") then Some (Ok ([Bool false], pos))
        else Some (Ok ([], pos)) in
      match yielded with
      | None => None
      | Some (Throw e) => Some (Throw e)
      | Some (Ok (ys, pos)) =>
          match argsGen little_endian fuel data typeTag' pos with
          | None => None
          | Some (Throw e) => Some (Throw e)
          | Some (Ok rest) => Some (Ok (ys ++ rest))
          end
      end
  end.

End Decoder.

Definition decodeOSC (little_endian : bool) (fuel : nat) (data : Uint8Array)
  : option (result (jsstring * list OSCArg)) :=
  let d := elements data in
  if negb (Z.rem (byteLength data) 4 =? 0)
  then Some (Throw (OSCProtocolError MsgLengthMod4))
  else if byteLength data <? 8
  then Some (Throw (OSCProtocolError MsgLengthBelow8))
  else
    (* let pos = -1; *)
    match Decoder.oscString fuel d (-1) with
    | None => None
    | Some (addr, pos) =>
        if charAt0_is_not_slash addr
        then Some (Throw (OSCProtocolError MsgAddrNoSlash))
        else
          match Decoder.oscString fuel d pos with
          | None => None
          | Some (tagstr, pos) =>
              (* typeTag.shift() !== "," *)
              let shifted := match string_iterator tagstr with
                             | c :: _ => string_eqb c (js ",")
                             | [] => false
                             end in
              let typeTag := tail (string_iterator tagstr) in
              if negb shifted
              then Some (Throw (OSCProtocolError MsgMissingTypeTag))
              else
                match Decoder.argsGen little_endian fuel d typeTag pos with
                | None => None
                | Some (Throw e) => Some (Throw e)
                | Some (Ok args) => Some (Ok (addr, args))
                end
          end
    end.

Module Encoder.

Definition oscString (str : jsstring) : result (list Z) :=
  let content := TextEncoder_encode str in
  if existsb (Z.eqb 0) content
  then Throw (OSCProtocolError MsgIllegalCharacters)
  else Ok (pack [content; replicate (Z.to_nat (pad (len content) 1)) 0]).

(** [new Int32Array(buf)[0] = int], then [new Uint8Array(buf).reverse()]. *)
Definition oscInt (little_endian : bool) (int : number) : list Z :=
  rev (element_bytes little_endian 4 (number_ToInt32 int)).

(** [new Float32Array(buf)[0] = int], then [new Uint8Array(buf).reverse()]. *)
Definition oscFloat (little_endian : bool) (int : number) : list Z :=
  rev (element_bytes little_endian 4 (ieee_encode 24 8 int)).

(** [[...argsGen()]]: the tag and the bytes of each argument; a
    [Uint8Array] argument meets no branch and yields nothing. *)
Fixpoint argsGen (little_endian : bool) (args : list OSCArg)
  : result (list (Z * list Z)) :=
  match args with
  | [] => Ok []
  | arg :: args' =>
      let yielded : result (list (Z * list Z)) :=
        match arg with
        | Str s =>
            match oscString s with
            | Ok bytes => Ok [(ASCII.s, bytes)]
            | Throw e => Throw e
            end
        | Bool true => Ok [(ASCII.T, [])]
        | Bool false => Ok [(ASCII.F, [])]
        | Num x =>
            if isInt x then Ok [(ASCII.i, oscInt little_endian x)]
            else Ok [(ASCII.f, oscFloat little_endian x)]
        | Blob _ => Ok []
        end in
      match yielded with
      | Throw e => Throw e
      | Ok ys =>
          match argsGen little_endian args' with
          | Throw e => Throw e
          | Ok rest => Ok (ys ++ rest)
          end
      end
  end.

End Encoder.

Definition encodeOSC (little_endian : bool) (addr : jsstring)
    (args : list OSCArg) : result Uint8Array :=
  if charAt0_is_not_slash addr
  then Throw (OSCProtocolError MsgAddrNoSlash)
  else
    match Encoder.argsGen little_endian args with
    | Throw e => Throw e
    | Ok argData =>
        (* typeTag.join("") *)
        let typeTag := ASCII.COMMA :: map fst argData in
        match Encoder.oscString addr with
        | Throw e => Throw e
        | Ok a =>
            match Encoder.oscString typeTag with
            | Throw e => Throw e
            | Ok t => Ok (Uint8Array_of (pack (a :: t :: map snd argData)))
            end
        end
    end.

End Legacy.

(** The arguments that the first [encodeOSC] encodes: all but the blobs. *)
Definition without_blobs (args : list OSCArg) : list OSCArg :=
  List.filter (fun a => match a with Blob _ => false | _ => true end) args.

(** What the first [decodeOSC] reads from an encoded argument on a little
    endian host: a blob comes back in reverse order. *)
Definition legacy_received (use_f64 : bool) (a : OSCArg) : OSCArg :=
  match a with
  | Blob bs => Blob (rev bs)
  | _ => received use_f64 a
  end.

(** * Properties *)

(** ** Facts on [ToInt32], [align4] and [pad] *)

Lemma ToInt32_id (x : Z) : - 2 ^ 31 <= x < 2 ^ 31 -> ToInt32 x = x.
Proof. intros H. unfold ToInt32. rewrite Z.mod_small; lia. Qed.

Lemma ToInt32_range (x : Z) : - 2 ^ 31 <= ToInt32 x < 2 ^ 31.
Proof.
  unfold ToInt32.
  pose proof (Z.mod_pos_bound (x + 2 ^ 31) (2 ^ 32) ltac:(lia)). lia.
Qed.

Lemma land_m4 (y : Z) : Z.land y (-4) = 4 * (y / 4).
Proof.
  apply Z.bits_inj'. intros n Hn.
  rewrite Z.land_spec.
  replace (4 * (y / 4)) with (Z.shiftl (Z.shiftr y 2) 2)
    by (rewrite Z.shiftl_mul_pow2, Z.shiftr_div_pow2 by lia; change (2 ^ 2) with 4; lia).
  change (-4) with (Z.lnot (Z.ones 2)).
  rewrite Z.lnot_spec by lia.
  destruct (Z.ltb_spec n 2).
  - rewrite Z.ones_spec_low, Z.shiftl_spec_low by lia.
    apply andb_false_r.
  - rewrite Z.ones_spec_high, Z.shiftl_spec, Z.shiftr_spec by lia.
    rewrite andb_true_r. f_equal. lia.
Qed.

Lemma align4_mod4 (x : Z) : align4 x mod 4 = 0.
Proof.
  unfold align4. rewrite land_m4.
  rewrite Z.mul_comm. apply Z.mod_mul. lia.
Qed.

Lemma align4_small (x : Z) :
  0 <= x <= 2 ^ 31 - 4 -> align4 x = 4 * ((x + 3) / 4).
Proof.
  intros H. unfold align4.
  rewrite (ToInt32_id x) by lia.
  rewrite ToInt32_id by lia.
  apply land_m4.
Qed.

Lemma align4_bounds (x : Z) :
  0 <= x <= 2 ^ 31 - 4 -> x <= align4 x < x + 4.
Proof.
  intros H. rewrite align4_small by lia.
  Z.to_euclidean_division_equations; lia.
Qed.

Lemma align4_of_multiple (k : Z) :
  0 <= 4 * k <= 2 ^ 31 - 4 -> align4 (4 * k) = 4 * k.
Proof.
  intros H. rewrite align4_small by lia.
  Z.to_euclidean_division_equations; lia.
Qed.

Lemma pad_spec (content minPad : Z) :
  0 <= content -> 0 <= minPad ->
  pad content minPad = (4 - (content + minPad) mod 4) mod 4 + minPad.
Proof.
  intros Hc Hm. unfold pad.
  rewrite (Z.rem_mod_nonneg (content + minPad) 4) by lia.
  pose proof (Z.mod_pos_bound (content + minPad) 4 ltac:(lia)).
  rewrite Z.rem_mod_nonneg by lia. reflexivity.
Qed.

(** The padded length of a string field, in both codecs. *)
Lemma pad1_align4 (n : Z) :
  0 <= n <= 2 ^ 31 - 5 -> n + pad n 1 = align4 (n + 1).
Proof.
  intros H. rewrite pad_spec, align4_small by lia.
  Z.to_euclidean_division_equations; lia.
Qed.

(** The padded length of a blob, in both codecs. *)
Lemma pad0_align4 (n : Z) :
  0 <= n <= 2 ^ 31 - 4 -> n + pad n 0 = align4 n.
Proof.
  intros H. rewrite pad_spec, align4_small by lia.
  Z.to_euclidean_division_equations; lia.
Qed.

(** ** [align4] *)

(** C6, as stated, fails: [align4] works on 32-bit integers, and from
    [2^31 - 3] on the sum [x + 3] wraps around to a negative number. *)
Lemma align4_wraps :
  ~ (forall x : Z, 0 <= x ->
       align4 x mod 4 = 0 /\ x <= align4 x /\ align4 x < x + 4).
Proof.
  intros H. destruct (H 2147483645 ltac:(lia)) as (_ & Hge & _).
  vm_compute in Hge. apply Hge. reflexivity.
Qed.

(** C6 (amended): for every integer [x] with [0 <= x <= 2^31 - 4],
    [align4 x] is a multiple of 4, [align4 x >= x] and [align4 x < x + 4];
    it is the smallest multiple of 4 that is at least [x]. *)
Theorem align4_correct (x : Z) :
  0 <= x <= 2 ^ 31 - 4 ->
  align4 x mod 4 = 0 /\ x <= align4 x /\ align4 x < x + 4 /\
  (forall m : Z, m mod 4 = 0 -> x <= m -> align4 x <= m).
Proof.
  intros H. pose proof (align4_bounds x H). pose proof (align4_mod4 x).
  repeat split; try lia.
  intros m Hm Hx. Z.to_euclidean_division_equations; lia.
Qed.

Lemma align4_correct_witness :
  0 <= 5 <= 2 ^ 31 - 4 /\ align4 5 = 8 /\ align4 5 mod 4 = 0.
Proof.
  split; [lia |]. split; [reflexivity |].
  exact (proj1 (align4_correct 5 ltac:(lia))).
Defined.

(** ** The scenario of the README *)

(** C7, as stated, fails: the type-tag field of the packet is 4 bytes
    long, not 8; the packet has 20 bytes and the integer starts at byte
    16.  (The address field is 12 bytes long, not 8.) *)
Lemma scenario_not_as_stated :
  exists p, encodeOSC scenario_addr scenario_args None = Ok p /\
    elements p <> scenario_packet_as_stated /\
    len (elements p) = 20 /\
    len scenario_packet_as_stated = 24 /\
    take 4 (drop 16 (elements p)) = [0; 0; 0; 5].
Proof.
  eexists. split; [vm_compute; reflexivity |].
  split; [| split; [| split]]; vm_compute; congruence.
Qed.

(** C7 (amended): [encodeOSC("/foo/bar", [5, true])] is the 12-byte
    address field ["/foo/bar\0\0\0\0"], the 4-byte type-tag field
    [",iT\0"], and the 4 bytes [00 00 00 05]: 20 bytes, none for [true];
    [decodeOSC] of that packet returns [("/foo/bar", [5, true])]. *)
Theorem scenario_packet :
  packet_bytes (encodeOSC scenario_addr scenario_args None) =
    Ok ((js "/foo/bar" ++ [0; 0; 0; 0]) ++ (js ",iT" ++ [0]) ++ [0; 0; 0; 5]) /\
  decode_encode scenario_addr scenario_args =
    Ok (scenario_addr, dense scenario_args).
Proof. split; vm_compute; reflexivity. Qed.

(** ** Validation that the optimized codec does not make *)

(** C3: the optimized codec accepts an address without the leading ['/'],
    in both directions, where the reference codec throws
    [addr[0] != '/']. *)
Theorem address_without_slash_accepted :
  packet_bytes (encodeOSC (js "foo") [] None) = Ok (js "foo" ++ [0; 44; 0; 0; 0]) /\
  decodeOSC (Uint8Array_of (js "foo" ++ [0; 44; 0; 0; 0])) = Ok (js "foo", []) /\
  encodeOSCSlow (js "foo") [] None = Throw (OSCProtocolError MsgAddrNoSlash) /\
  decodeOSCSlow 1 (Uint8Array_of (js "foo" ++ [0; 44; 0; 0; 0])) =
    Some (Throw (OSCProtocolError MsgAddrNoSlash)).
Proof. repeat split; vm_compute; reflexivity. Qed.

(** The reference encoder refuses every address that does not begin
    with ['/']. *)
Lemma encodeOSCSlow_address (addr : jsstring) (args : list OSCArg)
    (opt : option OSCSlowEncoderOptions) :
  charAt0_is_not_slash addr = true ->
  encodeOSCSlow addr args opt = Throw (OSCProtocolError MsgAddrNoSlash).
Proof. intros H. unfold encodeOSCSlow. rewrite H. reflexivity. Qed.

(** C4: [encodeOSC] encodes a string argument with an embedded NUL and
    returns a packet, in which the string ends at that NUL, and it encodes
    an address with an embedded NUL; the reference encoder throws the
    illegal-characters error on both. *)
Theorem embedded_nul_accepted :
  packet_bytes (encodeOSC (js "/a") [Str [120; 0; 121]] None) =
    Ok (js "/a" ++ [0; 0] ++ js ",s" ++ [0; 0] ++ [120; 0; 121; 0]) /\
  decode_encode (js "/a") [Str [120; 0; 121]] = Ok (js "/a", [Some (Str [120])]) /\
  packet_bytes (encodeOSC [47; 0; 98] [] None) = Ok [47; 0; 98; 0; 44; 0; 0; 0] /\
  encodeOSCSlow (js "/a") [Str [120; 0; 121]] None =
    Throw (OSCProtocolError MsgIllegalCharacters) /\
  encodeOSCSlow [47; 0; 98] [] None =
    Throw (OSCProtocolError MsgIllegalCharacters).
Proof. repeat split; vm_compute; reflexivity. Qed.

(** C8: multi-byte text that fits the padding of its field is encoded,
    and [encodeInto] drops the characters that do not fit the buffer:
    ["aé€"] is sized as 3 bytes plus terminator, ["aé"] takes the 3 bytes,
    ["€"] is dropped and no error is thrown. *)
Theorem multibyte_text_accepted :
  packet_bytes (encodeOSC (js "/a") [Str [97; 0xE9; 0x20AC]] None) =
    Ok (js "/a" ++ [0; 0] ++ js ",s" ++ [0; 0] ++ [97; 0xC3; 0xA9; 0]) /\
  decode_encode (js "/a") [Str [97; 0xE9; 0x20AC]] =
    Ok (js "/a", [Some (Str [97; 0xE9])]) /\
  packet_bytes (encodeOSC [47; 0xE9] [] None) = Ok [47; 0xC3; 0xA9; 0; 44; 0; 0; 0].
Proof. repeat split; vm_compute; reflexivity. Qed.

(** With other multi-byte inputs the call does fail: with the capacity
    error, or with a [RangeError] of the runtime. *)
Lemma multibyte_text_rejected :
  encodeOSC (js "/a") [Str [0xE9; 0xE9]] None =
    Throw (OSCProtocolError MsgMoreBytesWritten) /\
  encodeOSC [47; 97; 0xE9] [] None = Throw RangeError.
Proof. split; vm_compute; reflexivity. Qed.

(** ** Termination *)

Lemma Forall_drop_S {A : Type} (P : A -> Prop) (l : list A) (n : nat) :
  Forall P (drop n l) -> Forall P (drop (S n) l).
Proof.
  intros H. replace (S n) with (n + 1)%nat by lia.
  rewrite <- drop_drop. apply Forall_drop. exact H.
Qed.

Lemma get_drop_nonzero (data : list Z) (pos : Z) (b : Z) :
  0 <= pos -> Forall (fun b => b <> 0) (drop (Z.to_nat pos) data) ->
  get data pos = Some b -> b <> 0.
Proof.
  intros Hpos Hall Hget. unfold get in Hget.
  destruct (Z.ltb_spec pos 0); [lia |].
  rewrite Forall_lookup in Hall. apply (Hall 0%nat).
  rewrite lookup_drop. rewrite Nat.add_0_r. exact Hget.
Qed.

(** A block of four tokens without a NUL leaves [terminated] as it was. *)
Lemma block_no_nul (data : list Z) (n : nat) :
  forall (pos : Z) (t : bool),
    0 <= pos -> Forall (fun b => b <> 0) (drop (Z.to_nat pos) data) ->
    exists ys, SlowDecoder.block data n pos t = (ys, pos + Z.of_nat n, t).
Proof.
  induction n as [| n IH]; intros pos t Hpos Hall; cbn [SlowDecoder.block].
  - exists []. f_equal. f_equal. lia.
  - assert (Hnext : Forall (fun b => b <> 0) (drop (Z.to_nat (pos + 1)) data)).
    { replace (Z.to_nat (pos + 1)) with (S (Z.to_nat pos)) by lia.
      apply Forall_drop_S. exact Hall. }
    destruct (IH (pos + 1) t ltac:(lia) Hnext) as [ys Hys].
    pose proof (get_drop_nonzero data pos) as Hnz.
    destruct (get data pos) as [b |] eqn:Hget; cbn [option_eqb].
    + specialize (Hnz b Hpos Hall eq_refl).
      destruct (Z.eqb_spec b 0); [congruence |].
      rewrite Hys. eexists. f_equal. f_equal. lia.
    + rewrite Hys. eexists. f_equal. f_equal. lia.
Qed.

(** When no NUL follows the cursor, the [while] loop of [oscStringGen]
    does not end, whatever the number of turns it is given. *)
Lemma oscStringGen_no_nul (data : list Z) (fuel : nat) :
  forall pos : Z,
    0 <= pos -> Forall (fun b => b <> 0) (drop (Z.to_nat pos) data) ->
    SlowDecoder.oscStringGen fuel data pos = None.
Proof.
  induction fuel as [| fuel IH]; intros pos Hpos Hall; [reflexivity |].
  cbn [SlowDecoder.oscStringGen].
  destruct (block_no_nul data 4 pos false Hpos Hall) as [ys Hys].
  rewrite Hys.
  rewrite IH; [reflexivity | lia |].
  replace (Z.to_nat (pos + Z.of_nat 4)) with (Z.to_nat pos + 4)%nat by lia.
  rewrite <- drop_drop. apply Forall_drop. exact Hall.
Qed.

(** [decodeOSCSlow] does not return on a packet of a legal length that
    holds no NUL byte. *)
Lemma decodeOSCSlow_no_nul (data : Uint8Array) (fuel : nat) :
  Z.rem (byteLength data) 4 = 0 -> 8 <= byteLength data ->
  Forall (fun b => b <> 0) (elements data) ->
  decodeOSCSlow fuel data = None.
Proof.
  intros Hmod Hlen Hall. unfold decodeOSCSlow.
  rewrite Hmod. simpl negb. cbv iota.
  destruct (Z.ltb_spec (byteLength data) 8); [lia |].
  unfold SlowDecoder.oscString.
  rewrite oscStringGen_no_nul; [reflexivity | lia | exact Hall].
Qed.

(** C5: [decodeOSCSlow] runs forever on the 8-byte packet ["/aaaaaaa"],
    which has no NUL: for every amount of fuel the run is unfinished.
    [decodeOSC] throws on the same packet. *)
Theorem decodeOSCSlow_diverges :
  (forall fuel : nat,
     decodeOSCSlow fuel (Uint8Array_of (js "/aaaaaaa")) = None) /\
  decodeOSC (Uint8Array_of (js "/aaaaaaa")) = Throw RangeError.
Proof.
  split; [| vm_compute; reflexivity].
  intros fuel. apply decodeOSCSlow_no_nul.
  - reflexivity.
  - vm_compute. congruence.
  - vm_compute. repeat constructor; congruence.
Qed.

(** ** Lengths and buffers *)

Lemma len_nil {A : Type} : len (@nil A) = 0.
Proof. reflexivity. Qed.

Lemma len_cons {A : Type} (x : A) (l : list A) : len (x :: l) = 1 + len l.
Proof. unfold len. simpl length. lia. Qed.

Lemma len_app {A : Type} (l k : list A) : len (l ++ k) = len l + len k.
Proof. unfold len. rewrite length_app. lia. Qed.

Lemma len_replicate {A : Type} (n : Z) (x : A) :
  0 <= n -> len (replicate (Z.to_nat n) x) = n.
Proof. intros H. unfold len. rewrite length_replicate. lia. Qed.

Lemma len_nonneg {A : Type} (l : list A) : 0 <= len l.
Proof. unfold len. lia. Qed.

Lemma len_map {A B : Type} (f : A -> B) (l : list A) : len (map f l) = len l.
Proof. unfold len. rewrite length_map. reflexivity. Qed.

Lemma length_be_bytes (n : nat) (v : Z) : length (be_bytes n v) = n.
Proof.
  induction n as [| n IH]; simpl; [reflexivity |].
  rewrite IH. reflexivity.
Qed.

Lemma len_be_bytes (n : nat) (v : Z) : len (be_bytes n v) = Z.of_nat n.
Proof. unfold len. rewrite length_be_bytes. reflexivity. Qed.

Lemma to_nat_len {A : Type} (l : list A) : Z.to_nat (len l) = length l.
Proof. unfold len. lia. Qed.

Lemma zeros_split (a k : Z) :
  0 <= a <= k ->
  replicate (Z.to_nat k) 0 =
  replicate (Z.to_nat a) 0 ++ replicate (Z.to_nat (k - a)) 0.
Proof.
  intros H. rewrite <- replicate_add. f_equal. lia.
Qed.

Lemma splice_zeros (pre src : list Z) (k : Z) :
  len src <= k ->
  splice (pre ++ replicate (Z.to_nat k) 0) (length pre) src =
  pre ++ src ++ replicate (Z.to_nat (k - len src)) 0.
Proof.
  intros H. unfold splice.
  rewrite take_app_length. f_equal. f_equal.
  rewrite drop_app_add. rewrite drop_replicate. f_equal.
  unfold len in *. lia.
Qed.

(** Writing [src] in the zeroed part of a buffer. *)
Lemma typed_set_zeros (pre src : list Z) (k : Z) :
  len src <= k ->
  typed_set (pre ++ replicate (Z.to_nat k) 0) src (len pre) =
  Ok (pre ++ src ++ replicate (Z.to_nat (k - len src)) 0).
Proof.
  intros H. unfold typed_set.
  pose proof (len_nonneg pre). pose proof (len_nonneg src).
  rewrite len_app, len_replicate by lia.
  destruct (Z.ltb_spec (len pre) 0); [lia |].
  destruct (Z.ltb_spec (len pre + k) (len pre + len src)); [lia |].
  simpl orb. cbv iota.
  rewrite to_nat_len. rewrite splice_zeros by lia. reflexivity.
Qed.

(** Writing a field: the bytes, and the padding that is already there. *)
Lemma typed_set_field (pre src : list Z) (p k : Z) :
  0 <= p -> len src + p <= k ->
  typed_set (pre ++ replicate (Z.to_nat k) 0) src (len pre) =
  Ok ((pre ++ src ++ replicate (Z.to_nat p) 0) ++
      replicate (Z.to_nat (k - (len src + p))) 0).
Proof.
  intros Hp H. rewrite typed_set_zeros by lia.
  rewrite (zeros_split p (k - len src)) by lia.
  rewrite <- !app_assoc. do 5 f_equal. lia.
Qed.

Lemma new_Uint8Array_Ok (n : Z) :
  0 <= n -> new_Uint8Array n = Ok (replicate (Z.to_nat n) 0).
Proof.
  intros H. unfold new_Uint8Array.
  destruct (Z.ltb_spec n 0); [lia | reflexivity].
Qed.

(** ** Padding *)

Lemma pad1_bounds (n : Z) :
  0 <= n -> 1 <= pad n 1 <= 4 /\ (n + pad n 1) mod 4 = 0.
Proof.
  intros H. rewrite pad_spec by lia.
  Z.to_euclidean_division_equations; lia.
Qed.

Lemma pad0_bounds (n : Z) :
  0 <= n -> 0 <= pad n 0 <= 3 /\ (n + pad n 0) mod 4 = 0.
Proof.
  intros H. rewrite pad_spec by lia.
  Z.to_euclidean_division_equations; lia.
Qed.

Lemma len_string_field (content : list Z) :
  len (string_field content) = len content + pad (len content) 1.
Proof.
  unfold string_field. pose proof (pad1_bounds (len content) (len_nonneg _)).
  rewrite len_app, len_replicate by lia. reflexivity.
Qed.

Lemma string_field_mod4 (content : list Z) :
  len (string_field content) mod 4 = 0 /\
  len content + 1 <= len (string_field content).
Proof.
  rewrite len_string_field.
  pose proof (pad1_bounds (len content) (len_nonneg _)). lia.
Qed.

Lemma len_payload (use_f64 : bool) (a : OSCArg) :
  len (payload use_f64 a) mod 4 = 0.
Proof.
  destruct a as [s | x | b | bs]; unfold payload.
  - apply string_field_mod4.
  - destruct (isInt x); [| destruct use_f64]; rewrite len_be_bytes; reflexivity.
  - reflexivity.
  - pose proof (pad0_bounds (len bs) (len_nonneg _)) as [Hb Hm].
    rewrite !len_app, len_be_bytes, len_replicate by lia.
    replace (Z.of_nat 4 + (len bs + pad (len bs) 0))
      with ((len bs + pad (len bs) 0) + 1 * 4) by lia.
    rewrite Z.mod_add by lia. exact Hm.
Qed.

Lemma len_payloads (use_f64 : bool) (args : list OSCArg) :
  len (flat_map (payload use_f64) args) mod 4 = 0.
Proof.
  induction args as [| a args IH]; [reflexivity |].
  simpl flat_map. rewrite len_app.
  pose proof (len_payload use_f64 a).
  Z.to_euclidean_division_equations; lia.
Qed.

(** The packet of the data model: a positive multiple of 4, at least 8. *)
Lemma len_OSC_packet (use_f64 : bool) (addr : jsstring) (args : list OSCArg) :
  len (OSC_packet use_f64 addr args) mod 4 = 0 /\
  8 <= len (OSC_packet use_f64 addr args).
Proof.
  unfold OSC_packet. rewrite !len_app.
  pose proof (string_field_mod4 (TextEncoder_encode addr)) as [H1 H2].
  pose proof (string_field_mod4 (ASCII.COMMA :: map (type_tag use_f64) args))
    as [H3 H4].
  pose proof (len_payloads use_f64 args).
  pose proof (len_nonneg (flat_map (payload use_f64) args)).
  pose proof (len_nonneg (TextEncoder_encode addr)).
  pose proof (len_nonneg (ASCII.COMMA :: map (type_tag use_f64) args)).
  split; [Z.to_euclidean_division_equations; lia |].
  Z.to_euclidean_division_equations; lia.
Qed.

(** ** Text encoding of ASCII *)

Lemma scalar_values_ascii (s : jsstring) :
  Forall (fun c => c < 128) s -> scalar_values s = s.
Proof.
  induction 1 as [| c s Hc Hs IH]; [reflexivity |].
  cbn [scalar_values].
  unfold is_high_surrogate, is_low_surrogate.
  destruct (Z.leb_spec 0xD800 c); [lia |].
  destruct (Z.leb_spec 0xDC00 c); [lia |].
  simpl andb. cbv iota. rewrite IH. reflexivity.
Qed.

Lemma utf8_bytes_ascii (c : Z) : c < 128 -> utf8_bytes c = [c].
Proof.
  intros H. unfold utf8_bytes. destruct (Z.ltb_spec c 0x80); [reflexivity | lia].
Qed.

Lemma TextEncoder_encode_ascii (s : jsstring) :
  Forall (fun c => c < 128) s -> TextEncoder_encode s = s.
Proof.
  intros H. unfold TextEncoder_encode. rewrite scalar_values_ascii by exact H.
  induction H as [| c s Hc Hs IH]; [reflexivity |].
  simpl flat_map. rewrite utf8_bytes_ascii by exact Hc. rewrite IH. reflexivity.
Qed.

(** [encodeInto] writes an ASCII string whole when it fits. *)
Lemma TextEncoder_encodeInto_ascii (s : jsstring) (avail : Z) :
  Forall (fun c => c < 128) s -> len s <= avail ->
  TextEncoder_encodeInto s avail = s.
Proof.
  intros H. unfold TextEncoder_encodeInto.
  rewrite scalar_values_ascii by exact H.
  revert avail. induction H as [| c s Hc Hs IH]; intros avail Hlen; [reflexivity |].
  cbn [encodeInto_values]. rewrite utf8_bytes_ascii by exact Hc.
  rewrite len_cons in Hlen. pose proof (len_nonneg s).
  change (Z.of_nat (length [c])) with 1.
  destruct (Z.leb_spec 1 avail); [| lia].
  simpl app. rewrite IH by lia. reflexivity.
Qed.

Lemma ascii_text_lt (s : jsstring) :
  ascii_text s -> Forall (fun c => c < 128) s.
Proof. intros H. eapply Forall_impl; [exact H |]. intros c Hc. simpl in Hc. lia. Qed.

Lemma type_tag_ascii (use_f64 : bool) (a : OSCArg) :
  0 < type_tag use_f64 a < 128.
Proof.
  destruct a as [s | x | [|] | bs]; cbn [type_tag];
    [| destruct (isInt x); [| destruct use_f64] | | |];
    vm_compute; split; reflexivity.
Qed.

Lemma type_tags_ascii (use_f64 : bool) (args : list OSCArg) :
  ascii_text (ASCII.COMMA :: map (type_tag use_f64) args).
Proof.
  constructor; [vm_compute; split; reflexivity |].
  induction args as [| a args IH]; constructor; [apply type_tag_ascii | exact IH].
Qed.

Lemma existsb_nul_ascii (s : jsstring) :
  ascii_text s -> existsb (Z.eqb 0) s = false.
Proof.
  induction 1 as [| c s Hc Hs IH]; [reflexivity |].
  cbn [existsb]. rewrite IH. destruct (Z.eqb_spec 0 c); [lia | reflexivity].
Qed.

(** ** The reference encoder produces the packet of the data model *)

Lemma typed_set_start (src : list Z) (k : Z) :
  len src <= k ->
  typed_set (replicate (Z.to_nat k) 0) src 0 =
  Ok (src ++ replicate (Z.to_nat (k - len src)) 0).
Proof. intros H. exact (typed_set_zeros [] src k H). Qed.

Lemma typed_set_fresh (src : list Z) (n : Z) :
  len src = n -> typed_set (replicate (Z.to_nat n) 0) src 0 = Ok src.
Proof.
  intros H. rewrite typed_set_start by lia.
  replace (n - len src) with 0 by lia. simpl. rewrite app_nil_r. reflexivity.
Qed.

Lemma slow_oscString_spec (str : jsstring) :
  Slow.oscString str =
  if existsb (Z.eqb 0) (TextEncoder_encode str)
  then Throw (OSCProtocolError MsgIllegalCharacters)
  else Ok (string_field (TextEncoder_encode str)).
Proof.
  unfold Slow.oscString.
  destruct (existsb (Z.eqb 0) (TextEncoder_encode str)); [reflexivity |].
  pose proof (pad1_bounds (len (TextEncoder_encode str)) (len_nonneg _)).
  rewrite new_Uint8Array_Ok by lia.
  unfold bind, pack, string_field. simpl concat. rewrite app_nil_r. reflexivity.
Qed.

Lemma slow_oscInt_spec (x : number) :
  Slow.oscInt x = Ok (be_bytes 4 (number_ToInt32 x)).
Proof.
  unfold Slow.oscInt. rewrite new_Uint8Array_Ok by lia. unfold bind, setInt32.
  apply typed_set_fresh. apply len_be_bytes.
Qed.

Lemma slow_oscFloat_spec (x : number) :
  Slow.oscFloat x = Ok (be_bytes 4 (ieee_encode 24 8 x)).
Proof.
  unfold Slow.oscFloat. rewrite new_Uint8Array_Ok by lia. unfold bind, setFloat32.
  apply typed_set_fresh. apply len_be_bytes.
Qed.

Lemma slow_oscDouble_spec (x : number) :
  Slow.oscDouble x = Ok (be_bytes 8 (ieee_encode 53 11 x)).
Proof.
  unfold Slow.oscDouble. rewrite new_Uint8Array_Ok by lia. unfold bind, setFloat64.
  apply typed_set_fresh. apply len_be_bytes.
Qed.

Lemma slow_oscBlob_spec (blob : list Z) :
  Slow.oscBlob blob = Ok (payload false (Blob blob)).
Proof.
  unfold Slow.oscBlob, payload.
  pose proof (pad0_bounds (len blob) (len_nonneg _)) as [Hb _].
  pose proof (len_nonneg blob).
  rewrite new_Uint8Array_Ok by lia. unfold bind, setInt32.
  cbn [number_ToInt32].
  set (hd := be_bytes 4 (ToInt32 (len blob))).
  assert (Hhd : len hd = 4) by apply len_be_bytes.
  rewrite typed_set_start by lia.
  replace (4 + len blob + pad (len blob) 0 - len hd)
    with (len blob + pad (len blob) 0) by lia.
  pose proof (typed_set_field hd blob (pad (len blob) 0)
                (len blob + pad (len blob) 0) ltac:(lia) ltac:(lia)) as E.
  rewrite Hhd in E. rewrite E.
  replace (len blob + pad (len blob) 0 - (len blob + pad (len blob) 0))
    with 0 by lia.
  simpl replicate. rewrite app_nil_r. reflexivity.
Qed.

Lemma nul_in_strings_cons (a : OSCArg) (args : list OSCArg) :
  nul_in_strings (a :: args) =
  match a with
  | Str s => existsb (Z.eqb 0) (TextEncoder_encode s)
  | _ => false
  end || nul_in_strings args.
Proof. destruct a; reflexivity. Qed.

Lemma slow_argsGen_spec (use_f64 : bool) (args : list OSCArg) :
  Slow.argsGen use_f64 args =
  if nul_in_strings args
  then Throw (OSCProtocolError MsgIllegalCharacters)
  else Ok (map (fun a => (type_tag use_f64 a, payload use_f64 a)) args).
Proof.
  induction args as [| a args IH]; [reflexivity |].
  cbn [Slow.argsGen]. rewrite IH. clear IH.
  rewrite nul_in_strings_cons.
  destruct a as [s | x | [|] | blob]; cbn [map type_tag payload].
  - rewrite slow_oscString_spec.
    destruct (existsb (Z.eqb 0) (TextEncoder_encode s)); [reflexivity |].
    destruct (nul_in_strings args); reflexivity.
  - destruct (isInt x); [| destruct use_f64];
      rewrite ?slow_oscInt_spec, ?slow_oscFloat_spec, ?slow_oscDouble_spec;
      destruct (nul_in_strings args); reflexivity.
  - destruct (nul_in_strings args); reflexivity.
  - destruct (nul_in_strings args); reflexivity.
  - rewrite slow_oscBlob_spec.
    destruct (nul_in_strings args); reflexivity.
Qed.

(** What [encodeOSCSlow] does, case by case. *)
Lemma encodeOSCSlow_spec (addr : jsstring) (args : list OSCArg)
    (opt : option OSCSlowEncoderOptions) :
  encodeOSCSlow addr args opt =
  if charAt0_is_not_slash addr then Throw (OSCProtocolError MsgAddrNoSlash)
  else if nul_in_strings args || existsb (Z.eqb 0) (TextEncoder_encode addr)
  then Throw (OSCProtocolError MsgIllegalCharacters)
  else Ok (Uint8Array_of (OSC_packet (get_slow_f64 opt) addr args)).
Proof.
  unfold encodeOSCSlow.
  destruct (charAt0_is_not_slash addr); [reflexivity |].
  rewrite slow_argsGen_spec.
  destruct (nul_in_strings args); [reflexivity |].
  unfold bind at 1. simpl orb.
  rewrite !slow_oscString_spec.
  destruct (existsb (Z.eqb 0) (TextEncoder_encode addr)); [reflexivity |].
  unfold bind at 1.
  rewrite map_map. cbn [fst].
  pose proof (type_tags_ascii (get_slow_f64 opt) args) as Hascii.
  rewrite TextEncoder_encode_ascii by (apply ascii_text_lt; exact Hascii).
  rewrite existsb_nul_ascii by exact Hascii.
  unfold bind, pack, OSC_packet. cbn [concat].
  rewrite map_map. cbn [snd].
  rewrite flat_map_concat_map. reflexivity.
Qed.

(** ** The sizing passes *)

Lemma encodeOSC_sizing_spec (use_f64 : bool) (args : list OSCArg) :
  forall packet_size : Z,
    encodeOSC_sizing use_f64 args packet_size =
    (map (type_tag use_f64) args,
     packet_size + sum_sizes (arg_size use_f64) args).
Proof.
  induction args as [| a args IH]; intros sz.
  - cbn [encodeOSC_sizing map sum_sizes fold_right]. f_equal. lia.
  - cbn [encodeOSC_sizing map sum_sizes fold_right].
    fold (sum_sizes (arg_size use_f64) args).
    destruct a as [s | x | [|] | bs]; cbn [type_tag arg_size];
      [| destruct (isInt x); [| destruct use_f64] | | |];
      rewrite IH; f_equal; lia.
Qed.

Lemma encodeOSC_UTF8_sizing_spec (use_f64 : bool) (args : list OSCArg) :
  forall packet_size : Z,
    encodeOSC_UTF8_sizing use_f64 args packet_size =
    (map (type_tag use_f64) args,
     map TextEncoder_encode (strings_of args),
     packet_size + sum_sizes (arg_size_UTF8 use_f64) args).
Proof.
  induction args as [| a args IH]; intros sz.
  - cbn [encodeOSC_UTF8_sizing map sum_sizes fold_right strings_of flat_map].
    do 2 f_equal. lia.
  - cbn [encodeOSC_UTF8_sizing map sum_sizes fold_right].
    fold (sum_sizes (arg_size_UTF8 use_f64) args).
    destruct a as [s | x | [|] | bs]; cbn [type_tag arg_size_UTF8 arg_size];
      [| destruct (isInt x); [| destruct use_f64] | | |];
      rewrite IH; cbn [strings_of flat_map app map];
      fold (strings_of args); f_equal; lia.
Qed.

(** ** Sizes below 2^31 *)

Lemma len_payload_le (use_f64 : bool) (a : OSCArg) :
  len (payload use_f64 a) <= len (payload true a).
Proof.
  destruct a as [s | x | b | bs]; cbn [payload]; try lia.
  destruct (isInt x); [lia |]. destruct use_f64; rewrite !len_be_bytes; lia.
Qed.

Lemma len_payloads_le (use_f64 : bool) (args : list OSCArg) :
  len (flat_map (payload use_f64) args) <= len (flat_map (payload true) args).
Proof.
  induction args as [| a args IH]; [reflexivity |].
  cbn [flat_map]. rewrite !len_app. pose proof (len_payload_le use_f64 a). lia.
Qed.

Lemma len_OSC_packet_le (use_f64 : bool) (addr : jsstring) (args : list OSCArg) :
  len (OSC_packet use_f64 addr args) <= len (OSC_packet true addr args).
Proof.
  unfold OSC_packet. rewrite !len_app, !len_string_field, !len_cons, !len_map.
  pose proof (len_payloads_le use_f64 args). lia.
Qed.

Lemma small_arg_of_payload (use_f64 : bool) (a : OSCArg) :
  len (payload use_f64 a) < 2 ^ 31 -> small_arg a.
Proof.
  intros H. pose proof (len_payload use_f64 a) as Hm.
  assert (Hle : len (payload use_f64 a) <= 2 ^ 31 - 4)
    by (Z.to_euclidean_division_equations; lia).
  clear H Hm. unfold small_arg.
  destruct a as [s | x | b | bs]; cbn [payload as_string as_Uint8Array] in *.
  - rewrite len_string_field in Hle.
    pose proof (pad1_bounds (len (TextEncoder_encode s)) (len_nonneg _)).
    change (len []) with 0. lia.
  - change (len []) with 0. change (TextEncoder_encode []) with (@nil Z).
    change (len []) with 0. lia.
  - change (len []) with 0. change (TextEncoder_encode []) with (@nil Z).
    change (len []) with 0. lia.
  - pose proof (pad0_bounds (len bs) (len_nonneg _)) as [Hb _].
    rewrite !len_app, len_be_bytes, len_replicate in Hle by lia.
    change (TextEncoder_encode []) with (@nil Z). change (len []) with 0. lia.
Qed.

Lemma small_args_of_payloads (use_f64 : bool) (args : list OSCArg) :
  len (flat_map (payload use_f64) args) < 2 ^ 31 -> Forall small_arg args.
Proof.
  induction args as [| a args IH]; intros H; constructor.
  - apply (small_arg_of_payload use_f64). cbn [flat_map] in H.
    rewrite len_app in H.
    pose proof (len_nonneg (flat_map (payload use_f64) args)). lia.
  - apply IH. cbn [flat_map] in H. rewrite len_app in H.
    pose proof (len_nonneg (payload use_f64 a)). lia.
Qed.

(** A packet that is short with 64-bit numbers is short with 32-bit
    numbers. *)
Lemma fits_int32_short (use_f64 : bool) (addr : jsstring) (args : list OSCArg) :
  fits_int32 addr args -> short_packet use_f64 addr args.
Proof.
  unfold fits_int32, short_packet.
  pose proof (len_OSC_packet_le use_f64 addr args). lia.
Qed.

(** What [short_packet] gives: the three parts of the packet, and every
    argument, are small. *)
Lemma short_packet_parts (use_f64 : bool) (addr : jsstring) (args : list OSCArg) :
  short_packet use_f64 addr args ->
  len (TextEncoder_encode addr) + 1 <= len (string_field (TextEncoder_encode addr)) /\
  len args + 2 <= len (string_field (ASCII.COMMA :: map (type_tag use_f64) args)) /\
  len (string_field (TextEncoder_encode addr)) +
  len (string_field (ASCII.COMMA :: map (type_tag use_f64) args)) +
  len (flat_map (payload use_f64) args) <= 2 ^ 31 - 4 /\
  Forall small_arg args.
Proof.
  intros H. unfold short_packet in H.
  pose proof (len_OSC_packet use_f64 addr args) as [Hm _].
  pose proof (string_field_mod4 (TextEncoder_encode addr)) as [_ H1].
  pose proof (string_field_mod4 (ASCII.COMMA :: map (type_tag use_f64) args))
    as [_ H2].
  pose proof (len_nonneg (TextEncoder_encode addr)).
  pose proof (len_nonneg args).
  pose proof (len_nonneg (flat_map (payload use_f64) args)).
  pose proof (pad1_bounds (len (TextEncoder_encode addr)) ltac:(lia)).
  pose proof (pad1_bounds (1 + len args) ltac:(lia)).
  unfold OSC_packet in H, Hm.
  rewrite !len_app in H, Hm.
  rewrite !len_string_field, !len_cons, !len_map in *.
  split; [lia |]. split; [lia |]. split.
  - Z.to_euclidean_division_equations; lia.
  - apply (small_args_of_payloads use_f64). lia.
Qed.

(** The sizes that the passes compute are the lengths of the payloads. *)
Lemma arg_size_UTF8_spec (use_f64 : bool) (a : OSCArg) :
  small_arg a -> arg_size_UTF8 use_f64 a = len (payload use_f64 a).
Proof.
  intros [Hs Hb]. destruct a as [s | x | b | bs];
    cbn [arg_size_UTF8 arg_size payload as_string as_Uint8Array] in *.
  - rewrite len_string_field. rewrite pad1_align4; [reflexivity |].
    pose proof (len_nonneg (TextEncoder_encode s)). lia.
  - destruct (isInt x); [| destruct use_f64]; rewrite len_be_bytes; reflexivity.
  - reflexivity.
  - pose proof (pad0_bounds (len bs) (len_nonneg _)) as [Hp _].
    rewrite !len_app, len_be_bytes, len_replicate by lia.
    pose proof (len_nonneg bs).
    rewrite <- pad0_align4 by lia. lia.
Qed.

Lemma arg_size_spec (use_f64 : bool) (a : OSCArg) :
  small_arg a -> ascii_arg a -> arg_size use_f64 a = len (payload use_f64 a).
Proof.
  intros Hs Ha. rewrite <- arg_size_UTF8_spec by exact Hs.
  destruct a as [s | x | b | bs]; try reflexivity.
  cbn [arg_size arg_size_UTF8 ascii_arg] in *.
  rewrite TextEncoder_encode_ascii by (apply ascii_text_lt; exact Ha).
  reflexivity.
Qed.

Lemma sum_sizes_UTF8_spec (use_f64 : bool) (args : list OSCArg) :
  Forall small_arg args ->
  sum_sizes (arg_size_UTF8 use_f64) args = len (flat_map (payload use_f64) args).
Proof.
  induction 1 as [| a args Ha Hargs IH]; [reflexivity |].
  cbn [sum_sizes fold_right flat_map]. fold (sum_sizes (arg_size_UTF8 use_f64) args).
  rewrite len_app, IH, arg_size_UTF8_spec by exact Ha. reflexivity.
Qed.

Lemma sum_sizes_spec (use_f64 : bool) (args : list OSCArg) :
  Forall small_arg args -> Forall ascii_arg args ->
  sum_sizes (arg_size use_f64) args = len (flat_map (payload use_f64) args).
Proof.
  induction 1 as [| a args Ha Hargs IH]; intros Hascii; [reflexivity |].
  inversion Hascii as [| ? ? Ha' Hascii']; subst.
  cbn [sum_sizes fold_right flat_map]. fold (sum_sizes (arg_size use_f64) args).
  rewrite len_app, IH, arg_size_spec by assumption. reflexivity.
Qed.

(** ** The writing passes

    The buffer is what has been written, [pre], followed by zeros; the
    cursor is at the end of [pre].  Writing an argument appends its
    payload to [pre]: the padding is the zeros that are already there. *)

Lemma encodeOSC_case_number (use_f64 : bool) (x : number) (pre : list Z) (k : Z) :
  len (payload use_f64 (Num x)) <= k ->
  encodeOSC_case (type_tag use_f64 (Num x)) (Num x)
    (pre ++ replicate (Z.to_nat k) 0) (len pre) =
  Ok ((pre ++ payload use_f64 (Num x)) ++
        replicate (Z.to_nat (k - len (payload use_f64 (Num x)))) 0,
      len pre + len (payload use_f64 (Num x))).
Proof.
  cbn [type_tag payload as_number].
  destruct (isInt x); [| destruct use_f64]; intros Hk.
  - change (encodeOSC_case ASCII.i (Num x) ?p ?o)
      with (bind (setInt32 p o x) (fun packet => Ok (packet, o + 4))).
    unfold setInt32. rewrite typed_set_zeros by exact Hk.
    rewrite len_be_bytes, app_assoc. reflexivity.
  - change (encodeOSC_case ASCII.d (Num x) ?p ?o)
      with (bind (setFloat64 p o x) (fun packet => Ok (packet, o + 8))).
    unfold setFloat64. rewrite typed_set_zeros by exact Hk.
    rewrite len_be_bytes, app_assoc. reflexivity.
  - change (encodeOSC_case ASCII.f (Num x) ?p ?o)
      with (bind (setFloat32 p o x) (fun packet => Ok (packet, o + 4))).
    unfold setFloat32. rewrite typed_set_zeros by exact Hk.
    rewrite len_be_bytes, app_assoc. reflexivity.
Qed.

Lemma encodeOSC_case_boolean (use_f64 : bool) (b : bool) (pre : list Z) (k : Z) :
  encodeOSC_case (type_tag use_f64 (Bool b)) (Bool b)
    (pre ++ replicate (Z.to_nat k) 0) (len pre) =
  Ok ((pre ++ payload use_f64 (Bool b)) ++
        replicate (Z.to_nat (k - len (payload use_f64 (Bool b)))) 0,
      len pre + len (payload use_f64 (Bool b))).
Proof.
  cbn [payload]. change (len []) with 0.
  rewrite app_nil_r, Z.sub_0_r, Z.add_0_r.
  destruct b; reflexivity.
Qed.

Lemma encodeOSC_case_blob (use_f64 : bool) (bs : list Z) (pre : list Z) (k : Z) :
  small_arg (Blob bs) -> len (payload use_f64 (Blob bs)) <= k ->
  encodeOSC_case (type_tag use_f64 (Blob bs)) (Blob bs)
    (pre ++ replicate (Z.to_nat k) 0) (len pre) =
  Ok ((pre ++ payload use_f64 (Blob bs)) ++
        replicate (Z.to_nat (k - len (payload use_f64 (Blob bs)))) 0,
      len pre + len (payload use_f64 (Blob bs))).
Proof.
  intros [_ Hs] Hk. cbn [as_Uint8Array] in Hs.
  cbn [type_tag payload] in *.
  pose proof (pad0_bounds (len bs) (len_nonneg _)) as [Hp _].
  pose proof (len_nonneg bs).
  rewrite !len_app, len_be_bytes, len_replicate in * by lia.
  change (encodeOSC_case ASCII.b (Blob bs) ?p ?o)
    with (bind (setInt32 p o (Int (len bs)))
            (fun packet => bind (typed_set packet bs (o + 4))
               (fun packet => Ok (packet, o + 4 + align4 (len bs))))).
  unfold setInt32. cbn [number_ToInt32].
  set (hd := be_bytes 4 (ToInt32 (len bs))).
  assert (Hhd : len hd = 4) by apply len_be_bytes.
  rewrite typed_set_zeros by lia. unfold bind at 1.
  rewrite app_assoc. replace (len pre + 4) with (len (pre ++ hd))
    by (rewrite len_app; lia).
  rewrite (typed_set_field (pre ++ hd) bs (pad (len bs) 0)) by lia.
  unfold bind. rewrite <- pad0_align4 by lia.
  rewrite len_app, Hhd. f_equal. f_equal.
  - rewrite <- !app_assoc. do 5 f_equal. lia.
  - change (Z.of_nat 4) with 4. lia.
Qed.

(** A string, as [encodeOSC] writes it: ASCII text only. *)
Lemma encodeOSC_case_string (use_f64 : bool) (s : jsstring) (pre : list Z) (k : Z) :
  ascii_text s -> small_arg (Str s) -> len (payload use_f64 (Str s)) <= k ->
  encodeOSC_case (type_tag use_f64 (Str s)) (Str s)
    (pre ++ replicate (Z.to_nat k) 0) (len pre) =
  Ok ((pre ++ payload use_f64 (Str s)) ++
        replicate (Z.to_nat (k - len (payload use_f64 (Str s)))) 0,
      len pre + len (payload use_f64 (Str s))).
Proof.
  intros Ha [Hs _] Hk. cbn [as_string type_tag payload] in *.
  pose proof (ascii_text_lt s Ha) as Hlt.
  rewrite TextEncoder_encode_ascii in * by exact Hlt.
  pose proof (pad1_bounds (len s) (len_nonneg _)) as [Hp _].
  pose proof (len_nonneg s). pose proof (len_nonneg pre).
  rewrite len_string_field in *.
  change (encodeOSC_case ASCII.s (Str s) ?p ?o)
    with (if (o <? 0) || (len p <? o) then Throw RangeError
          else Ok (splice p (Z.to_nat o) (TextEncoder_encodeInto s (len p - o)),
                   o + align4 (len (TextEncoder_encodeInto s (len p - o)) + 1))).
  rewrite len_app, len_replicate by lia.
  destruct (Z.ltb_spec (len pre) 0); [lia |].
  destruct (Z.ltb_spec (len pre + k) (len pre)); [lia |].
  cbn [orb].
  rewrite TextEncoder_encodeInto_ascii by (try exact Hlt; lia).
  rewrite to_nat_len, splice_zeros by lia.
  rewrite <- pad1_align4 by lia.
  f_equal. f_equal.
  rewrite (zeros_split (pad (len s) 1) (k - len s)) by lia.
  unfold string_field. rewrite <- !app_assoc. do 5 f_equal. lia.
Qed.

(** A string, as [encodeOSC_UTF8] writes it. *)
Lemma encodeOSC_UTF8_case_string (use_f64 : bool) (s : jsstring)
    (q : list (list Z)) (pre : list Z) (k : Z) :
  small_arg (Str s) -> len (payload use_f64 (Str s)) <= k ->
  encodeOSC_UTF8_case (type_tag use_f64 (Str s)) (Str s)
    (TextEncoder_encode s :: q) (pre ++ replicate (Z.to_nat k) 0) (len pre) =
  Ok ((pre ++ payload use_f64 (Str s)) ++
        replicate (Z.to_nat (k - len (payload use_f64 (Str s)))) 0,
      len pre + len (payload use_f64 (Str s)), q).
Proof.
  intros [Hs _] Hk. cbn [as_string type_tag payload] in *.
  set (enc := TextEncoder_encode s) in *.
  pose proof (pad1_bounds (len enc) (len_nonneg _)) as [Hp _].
  pose proof (len_nonneg enc).
  rewrite len_string_field in *.
  change (encodeOSC_UTF8_case ASCII.s (Str s) (enc :: q) ?p ?o)
    with (bind (typed_set p enc o)
            (fun packet => Ok (packet, o + align4 (len enc + 1), q))).
  rewrite (typed_set_field pre enc (pad (len enc) 1)) by lia.
  unfold bind. rewrite <- pad1_align4 by lia. reflexivity.
Qed.

Lemma encodeOSC_UTF8_case_other (use_f64 : bool) (a : OSCArg)
    (q : list (list Z)) (packet : list Z) (offset : Z) :
  match a with Str _ => False | _ => True end ->
  encodeOSC_UTF8_case (type_tag use_f64 a) a q packet offset =
  bind (encodeOSC_case (type_tag use_f64 a) a packet offset)
    (fun '(packet, offset) => Ok (packet, offset, q)).
Proof.
  intros H. destruct a as [s | x | [|] | bs]; [contradiction | | | |];
    cbn [type_tag]; [destruct (isInt x); [| destruct use_f64] | | |];
    reflexivity.
Qed.

(** The payload of an argument that is not a string, as both encoders
    write it. *)
Lemma encodeOSC_case_other (use_f64 : bool) (a : OSCArg) (pre : list Z) (k : Z) :
  match a with Str _ => False | _ => True end ->
  small_arg a -> len (payload use_f64 a) <= k ->
  encodeOSC_case (type_tag use_f64 a) a
    (pre ++ replicate (Z.to_nat k) 0) (len pre) =
  Ok ((pre ++ payload use_f64 a) ++
        replicate (Z.to_nat (k - len (payload use_f64 a))) 0,
      len pre + len (payload use_f64 a)).
Proof.
  intros Hns Hs Hk. destruct a as [s | x | b | bs]; [contradiction | | |].
  - apply encodeOSC_case_number; exact Hk.
  - apply encodeOSC_case_boolean.
  - apply encodeOSC_case_blob; assumption.
Qed.

Lemma encodeOSC_case_spec (use_f64 : bool) (a : OSCArg) (pre : list Z) (k : Z) :
  small_arg a -> ascii_arg a -> len (payload use_f64 a) <= k ->
  encodeOSC_case (type_tag use_f64 a) a
    (pre ++ replicate (Z.to_nat k) 0) (len pre) =
  Ok ((pre ++ payload use_f64 a) ++
        replicate (Z.to_nat (k - len (payload use_f64 a))) 0,
      len pre + len (payload use_f64 a)).
Proof.
  intros Hs Ha Hk. destruct a as [s | x | b | bs].
  - apply encodeOSC_case_string; assumption.
  - apply encodeOSC_case_other; [exact I | assumption ..].
  - apply encodeOSC_case_other; [exact I | assumption ..].
  - apply encodeOSC_case_other; [exact I | assumption ..].
Qed.

Lemma encodeOSC_write_spec (use_f64 : bool) (args : list OSCArg) :
  forall (pre : list Z) (k : Z),
    Forall small_arg args -> Forall ascii_arg args ->
    len (flat_map (payload use_f64) args) <= k ->
    encodeOSC_write (map (type_tag use_f64) args) args
      (pre ++ replicate (Z.to_nat k) 0) (len pre) =
    Ok ((pre ++ flat_map (payload use_f64) args) ++
          replicate (Z.to_nat (k - len (flat_map (payload use_f64) args))) 0,
        len pre + len (flat_map (payload use_f64) args)).
Proof.
  induction args as [| a args IH]; intros pre k Hs Ha Hk.
  - cbn [map encodeOSC_write flat_map]. change (len []) with 0.
    rewrite app_nil_r, Z.sub_0_r, Z.add_0_r. reflexivity.
  - inversion Hs as [| ? ? Hs1 Hs2]; subst.
    inversion Ha as [| ? ? Ha1 Ha2]; subst.
    cbn [flat_map] in *. rewrite len_app in *.
    pose proof (len_nonneg (payload use_f64 a)).
    pose proof (len_nonneg (flat_map (payload use_f64) args)).
    cbn [map encodeOSC_write].
    rewrite encodeOSC_case_spec by (try assumption; lia).
    unfold bind at 1. cbv beta iota.
    rewrite <- len_app. rewrite IH by (try assumption; lia).
    rewrite len_app. f_equal. f_equal; [| lia].
    rewrite <- !app_assoc. do 4 f_equal. lia.
Qed.

Lemma encodeOSC_UTF8_case_spec (use_f64 : bool) (a : OSCArg)
    (q : list (list Z)) (pre : list Z) (k : Z) :
  small_arg a -> len (payload use_f64 a) <= k ->
  encodeOSC_UTF8_case (type_tag use_f64 a) a
    (map TextEncoder_encode (strings_of [a]) ++ q)
    (pre ++ replicate (Z.to_nat k) 0) (len pre) =
  Ok ((pre ++ payload use_f64 a) ++
        replicate (Z.to_nat (k - len (payload use_f64 a))) 0,
      len pre + len (payload use_f64 a), q).
Proof.
  intros Hs Hk. destruct a as [s | x | b | bs].
  - apply encodeOSC_UTF8_case_string; assumption.
  - rewrite encodeOSC_UTF8_case_other by exact I.
    rewrite encodeOSC_case_other by (try exact I; assumption). reflexivity.
  - rewrite encodeOSC_UTF8_case_other by exact I.
    rewrite encodeOSC_case_other by (try exact I; assumption). reflexivity.
  - rewrite encodeOSC_UTF8_case_other by exact I.
    rewrite encodeOSC_case_other by (try exact I; assumption). reflexivity.
Qed.

Lemma strings_of_cons (a : OSCArg) (args : list OSCArg) :
  strings_of (a :: args) = strings_of [a] ++ strings_of args.
Proof. unfold strings_of. cbn [flat_map]. rewrite app_nil_r. reflexivity. Qed.

Lemma encodeOSC_UTF8_write_spec (use_f64 : bool) (args : list OSCArg) :
  forall (pre : list Z) (k : Z),
    Forall small_arg args ->
    len (flat_map (payload use_f64) args) <= k ->
    encodeOSC_UTF8_write (map (type_tag use_f64) args) args
      (map TextEncoder_encode (strings_of args))
      (pre ++ replicate (Z.to_nat k) 0) (len pre) =
    Ok ((pre ++ flat_map (payload use_f64) args) ++
          replicate (Z.to_nat (k - len (flat_map (payload use_f64) args))) 0,
        len pre + len (flat_map (payload use_f64) args)).
Proof.
  induction args as [| a args IH]; intros pre k Hs Hk.
  - cbn [map encodeOSC_UTF8_write flat_map]. change (len []) with 0.
    rewrite app_nil_r, Z.sub_0_r, Z.add_0_r. reflexivity.
  - inversion Hs as [| ? ? Hs1 Hs2]; subst.
    cbn [flat_map] in *. rewrite len_app in *.
    pose proof (len_nonneg (payload use_f64 a)).
    pose proof (len_nonneg (flat_map (payload use_f64) args)).
    rewrite strings_of_cons, map_app.
    cbn [map encodeOSC_UTF8_write].
    rewrite encodeOSC_UTF8_case_spec by (try assumption; lia).
    unfold bind at 1. cbv beta iota.
    rewrite <- len_app. rewrite IH by (try assumption; lia).
    rewrite len_app. f_equal. f_equal; [| lia].
    rewrite <- !app_assoc. do 4 f_equal. lia.
Qed.

(** ** The optimized encoders produce the packet of the data model *)

Lemma align4_add (a x : Z) :
  a mod 4 = 0 -> 0 <= a -> 0 <= x -> a + x <= 2 ^ 31 - 4 ->
  align4 (a + x) = a + align4 x.
Proof.
  intros Hm Ha Hx Hle. rewrite !align4_small by lia.
  Z.to_euclidean_division_equations; lia.
Qed.

Lemma store_zeros (pre : list Z) (k v : Z) :
  1 <= k ->
  store (pre ++ replicate (Z.to_nat k) 0) (len pre) v =
  (pre ++ [v]) ++ replicate (Z.to_nat (k - 1)) 0.
Proof.
  intros Hk. unfold store. pose proof (len_nonneg pre).
  destruct (Z.ltb_spec (len pre) 0); [lia |].
  rewrite to_nat_len. rewrite insert_app_r_alt by lia.
  rewrite Nat.sub_diag.
  replace (Z.to_nat k) with (S (Z.to_nat (k - 1))) by lia.
  cbn [replicate]. cbn [insert list_insert]. rewrite <- app_assoc. reflexivity.
Qed.

(** The two leading fields, as both optimized encoders leave them in a
    zeroed buffer of [K] bytes: the address, then the comma and the tags. *)
Lemma header_written (addr_enc tags : list Z) (K : Z) :
  len (string_field addr_enc) + len (string_field (ASCII.COMMA :: tags)) <= K ->
  typed_set
    (store (string_field addr_enc ++
              replicate (Z.to_nat (K - len (string_field addr_enc))) 0)
           (len (string_field addr_enc)) ASCII.COMMA)
    tags (len (string_field addr_enc) + 1) =
  Ok ((string_field addr_enc ++ string_field (ASCII.COMMA :: tags)) ++
      replicate (Z.to_nat (K - len (string_field addr_enc) -
                           len (string_field (ASCII.COMMA :: tags)))) 0).
Proof.
  intros HK.
  pose proof (len_string_field (ASCII.COMMA :: tags)) as Ht.
  rewrite len_cons in Ht.
  pose proof (len_nonneg tags).
  pose proof (pad1_bounds (1 + len tags) ltac:(lia)) as [Hp _].
  set (A := len (string_field addr_enc)) in *.
  rewrite store_zeros by lia.
  replace (A + 1) with (len (string_field addr_enc ++ [ASCII.COMMA]))
    by (rewrite len_app; reflexivity).
  rewrite (typed_set_field _ tags (pad (1 + len tags) 1)) by lia.
  f_equal. unfold string_field at 3. rewrite len_cons.
  rewrite <- !app_assoc. cbn [app]. do 5 f_equal. lia.
Qed.

Lemma new_view_whole (packet : list Z) (offset : Z) :
  offset = len packet -> new_view packet 0 offset = Ok (Uint8Array_of packet).
Proof.
  intros ->. unfold new_view. pose proof (len_nonneg packet).
  destruct (Z.ltb_spec (len packet) 0); [lia |].
  destruct (Z.ltb_spec (len packet) (0 + len packet)); [lia |].
  reflexivity.
Qed.

Lemma elements_Uint8Array_of (l : list Z) : elements (Uint8Array_of l) = l.
Proof.
  unfold elements, Uint8Array_of. cbn [buffer byteOffset byteLength].
  rewrite to_nat_len. change (Z.to_nat 0) with 0%nat. cbn [drop].
  apply firstn_all.
Qed.

(** [encodeOSC_UTF8] returns the packet of the data model, whatever the
    text. *)
Lemma encodeOSC_UTF8_spec (addr : jsstring) (args : list OSCArg)
    (options : option OSCEncoderOptions) :
  short_packet (get_f64 options) addr args ->
  encodeOSC_UTF8 addr args options =
  Ok (Uint8Array_of (OSC_packet (get_f64 options) addr args)).
Proof.
  intros Hfit. unfold encodeOSC_UTF8, OSC_packet.
  set (use_f64 := get_f64 options).
  destruct (short_packet_parts use_f64 addr args Hfit) as (HA & HT & Htot & Hsmall).
  set (E := TextEncoder_encode addr) in *.
  set (tags := map (type_tag use_f64) args) in *.
  set (P := flat_map (payload use_f64) args) in *.
  pose proof (len_nonneg E). pose proof (len_nonneg args).
  pose proof (len_nonneg P).
  pose proof (string_field_mod4 E) as [HAm _].
  pose proof (len_string_field E) as HAe.
  pose proof (len_string_field (ASCII.COMMA :: tags)) as HTe.
  rewrite len_cons in HTe. unfold tags in HTe at 2 3. rewrite len_map in HTe.
  fold tags in HTe.
  assert (Hstart : align4 (len E + 1) = len (string_field E))
    by (rewrite HAe; symmetry; apply pad1_align4; lia).
  rewrite Hstart.
  assert (Hend : align4 (len (string_field E) + len args + 2) =
                 len (string_field E) + len (string_field (ASCII.COMMA :: tags))).
  { rewrite <- Z.add_assoc. rewrite align4_add by lia.
    rewrite HTe. f_equal. symmetry.
    replace (len args + 2) with ((1 + len args) + 1) by lia.
    apply pad1_align4. lia. }
  rewrite Hend.
  rewrite encodeOSC_UTF8_sizing_spec.
  rewrite sum_sizes_UTF8_spec by exact Hsmall.
  fold tags. fold P.
  set (A := len (string_field E)) in *.
  set (T := len (string_field (ASCII.COMMA :: tags))) in *.
  rewrite new_Uint8Array_Ok by lia. unfold bind at 1.
  pose proof (pad1_bounds (len E) ltac:(lia)) as [HpE _].
  pose proof (typed_set_field [] E (pad (len E) 1) (A + T + len P)
                ltac:(lia) ltac:(lia)) as Haddr.
  cbn [app] in Haddr. change (len []) with 0 in Haddr.
  rewrite Haddr. clear Haddr. unfold bind at 1.
  fold (string_field E). rewrite <- HAe. fold A.
  rewrite header_written by (fold A; fold T; lia).
  unfold bind at 1. fold A. fold T.
  replace (A + T + len P - A - T) with (len P) by lia.
  replace (A + T) with (len (string_field E ++ string_field (ASCII.COMMA :: tags)))
    by (rewrite len_app; reflexivity).
  subst A T tags P.
  rewrite encodeOSC_UTF8_write_spec by (try exact Hsmall; lia).
  unfold bind.
  rewrite Z.sub_diag. cbn [Z.to_nat replicate]. rewrite app_nil_r.
  rewrite Z.eqb_refl. cbn [negb].
  rewrite <- app_assoc. apply new_view_whole.
  rewrite !len_app. lia.
Qed.

(** [encodeOSC] returns the packet of the data model for ASCII text; with
    [oversize] the packet is a view on a longer buffer. *)
Lemma encodeOSC_spec (addr : jsstring) (args : list OSCArg)
    (options : option OSCEncoderOptions) :
  short_packet (get_f64 options) addr args -> ascii_text addr -> Forall ascii_arg args ->
  0 <= get_oversize options ->
  encodeOSC addr args options =
  Ok {| buffer := OSC_packet (get_f64 options) addr args ++
                  replicate (Z.to_nat (get_oversize options)) 0;
        byteOffset := 0;
        byteLength := len (OSC_packet (get_f64 options) addr args) |}.
Proof.
  intros Hfit Haddr Hargs Hov. unfold encodeOSC, OSC_packet.
  set (use_f64 := get_f64 options). set (ov := get_oversize options) in *.
  destruct (short_packet_parts use_f64 addr args Hfit) as (HA & HT & Htot & Hsmall).
  pose proof (ascii_text_lt addr Haddr) as Hlt.
  rewrite TextEncoder_encode_ascii in * by exact Hlt.
  pose proof (len_nonneg addr). pose proof (len_nonneg args).
  pose proof (len_nonneg (flat_map (payload use_f64) args)).
  pose proof (string_field_mod4 addr) as [HAm _].
  pose proof (len_string_field addr) as HAe.
  pose proof (len_string_field (ASCII.COMMA :: map (type_tag use_f64) args)) as HTe.
  rewrite len_cons, len_map in HTe.
  pose proof (pad1_bounds (len addr) ltac:(lia)) as [HpE _].
  assert (Hstart : align4 (len addr + 1) = len (string_field addr))
    by (rewrite HAe; symmetry; apply pad1_align4; lia).
  assert (Htt : align4 (len args + 2) =
                len (string_field (ASCII.COMMA :: map (type_tag use_f64) args))).
  { rewrite HTe. symmetry.
    replace (len args + 2) with ((1 + len args) + 1) by lia.
    apply pad1_align4. lia. }
  rewrite encodeOSC_sizing_spec. cbv beta iota.
  rewrite sum_sizes_spec by assumption.
  rewrite Hstart, Htt, len_map.
  rewrite new_Uint8Array_Ok by lia. unfold bind at 1.
  rewrite len_replicate by lia.
  rewrite TextEncoder_encodeInto_ascii by (try exact Hlt; lia).
  rewrite Hstart.
  change 0%nat with (length (@nil Z)).
  rewrite <- (app_nil_l (replicate _ 0)) at 1.
  rewrite splice_zeros by lia. cbn [app].
  set (A := len (string_field addr)) in *.
  set (T := len (string_field (ASCII.COMMA :: map (type_tag use_f64) args))) in *.
  set (L := len (flat_map (payload use_f64) args)) in *.
  rewrite (zeros_split (pad (len addr) 1) (A + T + L + ov - len addr)) by lia.
  rewrite app_assoc. fold (string_field addr).
  replace (A + T + L + ov - len addr - pad (len addr) 1)
    with (A + T + (L + ov) - A) by lia.
  subst A T. rewrite header_written by lia. unfold bind at 1.
  replace (align4 (len (string_field addr) + len args + 2))
    with (len (string_field addr) + align4 (len args + 2))
    by (rewrite <- align4_add by lia; f_equal; lia).
  rewrite Htt.
  match goal with
  | |- context [replicate (Z.to_nat (?a + ?t + ?l - ?a - ?t)) 0] =>
      replace (a + t + l - a - t) with l by lia
  end.
  rewrite <- len_app. subst L.
  rewrite encodeOSC_write_spec by (try assumption; lia).
  unfold bind.
  match goal with
  | |- context [replicate (Z.to_nat (?l + ov - ?l)) 0] =>
      replace (l + ov - l) with ov by lia
  end.
  rewrite !len_app, len_replicate by lia.
  match goal with
  | |- context [?a <? ?b] => destruct (Z.ltb_spec a b); [lia |]
  end.
  unfold new_view.
  rewrite !len_app, len_replicate by lia.
  match goal with
  | |- context [(0 <? 0) || (?n <? 0) || (?a <? ?b)] =>
      destruct (Z.ltb_spec n 0); [lia |];
      destruct (Z.ltb_spec a b); [lia |]
  end.
  cbn [orb Z.ltb Z.compare]. rewrite <- !app_assoc.
  f_equal. f_equal. lia.
Qed.

Lemma elements_prefix (l rest : list Z) :
  elements {| buffer := l ++ rest; byteOffset := 0; byteLength := len l |} = l.
Proof.
  unfold elements. cbn [buffer byteOffset byteLength].
  rewrite to_nat_len. change (Z.to_nat 0) with 0%nat. cbn [drop].
  apply take_app_length.
Qed.

(** ** Text without NUL is encoded without NUL *)

(** Induction on strings that follows [scalar_values]: a step consumes
    one code unit or two. *)
Lemma jsstring_pair_ind (P : jsstring -> Prop) :
  P [] -> (forall c, P [c]) ->
  (forall c c' s, P s -> P (c' :: s) -> P (c :: c' :: s)) ->
  forall s, P s.
Proof.
  intros Hnil Hone Hstep s.
  assert (H : P s /\ forall c, P (c :: s)).
  { induction s as [| c' s [IH1 IH2]].
    - split; [exact Hnil | exact Hone].
    - split; [apply IH2 |]. intros c. apply Hstep; [exact IH1 | apply IH2]. }
  exact (proj1 H).
Qed.

Lemma scalar_values_no_nul (s : jsstring) :
  no_nul s -> Forall (fun cp => cp <> 0) (scalar_values s).
Proof.
  unfold no_nul. induction s as [| c | c c' s IH1 IH2] using jsstring_pair_ind;
    intros H.
  - constructor.
  - inversion H as [| ? ? Hc _]; subst. cbn [scalar_values].
    destruct (is_high_surrogate c); [repeat constructor; lia |].
    destruct (is_low_surrogate c); repeat constructor; [lia | exact Hc].
  - inversion H as [| ? ? Hc H']; subst.
    specialize (IH2 H').
    inversion H' as [| ? ? Hc' H'']; subst. specialize (IH1 H'').
    change (scalar_values (c :: c' :: s))
      with (if is_high_surrogate c then
              if is_low_surrogate c'
              then (0x10000 + (c - 0xD800) * 0x400 + (c' - 0xDC00)) :: scalar_values s
              else 0xFFFD :: scalar_values (c' :: s)
            else if is_low_surrogate c then 0xFFFD :: scalar_values (c' :: s)
            else c :: scalar_values (c' :: s)).
    unfold is_high_surrogate at 1.
    destruct (Z.leb_spec 0xD800 c); cbn [andb].
    + destruct (Z.leb_spec c 0xDBFF).
      * unfold is_low_surrogate.
        destruct (Z.leb_spec 0xDC00 c'); cbn [andb];
          [destruct (Z.leb_spec c' 0xDFFF) |]; constructor;
          try assumption; lia.
      * destruct (is_low_surrogate c); constructor; try assumption; lia.
    + destruct (is_low_surrogate c); constructor; try assumption; lia.
Qed.

Lemma utf8_bytes_no_nul (cp : Z) :
  cp <> 0 -> Forall (fun b => b <> 0) (utf8_bytes cp).
Proof.
  intros H. unfold utf8_bytes.
  destruct (Z.ltb_spec cp 0x80); [repeat constructor; exact H |].
  destruct (Z.ltb_spec cp 0x800);
    [| destruct (Z.ltb_spec cp 0x10000)];
    repeat constructor; Z.to_euclidean_division_equations; lia.
Qed.

Lemma TextEncoder_encode_no_nul (s : jsstring) :
  no_nul s -> existsb (Z.eqb 0) (TextEncoder_encode s) = false.
Proof.
  intros H. apply scalar_values_no_nul in H. unfold TextEncoder_encode.
  induction H as [| cp cps Hcp Hcps IH]; [reflexivity |].
  cbn [flat_map]. rewrite existsb_app, IH, orb_false_r.
  pose proof (utf8_bytes_no_nul cp Hcp) as Hb.
  induction Hb as [| b bs Hb Hbs IHb]; [reflexivity |].
  cbn [existsb]. rewrite IHb. destruct (Z.eqb_spec 0 b); [lia | reflexivity].
Qed.

Lemma nul_in_strings_false (args : list OSCArg) :
  Forall no_nul (strings_of args) -> nul_in_strings args = false.
Proof.
  unfold nul_in_strings. induction 1 as [| s l Hs Hl IH]; [reflexivity |].
  cbn [existsb]. rewrite IH, TextEncoder_encode_no_nul by exact Hs. reflexivity.
Qed.

Lemma ascii_text_no_nul (s : jsstring) : ascii_text s -> no_nul s.
Proof.
  intros H. eapply Forall_impl; [exact H |]. intros c Hc. simpl in Hc. lia.
Qed.

Lemma ascii_args_no_nul (args : list OSCArg) :
  Forall ascii_arg args -> Forall no_nul (strings_of args).
Proof.
  induction 1 as [| a args Ha Hargs IH]; [constructor |].
  rewrite strings_of_cons. apply Forall_app. split; [| exact IH].
  destruct a as [s | x | b | bs]; cbn [strings_of flat_map app];
    [| constructor ..].
  constructor; [| constructor]. apply ascii_text_no_nul. exact Ha.
Qed.

(** A valid pair is encoded by the reference encoder. *)
Lemma encodeOSCSlow_valid (addr : jsstring) (args : list OSCArg)
    (opt : option OSCSlowEncoderOptions) :
  starts_with_slash addr -> no_nul addr -> Forall no_nul (strings_of args) ->
  encodeOSCSlow addr args opt =
  Ok (Uint8Array_of (OSC_packet (get_slow_f64 opt) addr args)).
Proof.
  intros [rest ->] Haddr Hargs. rewrite encodeOSCSlow_spec.
  cbn [charAt0_is_not_slash]. rewrite Z.eqb_refl. cbn [negb].
  rewrite nul_in_strings_false by exact Hargs.
  rewrite TextEncoder_encode_no_nul by exact Haddr. reflexivity.
Qed.

(** ** Equivalence of the encoders *)

(** C2, as stated, fails: ["/a"] with the argument ["éé"] is a valid pair;
    [encodeOSCSlow] encodes it and [encodeOSC], which sizes a string by
    its code units, throws the capacity error. *)
Lemma encoders_differ_on_multibyte_text :
  ~ (forall (addr : jsstring) (args : list OSCArg),
       starts_with_slash addr -> no_nul addr -> Forall no_nul (strings_of args) ->
       packet_bytes (encodeOSC addr args None) =
       packet_bytes (encodeOSCSlow addr args None)).
Proof.
  intros H.
  specialize (H (js "/a") [Str [0xE9; 0xE9]]).
  vm_compute in H.
  assert (E : @Throw (list Z) (OSCProtocolError MsgMoreBytesWritten) =
              Ok [47; 97; 0; 0; 44; 115; 0; 0; 195; 169; 195; 169; 0; 0; 0; 0]).
  { apply H.
    - exists [97]. reflexivity.
    - repeat constructor; lia.
    - repeat constructor; lia. }
  discriminate E.
Qed.

(** C2 (amended): for every valid pair (the address starts with ['/'],
    no NUL in the address or in a string argument) whose packet is shorter
    than 2^31 bytes, and under either setting of [f64] (the same for the
    encoders that are compared), [encodeOSC_UTF8] returns byte for byte
    what [encodeOSCSlow] returns; so does [encodeOSC] when the address and
    the string arguments are ASCII text and [oversize] is not negative. *)
Theorem encoders_agree (addr : jsstring) (args : list OSCArg)
    (options : option OSCEncoderOptions) (opt : option OSCSlowEncoderOptions) :
  starts_with_slash addr -> no_nul addr -> Forall no_nul (strings_of args) ->
  short_packet (get_f64 options) addr args -> get_slow_f64 opt = get_f64 options ->
  packet_bytes (encodeOSC_UTF8 addr args options) =
    packet_bytes (encodeOSCSlow addr args opt) /\
  (ascii_text addr /\ Forall ascii_arg args /\ 0 <= get_oversize options ->
   packet_bytes (encodeOSC addr args options) =
     packet_bytes (encodeOSCSlow addr args opt)) /\
  packet_bytes (encodeOSCSlow addr args opt) =
    Ok (OSC_packet (get_f64 options) addr args).
Proof.
  intros Hslash Haddr Hargs Hfit Hf64.
  rewrite encodeOSCSlow_valid by assumption. rewrite Hf64.
  rewrite encodeOSC_UTF8_spec by assumption.
  split; [reflexivity |]. split.
  - intros (Ha & Has & Hov). rewrite encodeOSC_spec by assumption.
    unfold packet_bytes, bind.
    rewrite elements_prefix, elements_Uint8Array_of. reflexivity.
  - unfold packet_bytes, bind. rewrite elements_Uint8Array_of. reflexivity.
Qed.

Lemma encoders_agree_witness :
  packet_bytes (encodeOSC_UTF8 sample_addr sample_args
                  (Some {| oversize := None; f64 := Some true |})) =
    packet_bytes (encodeOSCSlow sample_addr sample_args
                    (Some {| slow_f64 := Some true |})) /\
  packet_bytes (encodeOSC sample_addr sample_args
                  (Some {| oversize := None; f64 := Some true |})) =
    packet_bytes (encodeOSCSlow sample_addr sample_args
                    (Some {| slow_f64 := Some true |})).
Proof.
  assert (Hslash : starts_with_slash sample_addr) by (eexists; reflexivity).
  assert (Hascii : ascii_text sample_addr) by (repeat constructor; lia).
  assert (Hargs : Forall ascii_arg sample_args)
    by (repeat constructor; cbn; repeat constructor; lia).
  assert (Hfit : short_packet true sample_addr sample_args)
    by (vm_compute; reflexivity).
  destruct (encoders_agree sample_addr sample_args
              (Some {| oversize := None; f64 := Some true |})
              (Some {| slow_f64 := Some true |}) Hslash
              (ascii_text_no_nul sample_addr Hascii)
              (ascii_args_no_nul sample_args Hargs) Hfit eq_refl)
    as (Hutf8 & Hfast & _).
  split; [exact Hutf8 |]. apply Hfast.
  split; [exact Hascii |]. split; [exact Hargs |]. vm_compute. congruence.
Defined.

(** ** The length of an encoded packet *)

Lemma len_encodeInto (s : jsstring) (avail : Z) :
  len (TextEncoder_encodeInto s avail) <= len (TextEncoder_encode s).
Proof.
  unfold TextEncoder_encodeInto, TextEncoder_encode.
  revert avail. induction (scalar_values s) as [| cp cps IH]; intros avail.
  - reflexivity.
  - cbn [encodeInto_values flat_map]. rewrite len_app.
    destruct (Z.leb_spec (Z.of_nat (length (utf8_bytes cp))) avail).
    + rewrite len_app. specialize (IH (avail - Z.of_nat (length (utf8_bytes cp)))).
      lia.
    + change (len []) with 0.
      pose proof (len_nonneg (utf8_bytes cp)).
      pose proof (len_nonneg (flat_map utf8_bytes cps)). lia.
Qed.

Lemma bind_Ok {A B : Type} (r : result A) (k : A -> result B) (b : B) :
  bind r k = Ok b -> exists a, r = Ok a /\ k a = Ok b.
Proof. destruct r as [a | e]; [eauto | discriminate]. Qed.

(** A turn of the writing pass moves the cursor forward by a multiple
    of 4. *)
Lemma encodeOSC_case_offset (t : Z) (a : OSCArg) (packet packet' : list Z)
    (offset offset' : Z) :
  small_arg a ->
  encodeOSC_case t a packet offset = Ok (packet', offset') ->
  (offset' - offset) mod 4 = 0 /\ offset <= offset'.
Proof.
  intros [Hs Hb] H. unfold encodeOSC_case in H.
  destruct (t =? ASCII.s).
  { destruct ((offset <? 0) || (len packet <? offset)); [discriminate |].
    injection H as _ <-.
    set (w := TextEncoder_encodeInto (as_string a) (len packet - offset)).
    pose proof (len_encodeInto (as_string a) (len packet - offset)).
    pose proof (len_nonneg w). fold w in H.
    pose proof (align4_mod4 (len w + 1)).
    pose proof (align4_bounds (len w + 1) ltac:(lia)).
    replace (offset + align4 (len w + 1) - offset) with (align4 (len w + 1)) by lia.
    lia. }
  destruct (t =? ASCII.i).
  { apply bind_Ok in H as (p & _ & H). injection H as _ <-.
    replace (offset + 4 - offset) with 4 by lia. split; [reflexivity | lia]. }
  destruct (t =? ASCII.f).
  { apply bind_Ok in H as (p & _ & H). injection H as _ <-.
    replace (offset + 4 - offset) with 4 by lia. split; [reflexivity | lia]. }
  destruct (t =? ASCII.d).
  { apply bind_Ok in H as (p & _ & H). injection H as _ <-.
    replace (offset + 8 - offset) with 8 by lia. split; [reflexivity | lia]. }
  destruct (t =? ASCII.b).
  { apply bind_Ok in H as (p & _ & H). apply bind_Ok in H as (p' & _ & H).
    injection H as _ <-.
    pose proof (len_nonneg (as_Uint8Array a)).
    pose proof (align4_mod4 (len (as_Uint8Array a))).
    pose proof (align4_bounds (len (as_Uint8Array a)) ltac:(lia)).
    replace (offset + 4 + align4 (len (as_Uint8Array a)) - offset)
      with (align4 (len (as_Uint8Array a)) + 1 * 4) by lia.
    rewrite Z.mod_add by lia. lia. }
  injection H as _ <-. rewrite Z.sub_diag. split; [reflexivity | lia].
Qed.

Lemma encodeOSC_write_offset (tags : list Z) :
  forall (args : list OSCArg) (packet packet' : list Z) (offset offset' : Z),
    Forall small_arg args ->
    encodeOSC_write tags args packet offset = Ok (packet', offset') ->
    (offset' - offset) mod 4 = 0 /\ offset <= offset'.
Proof.
  induction tags as [| t tags IH]; intros args packet packet' offset offset' Hs H.
  - cbn [encodeOSC_write] in H. injection H as _ <-.
    rewrite Z.sub_diag. split; [reflexivity | lia].
  - destruct args as [| a args].
    + cbn [encodeOSC_write] in H. injection H as _ <-.
      rewrite Z.sub_diag. split; [reflexivity | lia].
    + cbn [encodeOSC_write] in H. inversion Hs as [| ? ? Ha Hargs]; subst.
      apply bind_Ok in H as ([p1 o1] & H1 & H2).
      apply (encodeOSC_case_offset _ _ _ _ _ _ Ha) in H1.
      apply (IH _ _ _ _ _ Hargs) in H2.
      split; [| lia].
      replace (offset' - offset) with ((offset' - o1) + (o1 - offset)) by lia.
      Z.to_euclidean_division_equations; lia.
Qed.

(** A view returned by [new_view] has its [byteLength] elements. *)
Lemma new_view_elements (buf : list Z) (n : Z) (p : Uint8Array) :
  new_view buf 0 n = Ok p -> byteLength p = n /\ len (elements p) = n.
Proof.
  unfold new_view. intros H.
  destruct (Z.ltb_spec n 0); [rewrite orb_true_r in H; discriminate |].
  destruct (Z.ltb_spec (len buf) (0 + n)); [rewrite orb_true_r in H; discriminate |].
  cbn in H. injection H as <-. split; [reflexivity |].
  unfold elements. cbn [buffer byteOffset byteLength].
  change (Z.to_nat 0) with 0%nat. rewrite drop_0.
  unfold len in *. rewrite length_take. lia.
Qed.

(** [encodeOSC], whatever the text: a packet that is returned has a
    length that is a multiple of 4 and at least 8. *)
Lemma encodeOSC_length (addr : jsstring) (args : list OSCArg)
    (options : option OSCEncoderOptions) (p : Uint8Array) :
  short_packet (get_f64 options) addr args ->
  encodeOSC addr args options = Ok p ->
  byteLength p mod 4 = 0 /\ 8 <= byteLength p /\ len (elements p) = byteLength p.
Proof.
  intros Hfit H. unfold encodeOSC in H.
  destruct (short_packet_parts (get_f64 options) addr args Hfit)
    as (HA & HT & Htot & Hsmall).
  rewrite encodeOSC_sizing_spec in H. cbv beta iota in H.
  apply bind_Ok in H as (packet & _ & H).
  apply bind_Ok in H as (packet1 & _ & H).
  apply bind_Ok in H as ([packet2 offset] & Hw & H).
  rewrite len_map in Hw.
  apply (encodeOSC_write_offset _ _ _ _ _ _ Hsmall) in Hw.
  destruct (len packet2 <? offset); [discriminate |].
  apply new_view_elements in H as [-> ->].
  set (w := TextEncoder_encodeInto addr (len packet)) in *.
  pose proof (len_encodeInto addr (len packet)). fold w in H.
  pose proof (len_nonneg w). pose proof (len_nonneg args).
  pose proof (len_nonneg (flat_map (payload (get_f64 options)) args)).
  pose proof (len_string_field (ASCII.COMMA :: map (type_tag (get_f64 options)) args))
    as HTe.
  rewrite len_cons, len_map in HTe.
  pose proof (len_string_field (TextEncoder_encode addr)) as HAe.
  pose proof (pad1_bounds (len (TextEncoder_encode addr)) (len_nonneg _)).
  pose proof (pad1_bounds (1 + len args) ltac:(lia)).
  pose proof (align4_mod4 (len w + 1)).
  pose proof (align4_bounds (len w + 1) ltac:(lia)).
  assert (align4 (len w + 1) <= len (string_field (TextEncoder_encode addr))).
  { pose proof (string_field_mod4 (TextEncoder_encode addr)) as [Hm _].
    Z.to_euclidean_division_equations; lia. }
  pose proof (align4_mod4 (align4 (len w + 1) + len args + 2)).
  pose proof (align4_bounds (align4 (len w + 1) + len args + 2) ltac:(lia)).
  split; [| split; [| reflexivity]].
  - Z.to_euclidean_division_equations; lia.
  - Z.to_euclidean_division_equations; lia.
Qed.

(** ** Beyond 2^31 bytes *)

Lemma len_splice (a src : list Z) (off : nat) :
  (off + length src <= length a)%nat -> len (splice a off src) = len a.
Proof.
  intros H. unfold splice, len.
  rewrite !length_app, length_take, length_drop. lia.
Qed.

Lemma len_store (a : list Z) (i v : Z) : len (store a i v) = len a.
Proof.
  unfold store, len. destruct (i <? 0); [reflexivity |].
  rewrite length_insert. reflexivity.
Qed.





(** ** Reading fields back *)

Lemma be_value_from (bs : list Z) :
  forall acc : Z,
    fold_left (fun acc b => acc * 256 + b) bs acc =
    acc * 256 ^ len bs + be_value bs.
Proof.
  unfold be_value. induction bs as [| b bs IH]; intros acc.
  - cbn [fold_left]. change (len []) with 0. lia.
  - cbn [fold_left]. rewrite IH. rewrite (IH (0 * 256 + b)).
    rewrite len_cons. pose proof (len_nonneg bs).
    rewrite Z.pow_add_r by lia. lia.
Qed.

Lemma be_value_be_bytes (n : nat) (v : Z) :
  be_value (be_bytes n v) = v mod 256 ^ Z.of_nat n.
Proof.
  induction n as [| n IH].
  - cbn. rewrite Z.mod_1_r. reflexivity.
  - cbn [be_bytes]. unfold be_value. cbn [fold_left].
    rewrite be_value_from, IH, len_be_bytes.
    replace (Z.of_nat (S n)) with (Z.of_nat n + 1) by lia.
    rewrite Z.pow_add_r by lia. change (256 ^ 1) with 256.
    rewrite Z.rem_mul_r by lia. lia.
Qed.

Lemma ToInt32_mod (x : Z) : ToInt32 (x mod 2 ^ 32) = ToInt32 x.
Proof.
  unfold ToInt32. rewrite Z.add_mod_idemp_l by lia. reflexivity.
Qed.

Lemma index_from_app (x : Z) (l r : list Z) :
  forall k : Z,
    Forall (fun y => y <> x) l ->
    index_from x (l ++ x :: r) k = k + len l.
Proof.
  induction l as [| y l IH]; intros k H.
  - cbn [app index_from]. rewrite Z.eqb_refl. change (len []) with 0. lia.
  - inversion H as [| ? ? Hy Hl]; subst.
    cbn [app index_from]. destruct (Z.eqb_spec y x); [contradiction |].
    rewrite IH by exact Hl. rewrite len_cons. lia.
Qed.

(** The search for the terminator of a field that starts at the cursor. *)
Lemma indexOf_field (pre s r : list Z) :
  Forall (fun y => y <> 0) s ->
  indexOf (pre ++ s ++ 0 :: r) ASCII.NULL (len pre) = len pre + len s.
Proof.
  intros H. unfold indexOf. pose proof (len_nonneg pre).
  destruct (Z.ltb_spec (len pre) 0); [lia |].
  rewrite to_nat_len, drop_app_length.
  apply index_from_app. exact H.
Qed.

Lemma take_drop_middle (pre m post : list Z) :
  take (length m) (drop (length pre) (pre ++ m ++ post)) = m.
Proof. rewrite drop_app_length. apply take_app_length. Qed.

Lemma dv_get_middle (pre m post : list Z) (n : nat) :
  length m = n -> dv_get (pre ++ m ++ post) (len pre) n = Ok m.
Proof.
  intros <-. unfold dv_get. pose proof (len_nonneg pre). pose proof (len_nonneg post).
  rewrite !len_app. fold (len m).
  destruct (Z.ltb_spec (len pre) 0); [lia |].
  destruct (Z.ltb_spec (len pre + (len m + len post)) (len pre + len m)); [lia |].
  cbn [orb]. rewrite to_nat_len, take_drop_middle. reflexivity.
Qed.

Lemma slice_middle (pre m post : list Z) :
  slice (pre ++ m ++ post) (len pre) (len pre + len m) = m.
Proof.
  unfold slice, clamp_index.
  pose proof (len_nonneg pre). pose proof (len_nonneg m).
  pose proof (len_nonneg post).
  rewrite !len_app.
  destruct (Z.ltb_spec (len pre) 0); [lia |].
  destruct (Z.ltb_spec (len pre + len m) 0); [lia |].
  rewrite !Z.min_l by lia.
  replace (len pre + len m - len pre) with (len m) by lia.
  rewrite !to_nat_len. apply take_drop_middle.
Qed.

Lemma get_middle (pre post : list Z) (x : Z) :
  get (pre ++ x :: post) (len pre) = Some x.
Proof.
  unfold get. pose proof (len_nonneg pre).
  destruct (Z.ltb_spec (len pre) 0); [lia |].
  rewrite to_nat_len. apply list_lookup_middle. reflexivity.
Qed.

(** ** Text decoding of ASCII *)

Lemma utf8_decode_ascii (s : list Z) :
  Forall (fun c => c < 128) s -> utf8_decode utf8_idle s = s.
Proof.
  induction 1 as [| c s Hc Hs IH]; [reflexivity |].
  cbn [utf8_decode utf8_idle]. change (0 =? 0) with true. cbv iota.
  unfold utf8_lead. destruct (Z.leb_spec c 0x7F); [| lia].
  fold utf8_idle. cbn [app]. rewrite IH. reflexivity.
Qed.

Lemma strip_bom_ascii (s : list Z) :
  Forall (fun c => c < 128) s -> strip_bom s = s.
Proof.
  intros H. destruct H as [| c s Hc Hs]; [reflexivity |].
  unfold strip_bom. destruct s as [| c2 [| c3 s]]; try reflexivity.
  destruct (Z.eqb_spec c 0xEF); [lia | reflexivity].
Qed.

Lemma TextDecoder_decode_ascii (s : list Z) :
  Forall (fun c => c < 128) s -> TextDecoder_decode s = s.
Proof.
  intros H. unfold TextDecoder_decode.
  rewrite strip_bom_ascii, utf8_decode_ascii by exact H.
  induction H as [| c s Hc Hs IH]; [reflexivity |].
  cbn [flat_map]. rewrite IH. unfold utf16_units.
  destruct (Z.ltb_spec c 0x10000); [reflexivity | lia].
Qed.

(** ** Numbers on the wire *)

Lemma shr_rne_nonneg (m sh : Z) : 0 <= m -> 0 <= shr_rne m sh.
Proof.
  intros H. unfold shr_rne.
  pose proof (proj2 (Z.shiftr_nonneg m sh) H).
  destruct (_ || _); lia.
Qed.

Lemma ieee_magnitude_range (m x : Z) :
  0 <= m -> 0 <= ieee_magnitude 24 8 m x <= 2139095040.
Proof.
  intros H. unfold ieee_magnitude.
  change (Z.shiftl (2 ^ 8 - 1) (24 - 1)) with 2139095040.
  set (E := Z.log2 m + x). set (emin := 2 - 2 ^ (8 - 1)).
  set (q := Z.max E emin - (24 - 1)).
  assert (0 <= Z.shiftl (Z.max (E - emin) 0) (24 - 1))
    by (apply Z.shiftl_nonneg; lia).
  assert (0 <= (if q <=? x then Z.shiftl m (x - q) else shr_rne m (q - x))).
  { destruct (q <=? x); [apply Z.shiftl_nonneg; exact H |].
    apply shr_rne_nonneg; exact H. }
  lia.
Qed.

Lemma ieee_sign_cases (neg : bool) :
  ieee_sign 24 8 neg = 0 \/ ieee_sign 24 8 neg = 2147483648.
Proof. destruct neg; [right | left]; reflexivity. Qed.

(** The binary32 bits of a number are 32 bits. *)
Lemma ieee_encode_range (x : number) : 0 <= ieee_encode 24 8 x < 2 ^ 32.
Proof.
  destruct x as [z | | neg | | neg k e].
  - destruct z as [| p | p]; [vm_compute; split; [discriminate | reflexivity] | |];
      unfold ieee_encode;
      match goal with
      | |- context [ieee_sign 24 8 ?b + ieee_magnitude 24 8 ?m ?x] =>
          pose proof (ieee_sign_cases b);
          pose proof (ieee_magnitude_range m x ltac:(lia))
      end; lia.
  - vm_compute; split; [discriminate | reflexivity].
  - destruct neg; vm_compute; split; (discriminate || reflexivity).
  - vm_compute; split; [discriminate | reflexivity].
  - unfold ieee_encode.
    pose proof (ieee_sign_cases neg).
    pose proof (ieee_magnitude_range (2 * Z.of_N k + 1) (- Z.pos e) ltac:(lia)).
    lia.
Qed.

Lemma getFloat32_setFloat32 (x : number) (pre post : list Z) :
  getFloat32 (pre ++ be_bytes 4 (ieee_encode 24 8 x) ++ post) (len pre) =
  Ok (fround x).
Proof.
  unfold getFloat32.
  rewrite dv_get_middle by apply length_be_bytes. unfold bind. rewrite be_value_be_bytes.
  pose proof (ieee_encode_range x).
  change (256 ^ Z.of_nat 4) with (2 ^ 32).
  rewrite Z.mod_small by lia. reflexivity.
Qed.

Lemma getInt32_setInt32 (v : Z) (pre post : list Z) :
  getInt32 (pre ++ be_bytes 4 v ++ post) (len pre) = Ok (ToInt32 v).
Proof.
  unfold getInt32.
  rewrite dv_get_middle by apply length_be_bytes. unfold bind. rewrite be_value_be_bytes.
  change (256 ^ Z.of_nat 4) with (2 ^ 32).
  rewrite ToInt32_mod. reflexivity.
Qed.

(** ** [decodeOSC] on the packet of the data model *)

Lemma decodeOSC_case_s (data : Uint8Array) (offset : Z) :
  decodeOSC_case data (Some ASCII.s) offset =
  bind (new_view (buffer data) (byteOffset data + offset)
          (indexOf (elements data) ASCII.NULL offset - offset))
    (fun v => Ok (Some (Str (TextDecoder_decode (elements v))),
                  align4 (indexOf (elements data) ASCII.NULL offset + 1))).
Proof. reflexivity. Qed.

Lemma decodeOSC_case_i (data : Uint8Array) (offset : Z) :
  decodeOSC_case data (Some ASCII.i) offset =
  bind (getInt32 (elements data) offset)
    (fun x => Ok (Some (Num (Int x)), offset + 4)).
Proof. reflexivity. Qed.

Lemma decodeOSC_case_f (data : Uint8Array) (offset : Z) :
  decodeOSC_case data (Some ASCII.f) offset =
  bind (getFloat32 (elements data) offset)
    (fun x => Ok (Some (Num x), offset + 4)).
Proof. reflexivity. Qed.

Lemma decodeOSC_case_b (data : Uint8Array) (offset : Z) :
  decodeOSC_case data (Some ASCII.b) offset =
  bind (getInt32 (elements data) offset)
    (fun n => Ok (Some (Blob (slice (elements data) (offset + 4) (offset + 4 + n))),
                  offset + 4 + align4 n)).
Proof. reflexivity. Qed.

Lemma string_field_terminated (s : list Z) :
  exists r, string_field s = s ++ 0 :: r.
Proof.
  unfold string_field.
  pose proof (pad1_bounds (len s) (len_nonneg _)) as [Hp _].
  replace (Z.to_nat (pad (len s) 1)) with (S (Z.to_nat (pad (len s) 1 - 1))) by lia.
  cbn [replicate]. eauto.
Qed.

(** One turn of the loop of [decodeOSC], at the payload of an argument. *)
Lemma decodeOSC_case_payload (a : OSCArg) (pre post : list Z) :
  roundtrip_arg a -> small_arg a ->
  len pre mod 4 = 0 -> len pre + len (payload false a) <= 2 ^ 31 - 4 ->
  decodeOSC_case (Uint8Array_of (pre ++ payload false a ++ post))
    (Some (type_tag false a)) (len pre) =
  Ok (Some a, len pre + len (payload false a)).
Proof.
  intros Hrt [Hs Hb] Hmod Hle. pose proof (len_nonneg pre) as Hpre.
  destruct a as [s | x | b | bs];
    cbn [type_tag payload roundtrip_arg as_string as_Uint8Array] in *.
  - (* string *)
    pose proof (ascii_text_lt s Hrt) as Hlt.
    rewrite TextEncoder_encode_ascii in * by exact Hlt.
    rewrite decodeOSC_case_s, elements_Uint8Array_of.
    cbn [Uint8Array_of buffer byteOffset].
    pose proof (len_nonneg s). pose proof (len_nonneg post).
    pose proof (pad1_bounds (len s) ltac:(lia)) as [Hp _].
    rewrite len_string_field in *.
    destruct (string_field_terminated s) as [r Hr]. rewrite Hr.
    rewrite <- app_assoc. rewrite <- app_comm_cons.
    rewrite indexOf_field by (apply ascii_text_no_nul; exact Hrt).
    replace (len pre + len s - len pre) with (len s) by lia.
    unfold new_view. pose proof (len_nonneg (r ++ post)).
    rewrite !len_app, len_cons.
    destruct (Z.ltb_spec (0 + len pre) 0); [lia |].
    destruct (Z.ltb_spec (len s) 0); [lia |].
    destruct (Z.ltb_spec (len pre + (len s + (1 + len (r ++ post))))
                (0 + len pre + len s)); [lia |].
    cbn [orb]. unfold bind, elements. cbn [buffer byteOffset byteLength].
    replace (Z.to_nat (0 + len pre)) with (length pre) by (unfold len; lia).
    rewrite to_nat_len, take_drop_middle.
    rewrite TextDecoder_decode_ascii by exact Hlt.
    rewrite <- Z.add_assoc, align4_add by lia.
    rewrite <- pad1_align4 by lia. reflexivity.
  - (* number *)
    destruct x as [z | | neg | | neg k e]; cbn [roundtrip_number isInt] in *;
      try contradiction.
    + rewrite decodeOSC_case_i, elements_Uint8Array_of.
      cbn [number_ToInt32]. rewrite getInt32_setInt32. unfold bind.
      rewrite !ToInt32_id by (try rewrite ToInt32_id; lia).
      rewrite len_be_bytes. reflexivity.
    + rewrite decodeOSC_case_f, elements_Uint8Array_of.
      rewrite getFloat32_setFloat32. unfold bind.
      rewrite Hrt, len_be_bytes. reflexivity.
    + rewrite decodeOSC_case_f, elements_Uint8Array_of.
      rewrite getFloat32_setFloat32. unfold bind.
      rewrite Hrt, len_be_bytes. reflexivity.
  - (* boolean *)
    change (len []) with 0. rewrite Z.add_0_r. destruct b; reflexivity.
  - (* blob *)
    pose proof (len_nonneg bs).
    pose proof (pad0_bounds (len bs) ltac:(lia)) as [Hp _].
    rewrite !len_app, len_be_bytes, len_replicate in * by lia.
    rewrite decodeOSC_case_b, elements_Uint8Array_of.
    rewrite <- !app_assoc.
    rewrite getInt32_setInt32. unfold bind.
    rewrite !ToInt32_id by (try rewrite ToInt32_id; lia).
    set (hd := be_bytes 4 (len bs)).
    assert (Hhd : len hd = 4) by apply len_be_bytes.
    rewrite (app_assoc pre hd).
    replace (len pre + 4) with (len (pre ++ hd)) by (rewrite len_app; lia).
    rewrite slice_middle.
    rewrite len_app, Hhd. rewrite <- pad0_align4 by lia.
    f_equal. f_equal. change (Z.of_nat 4) with 4. lia.
Qed.

Lemma get_app_r (pre l : list Z) (i : nat) :
  get (pre ++ l) (len pre + Z.of_nat i) = l !! i.
Proof.
  unfold get. pose proof (len_nonneg pre).
  destruct (Z.ltb_spec (len pre + Z.of_nat i) 0); [lia |].
  replace (Z.to_nat (len pre + Z.of_nat i)) with (length pre + i)%nat
    by (unfold len; lia).
  rewrite lookup_app_r by lia. f_equal. lia.
Qed.

Lemma lookup_map_Some {A B : Type} (f : A -> B) (l : list A) (i : nat) (a : A) :
  l !! i = Some a -> map f l !! i = Some (f a).
Proof.
  revert i. induction l as [| x l IH]; intros [| i] H; try discriminate.
  - injection H as ->. reflexivity.
  - cbn. apply IH. exact H.
Qed.

(** The loop of [decodeOSC], when [W] holds the payloads of [rest] from
    the cursor on and their tags from [tbase + len done] on. *)
Lemma decodeOSC_loop_payloads (W : list Z) (tbase : Z) (rest : list OSCArg) :
  forall (done : list OSCArg) (pre : list Z),
    W = pre ++ flat_map (payload false) rest ->
    (forall (i : nat) (a : OSCArg),
       rest !! i = Some a ->
       get W (tbase + len done + Z.of_nat i) = Some (type_tag false a)) ->
    Forall roundtrip_arg rest -> Forall small_arg rest ->
    len pre mod 4 = 0 -> len W <= 2 ^ 31 - 4 ->
    decodeOSC_loop (Uint8Array_of W) (length rest) (length done)
      (tbase + len done) (len pre)
      (map Some done ++ replicate (length rest) None) =
    Ok (map Some (done ++ rest)).
Proof.
  induction rest as [| a rest IH]; intros done pre HW Htags Hrt Hsmall Hmod Hlen.
  - cbn [length decodeOSC_loop replicate]. rewrite !app_nil_r. reflexivity.
  - pose proof (Forall_inv Hrt) as Hrt1. pose proof (Forall_inv_tail Hrt) as Hrt2.
    pose proof (Forall_inv Hsmall) as Hs1.
    pose proof (Forall_inv_tail Hsmall) as Hs2.
    cbn [length decodeOSC_loop]. rewrite elements_Uint8Array_of.
    pose proof (Htags 0%nat a eq_refl) as Htag. rewrite Z.add_0_r in Htag.
    rewrite Htag.
    cbn [flat_map] in HW.
    pose proof (len_nonneg pre). pose proof (len_nonneg (payload false a)).
    pose proof (len_nonneg (flat_map (payload false) rest)).
    assert (Hle : len pre + len (payload false a) <= 2 ^ 31 - 4).
    { rewrite HW, !len_app in Hlen. lia. }
    rewrite HW at 1.
    rewrite decodeOSC_case_payload by assumption.
    unfold bind at 1. cbv beta iota.
    rewrite insert_app_r_alt by (rewrite length_map; lia).
    rewrite length_map, Nat.sub_diag. cbn [replicate insert list_insert].
    specialize (IH (done ++ [a]) (pre ++ payload false a)).
    rewrite !len_app in IH. rewrite map_app, length_app in IH.
    cbn [length map len] in IH.
    replace (length done + 1)%nat with (S (length done)) in IH by lia.
    replace (tbase + (len done + len [a])) with (tbase + len done + 1) in IH
      by (rewrite len_cons; change (len []) with 0; lia).
    rewrite <- !app_assoc in IH. cbn [app] in IH.
    rewrite IH; [reflexivity | | | assumption | assumption | | assumption].
    + rewrite HW. reflexivity.
    + intros i b Hb.
      specialize (Htags (S i) b Hb).
      rewrite <- Htags. f_equal. lia.
    + pose proof (len_payload false a). Z.to_euclidean_division_equations; lia.
Qed.

Lemma roundtrip_ascii_args (args : list OSCArg) :
  Forall roundtrip_arg args -> Forall ascii_arg args.
Proof.
  intros H. eapply Forall_impl; [exact H |].
  intros [s | x | b | bs] Ha; cbn in *; auto.
Qed.

Lemma type_tags_no_nul (args : list OSCArg) :
  Forall (fun y => y <> 0) (ASCII.COMMA :: map (type_tag false) args).
Proof. apply (ascii_text_no_nul _ (type_tags_ascii false args)). Qed.

(** [decodeOSC] gives back what the packet of the data model encodes. *)
Lemma decodeOSC_OSC_packet (addr : jsstring) (args : list OSCArg) :
  ascii_text addr -> Forall roundtrip_arg args -> short_packet false addr args ->
  decodeOSC (Uint8Array_of (OSC_packet false addr args)) =
  Ok (addr, dense args).
Proof.
  intros Haddr Hargs Hfit.
  destruct (short_packet_parts false addr args Hfit) as (HA & HT & Htot & Hsmall).
  pose proof (len_OSC_packet false addr args) as [HWm HW8].
  pose proof (ascii_text_lt addr Haddr) as Hlt.
  unfold OSC_packet in *.
  rewrite TextEncoder_encode_ascii in * by exact Hlt.
  set (tags := map (type_tag false) args) in *.
  set (P := flat_map (payload false) args) in *.
  set (W := string_field addr ++ string_field (ASCII.COMMA :: tags) ++ P) in *.
  pose proof (len_nonneg addr). pose proof (len_nonneg args). pose proof (len_nonneg P).
  pose proof (string_field_mod4 addr) as [HAm _].
  pose proof (string_field_mod4 (ASCII.COMMA :: tags)) as [HTm _].
  pose proof (len_string_field addr) as HAe.
  pose proof (len_string_field (ASCII.COMMA :: tags)) as HTe.
  rewrite len_cons in HTe. unfold tags in HTe at 2 3. rewrite len_map in HTe.
  pose proof (pad1_bounds (len addr) ltac:(lia)) as [HpA _].
  pose proof (pad1_bounds (1 + len args) ltac:(lia)) as [HpT _].
  assert (HlenW : len W = len (string_field addr) +
                          len (string_field (ASCII.COMMA :: tags)) + len P)
    by (unfold W; rewrite !len_app; lia).
  unfold decodeOSC. rewrite elements_Uint8Array_of.
  cbn [Uint8Array_of buffer byteOffset byteLength].
  rewrite Z.rem_mod_nonneg by lia. rewrite HWm. cbn [Z.eqb negb].
  destruct (Z.ltb_spec (len W) 8); [lia |].
  (* the address *)
  destruct (string_field_terminated addr) as [rA HrA].
  assert (Hend : indexOf W ASCII.NULL 0 = len addr).
  { pose proof (indexOf_field [] addr (rA ++ string_field (ASCII.COMMA :: tags) ++ P)
                  (ascii_text_no_nul addr Haddr)) as E.
    cbn [app] in E. change (len []) with 0 in E. rewrite Z.add_0_l in E.
    rewrite <- E. unfold W. rewrite HrA. rewrite <- app_assoc. reflexivity. }
  rewrite Hend.
  assert (Hview : new_view W 0 (len addr) =
                  Ok {| buffer := W; byteOffset := 0; byteLength := len addr |}).
  { unfold new_view.
    destruct (Z.ltb_spec (len addr) 0); [lia |].
    destruct (Z.ltb_spec (len W) (0 + len addr)); [lia |]. reflexivity. }
  rewrite Hview. unfold bind at 1.
  assert (Helems : elements {| buffer := W; byteOffset := 0; byteLength := len addr |} = addr).
  { unfold W. rewrite HrA. rewrite <- app_assoc. apply elements_prefix. }
  rewrite Helems. rewrite TextDecoder_decode_ascii by exact Hlt.
  (* the type tags *)
  assert (Hstart : align4 (len addr + 1) = len (string_field addr))
    by (rewrite HAe; symmetry; apply pad1_align4; lia).
  rewrite Hstart.
  destruct (string_field_terminated (ASCII.COMMA :: tags)) as [rT HrT].
  assert (Htt_end : indexOf W ASCII.NULL (len (string_field addr)) =
                    len (string_field addr) + (1 + len args)).
  { unfold W.
    replace (string_field addr ++ string_field (ASCII.COMMA :: tags) ++ P)
      with (string_field addr ++ (ASCII.COMMA :: tags) ++ 0 :: (rT ++ P))
      by (rewrite HrT, <- app_assoc; reflexivity).
    rewrite indexOf_field by apply type_tags_no_nul.
    rewrite len_cons. unfold tags. rewrite len_map. reflexivity. }
  rewrite Htt_end.
  assert (Hcomma : get W (len (string_field addr)) = Some ASCII.COMMA).
  { unfold W. rewrite HrT. cbn [app]. apply get_middle. }
  rewrite Hcomma. cbn [option_eqb]. rewrite Z.eqb_refl. cbn [negb].
  replace (len (string_field addr) + (1 + len args) - len (string_field addr) - 1)
    with (len args) by lia.
  unfold new_Array.
  destruct (Z.ltb_spec (len args) 0); [lia |].
  destruct (Z.leb_spec (2 ^ 32) (len args)); [lia |].
  cbn [orb]. unfold bind at 1.
  replace (len (string_field addr) + (1 + len args) - (len (string_field addr) + 1))
    with (len args) by lia.
  rewrite to_nat_len.
  assert (Hoff : align4 (len (string_field addr) + (1 + len args) + 1) =
                 len (string_field addr ++ string_field (ASCII.COMMA :: tags))).
  { rewrite len_app, HTe. rewrite <- Z.add_assoc, align4_add by lia.
    f_equal. symmetry. apply pad1_align4. lia. }
  rewrite Hoff.
  pose proof (decodeOSC_loop_payloads W (len (string_field addr) + 1) args []
                (string_field addr ++ string_field (ASCII.COMMA :: tags))) as Hloop.
  cbn [length map app] in Hloop. change (len []) with 0 in Hloop.
  rewrite Z.add_0_r in Hloop.
  rewrite Hloop; [reflexivity | | | assumption | assumption | | lia].
  - unfold W. rewrite <- app_assoc. reflexivity.
  - intros i a Ha.
    unfold W.
    replace (string_field addr ++ string_field (ASCII.COMMA :: tags) ++ P)
      with ((string_field addr ++ [ASCII.COMMA]) ++ tags ++ 0 :: (rT ++ P))
      by (rewrite HrT; rewrite <- !app_assoc; reflexivity).
    replace (len (string_field addr) + 1)
      with (len (string_field addr ++ [ASCII.COMMA]))
      by (rewrite len_app; reflexivity).
    rewrite get_app_r.
    rewrite lookup_app_l
      by (unfold tags; rewrite length_map; apply (lookup_lt_Some _ _ _ Ha)).
    apply lookup_map_Some. exact Ha.
  - rewrite len_app. Z.to_euclidean_division_equations; lia.
Qed.


(** ** Round trip *)

(** C1, as stated, fails: the integer 2^31 is written with [setInt32],
    which wraps it around, and comes back as -2^31. *)
Lemma roundtrip_fails_on_large_integer :
  ~ (forall (addr : jsstring) (args : list OSCArg),
       starts_with_slash addr -> Forall no_nul (strings_of args) ->
       decode_encode addr args = Ok (addr, dense args)).
Proof.
  intros H.
  specialize (H (js "/a") [Num (Int 2147483648)]).
  assert (E : decode_encode (js "/a") [Num (Int 2147483648)] =
              Ok (js "/a", dense [Num (Int 2147483648)])).
  { apply H; [exists [97]; reflexivity | constructor]. }
  vm_compute in E. discriminate E.
Qed.

(** Other valid pairs that do not come back: a number that is not a
    binary32 value (0.1 is rounded), minus zero, and two strings of
    multi-byte text (["a\u00e9\u20ac"] loses its last character, ["\u00e9\u00e9"] is
    refused with an error). *)
Lemma roundtrip_fails_on_other_inputs :
  decode_encode (js "/a") [Num (Frac false 1801439850948198 55)] =
    Ok (js "/a", [Some (Num (Frac false 6710886 27))]) /\
  decode_encode (js "/a") [Num NegZero] = Ok (js "/a", [Some (Num (Int 0))]) /\
  decode_encode (js "/a") [Str [97; 0xE9; 0x20AC]] =
    Ok (js "/a", [Some (Str [97; 0xE9])]) /\
  decode_encode (js "/a") [Str [0xE9; 0xE9]] =
    Throw (OSCProtocolError MsgMoreBytesWritten).
Proof. repeat split; vm_compute; reflexivity. Qed.

(** C1 (amended): [decodeOSC(encodeOSC(addr, args))] is [(addr, args)]
    for every pair in which the address starts with ['/'], the address
    and the string arguments are ASCII text without NUL, every number is
    an integer of the 32-bit range, [NaN], or a number that is not an
    integer and is a binary32 value, and the packet is shorter than 2^31
    bytes. *)
Theorem roundtrip (addr : jsstring) (args : list OSCArg) :
  starts_with_slash addr -> ascii_text addr -> Forall roundtrip_arg args ->
  short_packet false addr args ->
  decode_encode addr args = Ok (addr, dense args).
Proof.
  intros _ Haddr Hargs Hfit. unfold decode_encode.
  rewrite encodeOSC_spec;
    [| assumption | assumption | apply roundtrip_ascii_args; assumption
     | cbn; lia].
  unfold bind. cbn [get_f64 get_oversize Z.to_nat replicate].
  rewrite app_nil_r.
  exact (decodeOSC_OSC_packet addr args Haddr Hargs Hfit).
Qed.

Lemma roundtrip_witness :
  decode_encode sample_addr sample_args = Ok (sample_addr, dense sample_args).
Proof.
  apply roundtrip.
  - eexists. reflexivity.
  - repeat constructor; lia.
  - repeat constructor; cbn; try lia; repeat constructor; lia.
  - vm_compute. reflexivity.
Defined.

(** ** Type tags without a case *)

Lemma decodeOSC_case_slot (data : Uint8Array) (tag : option Z) (offset : Z)
    (v : option OSCArg) (offset' : Z) :
  decodeOSC_case data tag offset = Ok (v, offset') ->
  if recognized tag then exists a, v = Some a else v = None.
Proof.
  unfold decodeOSC_case, recognized. intros H.
  destruct tag as [t |]; [| injection H as <- _; reflexivity].
  destruct (t =? ASCII.s);
    [apply bind_Ok in H as (? & _ & H); injection H as <- _; cbn; eauto |].
  destruct (t =? ASCII.i);
    [apply bind_Ok in H as (? & _ & H); injection H as <- _; cbn; eauto |].
  destruct (t =? ASCII.b);
    [apply bind_Ok in H as (? & _ & H); injection H as <- _; cbn; eauto |].
  destruct (t =? ASCII.f);
    [apply bind_Ok in H as (? & _ & H); injection H as <- _; cbn; eauto |].
  destruct (t =? ASCII.d);
    [apply bind_Ok in H as (? & _ & H); injection H as <- _; cbn; eauto |].
  destruct (t =? ASCII.T); [injection H as <- _; cbn; eauto |].
  destruct (t =? ASCII.F); [injection H as <- _; cbn; eauto |].
  injection H as <- _. reflexivity.
Qed.

(** The loop of [decodeOSC] assigns slot [i + k] at turn [k], and only
    when the tag has a case. *)
Lemma decodeOSC_loop_slots (data : Uint8Array) (n : nat) :
  forall (i : nat) (ti offset : Z) (args0 args : list (option OSCArg)),
    decodeOSC_loop data n i ti offset args0 = Ok args ->
    (i + n <= length args0)%nat ->
    length args = length args0 /\
    (forall j : nat, (j < i)%nat -> args !! j = args0 !! j) /\
    (forall k : nat, (k < n)%nat ->
       if recognized (get (elements data) (ti + Z.of_nat k))
       then exists a, args !! (i + k)%nat = Some (Some a)
       else args !! (i + k)%nat = args0 !! (i + k)%nat).
Proof.
  induction n as [| n IH]; intros i ti offset args0 args H Hlen.
  - cbn [decodeOSC_loop] in H. injection H as <-.
    split; [reflexivity |]. split; [reflexivity |]. intros k Hk. lia.
  - cbn [decodeOSC_loop] in H.
    apply bind_Ok in H as ([v offset'] & Hcase & H).
    apply decodeOSC_case_slot in Hcase.
    set (args1 := match v with
                  | Some a => <[i:=Some a]> args0
                  | None => args0
                  end) in *.
    assert (Hlen1 : length args1 = length args0)
      by (unfold args1; destruct v; [apply length_insert | reflexivity]).
    assert (Hother : forall j : nat, j <> i -> args1 !! j = args0 !! j).
    { intros j Hj. unfold args1. destruct v; [| reflexivity].
      apply list_lookup_insert_ne. lia. }
    destruct (IH (S i) (ti + 1) offset' args1 args H ltac:(lia))
      as (IH1 & IH2 & IH3).
    split; [lia |]. split.
    + intros j Hj. rewrite IH2 by lia. apply Hother. lia.
    + intros [| k] Hk.
      * rewrite Z.add_0_r, Nat.add_0_r. rewrite IH2 by lia.
        destruct (recognized (get (elements data) ti)).
        -- destruct Hcase as [a ->]. exists a. unfold args1.
           apply list_lookup_insert_eq. lia.
        -- subst v. reflexivity.
      * specialize (IH3 k ltac:(lia)).
        replace (ti + 1 + Z.of_nat k) with (ti + Z.of_nat (S k)) in IH3 by lia.
        replace (S i + k)%nat with (i + S k)%nat in IH3 by lia.
        destruct (recognized (get (elements data) (ti + Z.of_nat (S k))));
          [exact IH3 |].
        rewrite IH3. apply Hother. lia.
Qed.

(** What [decodeOSC] returns, slot by slot. *)
Lemma decodeOSC_slots (data : Uint8Array) (addr : jsstring)
    (args : list (option OSCArg)) :
  decodeOSC data = Ok (addr, args) ->
  length args = length (type_tags_read data) /\
  (forall (i : nat) (tag : option Z),
     type_tags_read data !! i = Some tag ->
     if recognized tag then exists a, args !! i = Some (Some a)
     else args !! i = Some None).
Proof.
  unfold decodeOSC, type_tags_read. intros H.
  destruct (negb (Z.rem (byteLength data) 4 =? 0)); [discriminate |].
  destruct (byteLength data <? 8); [discriminate |].
  apply bind_Ok in H as (v & _ & H).
  set (d := elements data) in *.
  set (tt_offset := align4 (indexOf d ASCII.NULL 0 + 1)) in *.
  set (tt_end := indexOf d ASCII.NULL tt_offset) in *.
  destruct (negb (option_eqb (get d tt_offset) (Some ASCII.COMMA)));
    [discriminate |].
  apply bind_Ok in H as (args0 & Hnew & H).
  apply bind_Ok in H as (args1 & Hloop & H).
  injection H as _ <-.
  unfold new_Array in Hnew.
  destruct ((tt_end - tt_offset - 1 <? 0) || (2 ^ 32 <=? tt_end - tt_offset - 1));
    [discriminate |].
  injection Hnew as <-.
  replace (tt_end - tt_offset - 1) with (tt_end - (tt_offset + 1)) in Hloop by lia.
  set (n := Z.to_nat (tt_end - (tt_offset + 1))) in *.
  destruct (decodeOSC_loop_slots data n 0 (tt_offset + 1) _ _ _ Hloop)
    as (Hlen & _ & Hslots).
  { rewrite length_replicate. lia. }
  rewrite length_replicate in Hlen.
  split; [rewrite length_map, length_seq; exact Hlen |].
  intros i tag Hi.
  assert (Hin : (i < n)%nat).
  { apply lookup_lt_Some in Hi. rewrite length_map, length_seq in Hi. exact Hi. }
  assert (Htag : tag = get d (tt_offset + 1 + Z.of_nat i)).
  { assert (E : map (fun k => get d (tt_offset + 1 + Z.of_nat k)) (seq 0 n) !! i
               = Some (get d (tt_offset + 1 + Z.of_nat i))).
    { apply (lookup_map_Some (fun k => get d (tt_offset + 1 + Z.of_nat k))
               (seq 0 n) i i).
      rewrite lookup_seq. split; [reflexivity | exact Hin]. }
    rewrite E in Hi. injection Hi as <-. reflexivity. }
  specialize (Hslots i Hin). cbn [Nat.add] in Hslots.
  fold d in Hslots. rewrite <- Htag in Hslots.
  destruct (recognized tag); [exact Hslots |].
  rewrite Hslots. apply lookup_replicate_2. exact Hin.
Qed.

Lemma dense_lookup (args : list OSCArg) (i : nat) : dense args !! i <> Some None.
Proof.
  unfold dense. revert i. induction args as [| a args IH]; intros [| i];
    cbn; try discriminate. apply IH.
Qed.

(** ** The argument list of [decodeOSCSlow] *)

Lemma bind_run_Ok {A B : Type} (r : run A) (k : A -> run B) (b : B) :
  bind_run r k = Some (Ok b) -> exists a, r = Some (Ok a) /\ k a = Some (Ok b).
Proof. destruct r as [[a | e] |]; [eauto | discriminate | discriminate]. Qed.

Lemma lift_Ok {A B : Type} (r : result A) (k : A -> result B) (b : B) :
  lift (bind r k) = Some (Ok b) -> exists a, r = Ok a /\ k a = Ok b.
Proof. unfold lift. intros H. injection H as H. apply bind_Ok. exact H. Qed.

(** [argsGen] yields one argument for each character with a case, and
    nothing for the others. *)
Lemma slow_argsGen_length (fuel : nat) (d : list Z) (typeTag : list jsstring) :
  forall (pos : Z) (args : list OSCArg),
    SlowDecoder.argsGen fuel d typeTag pos = Some (Ok args) ->
    length args = count_if recognized_char typeTag.
Proof.
  induction typeTag as [| c typeTag IH]; intros pos args H.
  - cbn [SlowDecoder.argsGen] in H. injection H as <-. reflexivity.
  - cbn [SlowDecoder.argsGen] in H.
    apply bind_run_Ok in H as ([yielded pos'] & Hc & H).
    apply bind_run_Ok in H as (rest & Hrest & H).
    injection H as <-. apply IH in Hrest.
    rewrite length_app, Hrest. cbn [count_if]. f_equal.
    unfold recognized_char.
    destruct (string_eqb c (js "s")).
    { apply bind_run_Ok in Hc as ([v p] & _ & Hc). injection Hc as <- _. reflexivity. }
    destruct (string_eqb c (js "i")).
    { apply lift_Ok in Hc as ([v p] & _ & Hc). injection Hc as <- _. reflexivity. }
    destruct (string_eqb c (js "b")).
    { apply lift_Ok in Hc as ([v p] & _ & Hc). injection Hc as <- _. reflexivity. }
    destruct (string_eqb c (js "f")).
    { apply lift_Ok in Hc as ([v p] & _ & Hc). injection Hc as <- _. reflexivity. }
    destruct (string_eqb c (js "d")).
    { apply lift_Ok in Hc as ([v p] & _ & Hc). injection Hc as <- _. reflexivity. }
    destruct (string_eqb c (js "T")); [injection Hc as <- _; reflexivity |].
    destruct (string_eqb c (js "F")); [injection Hc as <- _; reflexivity |].
    injection Hc as <- _. reflexivity.
Qed.

Lemma recognized_unit_range (u : Z) : recognized_unit u = true -> 0 < u < 128.
Proof.
  unfold recognized_unit, recognized. intros H.
  repeat (apply orb_true_iff in H as [H | H]);
    apply Z.eqb_eq in H; subst u; vm_compute; split; reflexivity.
Qed.

Lemma recognized_unit_false (u : Z) : ~ 0 < u < 128 -> recognized_unit u = false.
Proof.
  intros H. destruct (recognized_unit u) eqn:E; [| reflexivity].
  apply recognized_unit_range in E. contradiction.
Qed.

Lemma recognized_char_single (c : Z) : recognized_char [c] = recognized_unit c.
Proof.
  unfold recognized_char, recognized_unit, recognized.
  change (js "s") with [ASCII.s]. change (js "i") with [ASCII.i].
  change (js "b") with [ASCII.b]. change (js "f") with [ASCII.f].
  change (js "d") with [ASCII.d]. change (js "T") with [ASCII.T].
  change (js "F") with [ASCII.F]. cbn [string_eqb].
  rewrite !andb_true_r. reflexivity.
Qed.

Lemma recognized_char_pair (c c' : Z) : recognized_char [c; c'] = false.
Proof.
  unfold recognized_char.
  change (js "s") with [ASCII.s]. change (js "i") with [ASCII.i].
  change (js "b") with [ASCII.b]. change (js "f") with [ASCII.f].
  change (js "d") with [ASCII.d]. change (js "T") with [ASCII.T].
  change (js "F") with [ASCII.F]. cbn [string_eqb].
  rewrite !andb_false_r. reflexivity.
Qed.

(** The characters with a case are the code units with a case. *)
Lemma count_string_iterator (s : jsstring) :
  count_if recognized_char (string_iterator s) = count_if recognized_unit s.
Proof.
  induction s as [| c | c c' s IH1 IH2] using jsstring_pair_ind.
  - reflexivity.
  - cbn [string_iterator count_if].
    destruct (is_high_surrogate c); cbn [count_if];
      rewrite recognized_char_single; reflexivity.
  - change (string_iterator (c :: c' :: s))
      with (if is_high_surrogate c then
              if is_low_surrogate c' then [c; c'] :: string_iterator s
              else [c] :: string_iterator (c' :: s)
            else [c] :: string_iterator (c' :: s)).
    destruct (is_high_surrogate c) eqn:Hh;
      [destruct (is_low_surrogate c') eqn:Hl |].
    + cbn [count_if]. rewrite recognized_char_pair, IH1.
      unfold is_high_surrogate in Hh. unfold is_low_surrogate in Hl.
      rewrite !recognized_unit_false by lia. reflexivity.
    + cbn [count_if]. rewrite recognized_char_single, IH2. reflexivity.
    + cbn [count_if]. rewrite recognized_char_single, IH2. reflexivity.
Qed.

Lemma count_if_app {A : Type} (f : A -> bool) (l k : list A) :
  count_if f (l ++ k) = (count_if f l + count_if f k)%nat.
Proof.
  induction l as [| x l IH]; [reflexivity |].
  cbn [app count_if]. rewrite IH. lia.
Qed.

Lemma count_utf16_units (cps : list Z) :
  count_if recognized_unit (flat_map utf16_units cps) =
  count_if recognized_unit cps.
Proof.
  induction cps as [| cp cps IH]; [reflexivity |].
  cbn [flat_map count_if]. rewrite count_if_app, IH. f_equal.
  unfold utf16_units. destruct (Z.ltb_spec cp 0x10000).
  - cbn [count_if]. lia.
  - cbn [count_if]. rewrite !recognized_unit_false; [reflexivity | | |];
      Z.to_euclidean_division_equations; lia.
Qed.

(** *** The UTF-8 decoder makes no tag out of a multi-byte sequence *)

Lemma land_low_bits (b : Z) (n : Z) :
  0 <= n -> Z.land b (2 ^ n - 1) = b mod 2 ^ n.
Proof.
  intros Hn. replace (2 ^ n - 1) with (Z.ones n)
    by (rewrite Z.ones_equiv; lia).
  apply Z.land_ones. exact Hn.
Qed.

Lemma utf8_idle_ok : utf8_state_ok utf8_idle.
Proof. left. reflexivity. Qed.

Lemma utf8_lead_ok (b : Z) :
  utf8_state_ok (snd (utf8_lead b)) /\
  count_if recognized_unit (fst (utf8_lead b)) = count_if recognized_unit [b].
Proof.
  unfold utf8_lead.
  destruct (Z.leb_spec b 0x7F); [split; [apply utf8_idle_ok | reflexivity] |].
  assert (Hb : count_if recognized_unit [b] = 0%nat)
    by (cbn [count_if]; rewrite recognized_unit_false by lia; reflexivity).
  rewrite Hb.
  destruct ((0xC2 <=? b) && (b <=? 0xDF)) eqn:E2.
  { apply andb_true_iff in E2 as [H1 H2].
    apply Z.leb_le in H1. apply Z.leb_le in H2. cbn [fst snd].
    split; [| reflexivity]. right.
    change 0x1F with (2 ^ 5 - 1). rewrite land_low_bits by lia.
    change (64 ^ 1) with 64. change (64 ^ (1 - 1)) with 1.
    Z.to_euclidean_division_equations; lia. }
  destruct ((0xE0 <=? b) && (b <=? 0xEF)) eqn:E3.
  { apply andb_true_iff in E3 as [H1 H2].
    apply Z.leb_le in H1. apply Z.leb_le in H2. cbn [fst snd].
    split; [| reflexivity]. right.
    change 0xF with (2 ^ 4 - 1). rewrite land_low_bits by lia.
    change (64 ^ 2) with 4096. change (64 ^ (2 - 1)) with 64.
    destruct (Z.eqb_spec b 0xE0); destruct (Z.eqb_spec b 0xED);
      Z.to_euclidean_division_equations; lia. }
  destruct ((0xF0 <=? b) && (b <=? 0xF4)) eqn:E4.
  { apply andb_true_iff in E4 as [H1 H2].
    apply Z.leb_le in H1. apply Z.leb_le in H2. cbn [fst snd].
    split; [| reflexivity]. right.
    change 0x7 with (2 ^ 3 - 1). rewrite land_low_bits by lia.
    change (64 ^ 3) with 262144. change (64 ^ (3 - 1)) with 4096.
    destruct (Z.eqb_spec b 0xF0); destruct (Z.eqb_spec b 0xF4);
      Z.to_euclidean_division_equations; lia. }
  split; [apply utf8_idle_ok | reflexivity].
Qed.

Lemma utf8_decode_count (bs : list Z) :
  forall st : utf8_state,
    utf8_state_ok st ->
    (count_if recognized_unit (utf8_decode st bs) <=
     count_if recognized_unit bs)%nat.
Proof.
  induction bs as [| b bs IH]; intros [[[cp needed] lower] upper] Hok.
  - cbn [utf8_decode]. destruct (needed =? 0); cbn [count_if]; [lia |].
    rewrite recognized_unit_false by lia. lia.
  - cbn [utf8_decode].
    destruct (utf8_lead_ok b) as [Hlead Hcount].
    destruct (utf8_lead b) as [out st'] eqn:Elead. cbn [fst snd] in *.
    pose proof (IH st' Hlead) as IHlead.
    cbn [count_if] in Hcount |- *.
    destruct (Z.eqb_spec needed 0) as [-> | Hneeded].
    { rewrite count_if_app. lia. }
    destruct Hok as [? | (Hn & Hlo & Hup & Hcp & Hge)]; [contradiction |].
    destruct (Z.leb_spec lower b); cbn [andb].
    + destruct (Z.leb_spec b upper); cbn [andb].
      * set (cp' := cp * 64 + Z.land b 0x3F).
        assert (Hland : Z.land b 0x3F = b - 0x80).
        { change 0x3F with (2 ^ 6 - 1). rewrite land_low_bits by lia.
          Z.to_euclidean_division_equations; lia. }
        rewrite (recognized_unit_false b) by lia.
        destruct (Z.eqb_spec needed 1) as [-> | Hn1].
        -- cbn [count_if].
           change (64 ^ 1) with 64 in Hge. change (64 ^ (1 - 1)) with 1 in Hge.
           rewrite recognized_unit_false by (unfold cp'; lia).
           specialize (IH utf8_idle utf8_idle_ok). lia.
        -- assert (Hok' : utf8_state_ok (cp', needed - 1, 0x80, 0xBF)).
           { right. unfold cp'. rewrite Hland.
             assert (Hc : needed = 2 \/ needed = 3) by lia.
             destruct Hc as [-> | ->]; cbn in Hge |- *; lia. }
           specialize (IH _ Hok'). lia.
      * cbn [count_if]. rewrite count_if_app.
        rewrite (recognized_unit_false 0xFFFD) by lia. lia.
    + cbn [count_if]. rewrite count_if_app.
      rewrite (recognized_unit_false 0xFFFD) by lia. lia.
Qed.

Lemma strip_bom_count (bs : list Z) :
  (count_if recognized_unit (strip_bom bs) <= count_if recognized_unit bs)%nat.
Proof.
  unfold strip_bom. destruct bs as [| b1 [| b2 [| b3 bs]]]; try lia.
  destruct ((b1 =? 0xEF) && (b2 =? 0xBB) && (b3 =? 0xBF)); [| lia].
  cbn [count_if]. lia.
Qed.

(** The decoded type-tag string has no more characters with a case than
    there are bytes with a case. *)
Lemma TextDecoder_decode_count (bs : list Z) :
  (count_if recognized_char (string_iterator (TextDecoder_decode bs)) <=
   count_if recognized_unit bs)%nat.
Proof.
  rewrite count_string_iterator. unfold TextDecoder_decode.
  rewrite count_utf16_units.
  pose proof (utf8_decode_count (strip_bom bs) utf8_idle utf8_idle_ok).
  pose proof (strip_bom_count bs). lia.
Qed.

(** *** What [oscStringGen] reads *)

Lemma count_tags_app (d : list Z) (a : nat) :
  forall (pos : Z) (b : nat),
    count_tags d pos (a + b) =
    (count_tags d pos a + count_tags d (pos + Z.of_nat a) b)%nat.
Proof.
  induction a as [| a IH]; intros pos b.
  - cbn [count_tags Nat.add]. rewrite Z.add_0_r. reflexivity.
  - cbn [count_tags Nat.add]. rewrite IH.
    replace (pos + 1 + Z.of_nat a) with (pos + Z.of_nat (S a)) by lia. lia.
Qed.

Lemma has_nul_app (d : list Z) (a : nat) :
  forall (pos : Z) (b : nat),
    has_nul d pos (a + b) = has_nul d pos a || has_nul d (pos + Z.of_nat a) b.
Proof.
  induction a as [| a IH]; intros pos b.
  - cbn [has_nul Nat.add orb]. rewrite Z.add_0_r. reflexivity.
  - cbn [has_nul Nat.add]. rewrite IH.
    replace (pos + 1 + Z.of_nat a) with (pos + Z.of_nat (S a)) by lia.
    rewrite orb_assoc. reflexivity.
Qed.

Lemma has_nul_false (d : list Z) (n : nat) :
  forall pos : Z,
    has_nul d pos n = false ->
    forall j : Z, pos <= j < pos + Z.of_nat n -> get d j <> Some 0.
Proof.
  induction n as [| n IH]; intros pos H j Hj; [lia |].
  cbn [has_nul] in H. apply orb_false_iff in H as [H1 H2].
  destruct (Z.eq_dec j pos) as [-> | Hne].
  - intros E. rewrite E in H1. discriminate H1.
  - apply (IH (pos + 1) H2). lia.
Qed.

Lemma has_nul_true (d : list Z) (n : nat) :
  forall pos : Z,
    has_nul d pos n = true ->
    exists j : Z, pos <= j < pos + Z.of_nat n /\ get d j = Some 0.
Proof.
  induction n as [| n IH]; intros pos H; [discriminate |].
  cbn [has_nul] in H. apply orb_true_iff in H as [H | H].
  - exists pos. split; [lia |].
    destruct (get d pos) as [b |]; [| discriminate].
    cbn [option_eqb] in H. apply Z.eqb_eq in H. subst b. reflexivity.
  - destruct (IH (pos + 1) H) as (j & Hj & E). exists j. split; [lia | exact E].
Qed.

Lemma count_tags_none (d : list Z) (n : nat) :
  forall pos : Z,
    (forall j : Z, pos <= j < pos + Z.of_nat n -> recognized (get d j) = false) ->
    count_tags d pos n = 0%nat.
Proof.
  induction n as [| n IH]; intros pos H; [reflexivity |].
  cbn [count_tags]. rewrite (H pos) by lia. rewrite IH; [reflexivity |].
  intros j Hj. apply H. lia.
Qed.

(** One block of four tokens. *)
Lemma slow_block_spec (d : list Z) (n : nat) :
  forall (pos : Z) (t : bool),
    exists ys,
      SlowDecoder.block d n pos t =
        (ys, pos + Z.of_nat n, t || has_nul d pos n) /\
      count_if recognized_unit (SlowDecoder.Uint8Array_from ys) =
        count_tags d pos n.
Proof.
  induction n as [| n IH]; intros pos t.
  - exists []. cbn [SlowDecoder.block has_nul]. rewrite orb_false_r, Z.add_0_r.
    split; reflexivity.
  - cbn [SlowDecoder.block has_nul count_tags].
    replace (pos + Z.of_nat (S n)) with (pos + 1 + Z.of_nat n) by lia.
    destruct (option_eqb (get d pos) (Some 0)) eqn:E.
    + destruct (IH (pos + 1) true) as (ys & Hys & Hc).
      exists ys. rewrite Hys. cbn [orb]. rewrite orb_true_r.
      split; [reflexivity |]. rewrite Hc.
      destruct (get d pos) as [b |]; [| discriminate].
      cbn [option_eqb] in E. apply Z.eqb_eq in E. subst b. reflexivity.
    + destruct (IH (pos + 1) t) as (ys & Hys & Hc).
      exists (get d pos :: ys). rewrite Hys. cbn [orb].
      split; [reflexivity |].
      cbn [SlowDecoder.Uint8Array_from map count_if].
      fold (SlowDecoder.Uint8Array_from ys). rewrite Hc.
      destruct (get d pos) as [b |]; reflexivity.
Qed.

(** A read of [oscStringGen] that ends: [m] blocks without NUL, then one
    block with a NUL. *)
Lemma slow_oscStringGen_spec (d : list Z) (fuel : nat) :
  forall (pos : Z) (ys : list (option Z)) (pos' : Z),
    SlowDecoder.oscStringGen fuel d pos = Some (ys, pos') ->
    exists m : nat,
      pos' = pos + Z.of_nat (4 * m) + 4 /\
      has_nul d pos (4 * m) = false /\
      has_nul d (pos + Z.of_nat (4 * m)) 4 = true /\
      count_if recognized_unit (SlowDecoder.Uint8Array_from ys) =
        count_tags d pos (4 * m + 4).
Proof.
  induction fuel as [| fuel IH]; intros pos ys pos' H; [discriminate |].
  cbn [SlowDecoder.oscStringGen] in H.
  destruct (slow_block_spec d 4 pos false) as (ys0 & Hb & Hc0).
  rewrite Hb in H. cbn [orb] in H.
  destruct (has_nul d pos 4) eqn:Hnul.
  - injection H as <- <-. exists 0%nat.
    cbn [Nat.mul Z.of_nat has_nul Nat.add]. rewrite Z.add_0_r.
    repeat split; try assumption; try lia.
  - destruct (SlowDecoder.oscStringGen fuel d (pos + Z.of_nat 4)) as [[ys' p'] |] eqn:Hrec;
      [| discriminate].
    injection H as <- <-.
    destruct (IH _ _ _ Hrec) as (m & Hp & H1 & H2 & Hc).
    exists (S m).
    replace (4 * S m)%nat with (4 + 4 * m)%nat by lia.
    rewrite has_nul_app, Hnul, H1.
    replace (pos + Z.of_nat (4 + 4 * m)) with (pos + Z.of_nat 4 + Z.of_nat (4 * m)) by lia.
    rewrite H2.
    repeat split; try reflexivity; [lia |].
    unfold SlowDecoder.Uint8Array_from. rewrite map_app, count_if_app.
    fold (SlowDecoder.Uint8Array_from ys0). fold (SlowDecoder.Uint8Array_from ys').
    rewrite Hc0, Hc.
    replace (4 + 4 * m + 4)%nat with (4 + (4 * m + 4))%nat by lia.
    rewrite (count_tags_app d 4 pos (4 * m + 4)). reflexivity.
Qed.

(** *** [indexOf], as a first index *)

Lemma index_from_spec (x : Z) (l : list Z) :
  forall k0 : Z,
    0 <= k0 ->
    (index_from x l k0 = -1 /\ Forall (fun y => y <> x) l) \/
    (k0 <= index_from x l k0 /\
     l !! Z.to_nat (index_from x l k0 - k0) = Some x /\
     forall j : nat, (Z.of_nat j < index_from x l k0 - k0) -> l !! j <> Some x).
Proof.
  induction l as [| y l IH]; intros k0 Hk0.
  - left. split; [reflexivity | constructor].
  - cbn [index_from]. destruct (Z.eqb_spec y x) as [-> | Hne].
    + right. rewrite Z.sub_diag. split; [lia |]. split; [reflexivity |].
      intros j Hj. lia.
    + destruct (IH (k0 + 1) ltac:(lia)) as [[E Hall] | (Hle & He & Hfirst)].
      * left. split; [exact E | constructor; assumption].
      * right. split; [lia |]. split.
        -- replace (Z.to_nat (index_from x l (k0 + 1) - k0))
             with (S (Z.to_nat (index_from x l (k0 + 1) - (k0 + 1)))) by lia.
           exact He.
        -- intros [| j] Hj; [cbn; congruence |].
           cbn. apply Hfirst. lia.
Qed.

Lemma get_drop (d : list Z) (pos : Z) (j : nat) :
  0 <= pos -> drop (Z.to_nat pos) d !! j = get d (pos + Z.of_nat j).
Proof.
  intros H. unfold get. destruct (Z.ltb_spec (pos + Z.of_nat j) 0); [lia |].
  rewrite lookup_drop. f_equal. lia.
Qed.

(** The first NUL from [pos] on, when there is none before [lo] and one
    before [hi]. *)
Lemma indexOf_between (d : list Z) (pos lo hi : Z) :
  0 <= pos <= lo ->
  (forall j : Z, pos <= j < lo -> get d j <> Some 0) ->
  (exists j : Z, lo <= j < hi /\ get d j = Some 0) ->
  lo <= indexOf d ASCII.NULL pos < hi /\
  get d (indexOf d ASCII.NULL pos) = Some 0.
Proof.
  intros Hpos Hnone (j0 & Hj0 & E0). unfold indexOf.
  destruct (Z.ltb_spec pos 0); [lia |].
  set (l := drop (Z.to_nat pos) d).
  assert (Hl : forall j : nat, l !! j = get d (pos + Z.of_nat j))
    by (intros j; apply get_drop; lia).
  destruct (index_from_spec ASCII.NULL l pos ltac:(lia))
    as [[_ Hall] | (Hle & He & Hfirst)].
  - exfalso. rewrite Forall_lookup in Hall.
    apply (Hall (Z.to_nat (j0 - pos)) 0); [| reflexivity].
    rewrite Hl. rewrite <- E0. f_equal. lia.
  - set (e := index_from ASCII.NULL l pos) in *.
    rewrite Hl in He. replace (pos + Z.of_nat (Z.to_nat (e - pos))) with e in He by lia.
    split; [| exact He]. split.
    + destruct (Z.lt_ge_cases e lo) as [Hlt | Hge]; [| lia].
      exfalso. apply (Hnone e); [lia | exact He].
    + destruct (Z.lt_ge_cases e hi) as [Hlt | Hge]; [lia |].
      exfalso. apply (Hfirst (Z.to_nat (j0 - pos))); [lia |].
      rewrite Hl. replace (pos + Z.of_nat (Z.to_nat (j0 - pos))) with j0 by lia.
      exact E0.
Qed.

(** *** The two argument lists compared *)

Lemma len_elements (data : Uint8Array) :
  wf_view data -> len (elements data) = byteLength data.
Proof.
  intros (Ho & Hl & Hb). unfold elements, len in *.
  rewrite length_take, length_drop. lia.
Qed.

Lemma get_Some_lt (d : list Z) (j x : Z) :
  get d j = Some x -> 0 <= j < len d.
Proof.
  unfold get. destruct (Z.ltb_spec j 0); [discriminate |].
  intros E. apply lookup_lt_Some in E. unfold len. lia.
Qed.

Lemma count_tags_read (d : list Z) (n : nat) :
  forall base : Z,
    count_if recognized (map (fun k => get d (base + Z.of_nat k)) (seq 0 n)) =
    count_tags d base n.
Proof.
  induction n as [| n IH]; intros base; [reflexivity |].
  cbn [seq map count_if count_tags]. rewrite Z.add_0_r. f_equal.
  rewrite <- seq_shift, map_map. rewrite <- IH.
  f_equal. apply map_ext. intros k. f_equal. lia.
Qed.

Lemma count_if_lt {A : Type} (f : A -> bool) (l : list A) :
  (count_if f l <= length l)%nat /\
  ((exists i x, l !! i = Some x /\ f x = false) ->
   (count_if f l < length l)%nat).
Proof.
  induction l as [| y l [IH1 IH2]].
  - split; [cbn; lia |]. intros (i & x & H & _). destruct i; discriminate.
  - cbn [count_if length]. split; [destruct (f y); lia |].
    intros ([| i] & x & H & Hx).
    + injection H as ->. rewrite Hx. lia.
    + specialize (IH2 ltac:(exists i, x; split; assumption)).
      destruct (f y); lia.
Qed.

Lemma count_if_tail {A : Type} (f : A -> bool) (l : list A) :
  (count_if f (tail l) <= count_if f l)%nat.
Proof. destruct l as [| x l]; cbn [tail count_if]; lia. Qed.

(** What a run of [decodeOSC] that returns has checked. *)
Lemma decodeOSC_header (data : Uint8Array) (addr : jsstring)
    (args : list (option OSCArg)) :
  decodeOSC data = Ok (addr, args) ->
  Z.rem (byteLength data) 4 = 0 /\ 8 <= byteLength data /\
  get (elements data) (align4 (indexOf (elements data) ASCII.NULL 0 + 1)) =
    Some ASCII.COMMA.
Proof.
  unfold decodeOSC. intros H.
  destruct (Z.eqb_spec (Z.rem (byteLength data) 4) 0); [| discriminate].
  cbn [negb] in H.
  destruct (Z.ltb_spec (byteLength data) 8); [discriminate |].
  apply bind_Ok in H as (v & _ & H).
  destruct (get (elements data) (align4 (indexOf (elements data) ASCII.NULL 0 + 1)))
    as [c |]; [| discriminate].
  cbn [option_eqb] in H. destruct (Z.eqb_spec c ASCII.COMMA); [| discriminate].
  subst c. repeat split; [assumption | lia].
Qed.

(** When nothing after the NUL of the type tags reads as a tag,
    [decodeOSCSlow] yields fewer arguments than [decodeOSC] has slots, as
    soon as one tag has no case. *)
Lemma decodeOSCSlow_shorter (data : Uint8Array) (fuel : nat)
    (addr addr' : jsstring) (args : list (option OSCArg)) (args' : list OSCArg) :
  wf_view data -> byteLength data < 2 ^ 31 -> clean_tag_padding data ->
  decodeOSC data = Ok (addr, args) ->
  decodeOSCSlow fuel data = Some (Ok (addr', args')) ->
  (exists i tag, type_tags_read data !! i = Some tag /\ recognized tag = false) ->
  (length args' < length args)%nat.
Proof.
  intros Hwf Hsize Hclean Hfast Hslow Hunk.
  destruct (decodeOSC_slots data addr args Hfast) as [Hlen _].
  destruct (decodeOSC_header data addr args Hfast) as (Hmod & H8 & Hcomma).
  pose proof (len_elements data Hwf) as Hd.
  unfold clean_tag_padding in Hclean. unfold type_tags_read in Hlen, Hunk.
  set (d := elements data) in *.
  rewrite Z.rem_mod_nonneg in Hmod by lia.
  (* the reference decoder *)
  unfold decodeOSCSlow in Hslow. fold d in Hslow.
  destruct (negb (Z.rem (byteLength data) 4 =? 0)); [discriminate |].
  destruct (byteLength data <? 8); [discriminate |].
  apply bind_run_Ok in Hslow as ([a1 pos1] & Hs1 & Hslow).
  destruct (charAt0_is_not_slash a1); [discriminate |].
  apply bind_run_Ok in Hslow as ([tagstr pos2] & Hs2 & Hslow).
  destruct (negb _); [discriminate |].
  apply bind_run_Ok in Hslow as (args2 & Hargs & Hslow).
  injection Hslow as _ <-.
  apply slow_argsGen_length in Hargs.
  unfold SlowDecoder.oscString in Hs1, Hs2.
  destruct (SlowDecoder.oscStringGen fuel d 0) as [[ys1 p1] |] eqn:Hg1;
    [| discriminate].
  injection Hs1 as _ <-.
  destruct (SlowDecoder.oscStringGen fuel d p1) as [[ys2 p2] |] eqn:Hg2;
    [| discriminate].
  injection Hs2 as <- <-.
  destruct (slow_oscStringGen_spec d fuel _ _ _ Hg1) as (m1 & Hp1 & Hn1 & Hz1 & _).
  destruct (slow_oscStringGen_spec d fuel _ _ _ Hg2) as (m2 & Hp2 & Hn2 & Hz2 & Hc2).
  (* the end of the address *)
  destruct (indexOf_between d 0 (Z.of_nat (4 * m1)) (Z.of_nat (4 * m1) + 4))
    as [Hae Hae0].
  { lia. }
  { intros j Hj. apply (has_nul_false d _ 0 Hn1). lia. }
  { destruct (has_nul_true d _ _ Hz1) as (j & Hj & E). exists j. split; [lia | exact E]. }
  set (addr_end := indexOf d ASCII.NULL 0) in *.
  pose proof (get_Some_lt _ _ _ Hae0) as Hae_lt.
  assert (Htt : align4 (addr_end + 1) = p1).
  { rewrite align4_small by (Z.to_euclidean_division_equations; lia).
    Z.to_euclidean_division_equations; lia. }
  rewrite Htt in *. clear Htt.
  (* the end of the type tags *)
  destruct (indexOf_between d p1 (p1 + Z.of_nat (4 * m2)) (p1 + Z.of_nat (4 * m2) + 4))
    as [Hte Hte0].
  { lia. }
  { intros j Hj. apply (has_nul_false d _ _ Hn2). lia. }
  { destruct (has_nul_true d _ _ Hz2) as (j & Hj & E). exists j. split; [lia | exact E]. }
  set (tt_end := indexOf d ASCII.NULL p1) in *.
  pose proof (get_Some_lt _ _ _ Hte0) as Hte_lt.
  assert (Hp2' : align4 (tt_end + 1) = p2).
  { rewrite align4_small by (Z.to_euclidean_division_equations; lia).
    Z.to_euclidean_division_equations; lia. }
  rewrite Hp2' in Hclean.
  assert (Hne : tt_end <> p1).
  { intros E. rewrite E in Hte0. rewrite Hcomma in Hte0. discriminate Hte0. }
  (* counting *)
  set (n := Z.to_nat (tt_end - (p1 + 1))) in *.
  rewrite length_map, length_seq in Hlen.
  destruct (count_if_lt recognized
              (map (fun k => get d (p1 + 1 + Z.of_nat k)) (seq 0 n))) as [_ Hlt].
  specialize (Hlt Hunk). rewrite length_map, length_seq, count_tags_read in Hlt.
  replace (4 * m2 + 4)%nat with (1 + (n + Z.to_nat (p2 - tt_end)))%nat in Hc2 by lia.
  rewrite !count_tags_app in Hc2.
  replace (count_tags d p1 1) with 0%nat in Hc2
    by (cbn [count_tags]; rewrite Hcomma; reflexivity).
  replace (count_tags d (p1 + Z.of_nat 1 + Z.of_nat n) (Z.to_nat (p2 - tt_end)))
    with 0%nat in Hc2
    by (symmetry; apply count_tags_none; intros j Hj; apply Hclean; lia).
  change (p1 + Z.of_nat 1) with (p1 + 1) in Hc2.
  pose proof (TextDecoder_decode_count (SlowDecoder.Uint8Array_from ys2)) as Hdec.
  pose proof (count_if_tail recognized_char
                (string_iterator (TextDecoder_decode (SlowDecoder.Uint8Array_from ys2)))).
  lia.
Qed.

(** ** Type tags without a case: the two decoders *)

(** C10, as stated, fails: on the packet ["/a\0\0,x\0i"] + 7 both
    decoders return, [decodeOSC] with one unset argument and
    [decodeOSCSlow] with one argument too, the integer 7: its list is not
    shorter. *)
Lemma decodeOSCSlow_not_shorter :
  ~ (forall (data : Uint8Array) (fuel : nat) (addr addr' : jsstring)
            (args : list (option OSCArg)) (args' : list OSCArg),
       decodeOSC data = Ok (addr, args) ->
       decodeOSCSlow fuel data = Some (Ok (addr', args')) ->
       (exists i tag, type_tags_read data !! i = Some tag /\ recognized tag = false) ->
       (length args' < length args)%nat).
Proof.
  intros H.
  specialize (H packet_with_unknown_tag 1%nat (js "/a") (js "/a")
                [None] [Num (Int 7)]).
  assert (E : (length [Num (Int 7)] < length [@None OSCArg])%nat).
  { apply H.
    - vm_compute. reflexivity.
    - vm_compute. reflexivity.
    - exists 0%nat, (Some 120). split; vm_compute; reflexivity. }
  cbn in E. lia.
Qed.

(** C10 (amended): when both decoders return on a packet in which some
    type-tag byte (a byte between the leading comma and the first NUL
    after it) has no case, the array of [decodeOSC] has one slot per
    type-tag byte, the slot of a byte without a case is unset and every
    other slot is set; the list of [decodeOSCSlow] has no unset slot, so
    the two results differ; and that list is shorter, provided nothing
    after the NUL in its 4-byte block reads as a tag (the packet being
    shorter than 2^31 bytes). *)
Theorem unknown_tags_diverge (data : Uint8Array) (fuel : nat)
    (addr addr' : jsstring) (args : list (option OSCArg)) (args' : list OSCArg) :
  decodeOSC data = Ok (addr, args) ->
  decodeOSCSlow fuel data = Some (Ok (addr', args')) ->
  (exists i tag, type_tags_read data !! i = Some tag /\ recognized tag = false) ->
  length args = length (type_tags_read data) /\
  (forall (i : nat) (tag : option Z),
     type_tags_read data !! i = Some tag ->
     if recognized tag then exists a, args !! i = Some (Some a)
     else args !! i = Some None) /\
  args <> dense args' /\
  (wf_view data /\ byteLength data < 2 ^ 31 /\ clean_tag_padding data ->
   (length args' < length args)%nat).
Proof.
  intros Hfast Hslow Hunk.
  destruct (decodeOSC_slots data addr args Hfast) as [Hlen Hslots].
  split; [exact Hlen |]. split; [exact Hslots |]. split.
  - destruct Hunk as (i & tag & Hi & Hrec).
    intros E. specialize (Hslots i tag Hi). rewrite Hrec in Hslots.
    rewrite E in Hslots. exact (dense_lookup args' i Hslots).
  - intros (Hwf & Hsize & Hclean).
    exact (decodeOSCSlow_shorter data fuel addr addr' args args'
             Hwf Hsize Hclean Hfast Hslow Hunk).
Qed.

Lemma unknown_tags_diverge_witness :
  length [None; Some (Num (Int 7))] = length (type_tags_read packet_with_skipped_tag) /\
  [None; Some (Num (Int 7))] <> dense [Num (Int 7)] /\
  (length [Num (Int 7)] < length [None; Some (Num (Int 7))])%nat.
Proof.
  assert (Hfast : decodeOSC packet_with_skipped_tag =
                  Ok (js "/a", [None; Some (Num (Int 7))]))
    by (vm_compute; reflexivity).
  assert (Hslow : decodeOSCSlow 1 packet_with_skipped_tag =
                  Some (Ok (js "/a", [Num (Int 7)])))
    by (vm_compute; reflexivity).
  assert (Htag : exists i tag, type_tags_read packet_with_skipped_tag !! i = Some tag /\
                               recognized tag = false)
    by (exists 0%nat, (Some 120); split; vm_compute; reflexivity).
  destruct (unknown_tags_diverge packet_with_skipped_tag 1 (js "/a") (js "/a")
              [None; Some (Num (Int 7))] [Num (Int 7)] Hfast Hslow Htag)
    as (Hlen & _ & Hne & Hshort).
  split; [exact Hlen |]. split; [exact Hne |]. apply Hshort.
  split; [| split].
  - unfold wf_view. vm_compute. repeat split; congruence.
  - vm_compute. reflexivity.
  - unfold clean_tag_padding. cbv zeta.
    replace (indexOf (elements packet_with_skipped_tag) ASCII.NULL
               (align4 (indexOf (elements packet_with_skipped_tag) ASCII.NULL 0 + 1)))
      with 7 by (vm_compute; reflexivity).
    change (align4 (7 + 1)) with 8.
    intros j Hj. replace j with 7 by lia. vm_compute. reflexivity.
Defined.

(** ** The checks of the reference codec, in general *)

Lemma scalar_values_nul (s : jsstring) :
  In 0 s -> In 0 (scalar_values s).
Proof.
  induction s as [| c | c c' s IH1 IH2] using jsstring_pair_ind; intros H.
  - destruct H.
  - destruct H as [-> | []]. left. reflexivity.
  - change (scalar_values (c :: c' :: s))
      with (if is_high_surrogate c then
              if is_low_surrogate c'
              then (0x10000 + (c - 0xD800) * 0x400 + (c' - 0xDC00)) :: scalar_values s
              else 0xFFFD :: scalar_values (c' :: s)
            else if is_low_surrogate c then 0xFFFD :: scalar_values (c' :: s)
            else c :: scalar_values (c' :: s)).
    destruct H as [-> | H]; [left; reflexivity |].
    destruct (is_high_surrogate c) eqn:Hh.
    + destruct (is_low_surrogate c') eqn:Hl.
      * destruct H as [-> | H]; [discriminate Hl |]. right. apply IH1. exact H.
      * right. apply IH2. exact H.
    + destruct (is_low_surrogate c); right; apply IH2; exact H.
Qed.

Lemma TextEncoder_encode_nul (s : jsstring) :
  In 0 s -> existsb (Z.eqb 0) (TextEncoder_encode s) = true.
Proof.
  intros H. apply scalar_values_nul in H. unfold TextEncoder_encode.
  apply existsb_exists. exists 0. split; [| reflexivity].
  apply in_flat_map. exists 0. split; [exact H | left; reflexivity].
Qed.

(** [encodeOSCSlow] refuses every NUL, in a string argument or in the
    address. *)
Lemma encodeOSCSlow_rejects_nul (addr : jsstring) (args : list OSCArg)
    (opt : option OSCSlowEncoderOptions) :
  starts_with_slash addr ->
  In 0 addr \/ (exists s, In s (strings_of args) /\ In 0 s) ->
  encodeOSCSlow addr args opt = Throw (OSCProtocolError MsgIllegalCharacters).
Proof.
  intros [rest ->] H. rewrite encodeOSCSlow_spec.
  cbn [charAt0_is_not_slash]. rewrite Z.eqb_refl. cbn [negb].
  destruct H as [H | (s & Hs & H0)].
  - rewrite (TextEncoder_encode_nul _ H), orb_true_r. reflexivity.
  - assert (E : nul_in_strings args = true).
    { unfold nul_in_strings. apply existsb_exists. exists s.
      split; [exact Hs | apply TextEncoder_encode_nul; exact H0]. }
    rewrite E. reflexivity.
Qed.

(** An address that [decodeOSCSlow] returns starts with ['/']. *)
Lemma decodeOSCSlow_address (data : Uint8Array) (fuel : nat)
    (addr : jsstring) (args : list OSCArg) :
  decodeOSCSlow fuel data = Some (Ok (addr, args)) -> starts_with_slash addr.
Proof.
  unfold decodeOSCSlow. intros H.
  destruct (negb (Z.rem (byteLength data) 4 =? 0)); [discriminate |].
  destruct (byteLength data <? 8); [discriminate |].
  apply bind_run_Ok in H as ([a pos] & _ & H).
  destruct (charAt0_is_not_slash a) eqn:E; [discriminate |].
  apply bind_run_Ok in H as ([tagstr pos2] & _ & H).
  destruct (negb _); [discriminate |].
  apply bind_run_Ok in H as (args2 & _ & H).
  injection H as <- _.
  destruct a as [| c a]; [discriminate |].
  cbn [charAt0_is_not_slash] in E. apply negb_false_iff, Z.eqb_eq in E.
  subst c. exists a. reflexivity.
Qed.

(** * Further properties of the two codecs *)

(** ** Alignment in the reference codec: [pad] *)

(** X1: [pad(content, minPad)] is the least amount of padding, not below
    [minPad], that brings [content] to a multiple of 4; for every pair of
    integers, negative ones included. *)
Theorem pad_aligns (content minPad : Z) :
  (content + pad content minPad) mod 4 = 0 /\
  minPad <= pad content minPad < minPad + 4.
Proof.
  unfold pad.
  pose proof (Z.rem_bound_abs (content + minPad) 4 ltac:(lia)) as Hb.
  pose proof (Z.quot_rem' (content + minPad) 4) as Hq.
  set (r := Z.rem (content + minPad) 4) in *.
  set (q := Z.quot (content + minPad) 4) in *.
  assert (Hr : -4 < r < 4) by lia.
  rewrite (Z.rem_mod_nonneg (4 - r) 4) by lia.
  pose proof (Z.mod_pos_bound (4 - r) 4 ltac:(lia)).
  split; [| lia].
  Z.to_euclidean_division_equations; lia.
Qed.

(** X2: the two codecs compute the same field lengths: a string of [n]
    bytes with its terminator, and a blob of [n] bytes, end at [align4] of
    their length in the optimized codec and get [pad] bytes more in the
    reference codec. *)
Theorem pad_agrees_with_align4 (n : Z) :
  0 <= n <= 2 ^ 31 - 5 ->
  n + pad n 1 = align4 (n + 1) /\ n + pad n 0 = align4 n.
Proof.
  intros H. split; [apply pad1_align4 | apply pad0_align4]; lia.
Qed.

Lemma pad_agrees_with_align4_witness :
  5 + pad 5 1 = align4 (5 + 1) /\ 5 + pad 5 0 = align4 5.
Proof. apply (pad_agrees_with_align4 5). vm_compute. split; discriminate. Defined.

(** ** Packets that the decoders refuse *)

Lemma index_from_none (x : Z) (l : list Z) (k : Z) :
  Forall (fun b => b <> x) l -> index_from x l k = -1.
Proof.
  intros H. revert k. induction H as [| b l Hb _ IH]; intros k; [reflexivity |].
  cbn [index_from]. destruct (Z.eqb_spec b x) as [E | _]; [contradiction |].
  apply IH.
Qed.

(** X3: [decodeOSC] throws on every packet that holds no NUL byte: one of
    the two length errors, or else the [RangeError] of the view of length
    [-1] that it makes for the address. *)
Theorem decodeOSC_without_nul (data : Uint8Array) :
  Forall (fun b => b <> 0) (elements data) ->
  decodeOSC data = Throw (OSCProtocolError MsgLengthMod4) \/
  decodeOSC data = Throw (OSCProtocolError MsgPacketTooShort) \/
  decodeOSC data = Throw RangeError.
Proof.
  intros H. unfold decodeOSC.
  destruct (negb (Z.rem (byteLength data) 4 =? 0)); [left; reflexivity |].
  destruct (byteLength data <? 8); [right; left; reflexivity |].
  right; right.
  assert (E : indexOf (elements data) ASCII.NULL 0 = -1).
  { unfold indexOf. cbn [Z.ltb Z.compare]. apply index_from_none.
    apply Forall_drop. exact H. }
  rewrite E. unfold new_view. cbn [Z.ltb Z.compare].
  rewrite orb_true_r. reflexivity.
Qed.

Lemma decodeOSC_without_nul_witness :
  let data := Uint8Array_of [47; 97; 97; 97; 97; 97; 97; 97] in
  decodeOSC data = Throw (OSCProtocolError MsgLengthMod4) \/
  decodeOSC data = Throw (OSCProtocolError MsgPacketTooShort) \/
  decodeOSC data = Throw RangeError.
Proof.
  apply (decodeOSC_without_nul (Uint8Array_of [47; 97; 97; 97; 97; 97; 97; 97])).
  vm_compute. repeat constructor; discriminate.
Defined.

(** X4: the length checks come first in both decoders, and are the same:
    a packet whose length is not a multiple of 4, or is below 8 (the empty
    packet is one), is refused with the same error by both, whatever it
    holds. *)
Theorem decoders_refuse_bad_lengths (data : Uint8Array) (fuel : nat) :
  (Z.rem (byteLength data) 4 <> 0 ->
   decodeOSC data = Throw (OSCProtocolError MsgLengthMod4) /\
   decodeOSCSlow fuel data = Some (Throw (OSCProtocolError MsgLengthMod4))) /\
  (Z.rem (byteLength data) 4 = 0 -> byteLength data < 8 ->
   decodeOSC data = Throw (OSCProtocolError MsgPacketTooShort) /\
   decodeOSCSlow fuel data = Some (Throw (OSCProtocolError MsgPacketTooShort))).
Proof.
  unfold decodeOSC, decodeOSCSlow. split.
  - intros H. apply Z.eqb_neq in H. rewrite H. split; reflexivity.
  - intros H L. apply Z.eqb_eq in H. apply Z.ltb_lt in L. rewrite H, L.
    split; reflexivity.
Qed.

(** ** [decodeOSC] on an encoded message, in any view *)

Lemma existsb_false_Forall (s : list Z) :
  existsb (Z.eqb 0) s = false -> Forall (fun y => y <> 0) s.
Proof.
  induction s as [| c s IH]; intros H; [constructor |].
  cbn [existsb] in H. apply orb_false_iff in H as [Hc Hs].
  constructor; [| apply IH; exact Hs].
  apply Z.eqb_neq in Hc. lia.
Qed.

Lemma encode_no_nul (s : jsstring) :
  no_nul s -> Forall (fun y => y <> 0) (TextEncoder_encode s).
Proof. intros H. apply existsb_false_Forall, TextEncoder_encode_no_nul, H. Qed.

(** A view that [decodeOSC] makes inside the view it was given. *)
Lemma new_view_within (data : Uint8Array) (off n : Z) :
  wf_view data -> 0 <= off -> 0 <= n -> off + n <= byteLength data ->
  exists v, new_view (buffer data) (byteOffset data + off) n = Ok v /\
    elements v = take (Z.to_nat n) (drop (Z.to_nat off) (elements data)).
Proof.
  intros (Ho & Hl & Hb) Hoff Hn Hle. unfold new_view.
  destruct (Z.ltb_spec (byteOffset data + off) 0); [lia |].
  destruct (Z.ltb_spec n 0); [lia |].
  destruct (Z.ltb_spec (len (buffer data)) (byteOffset data + off + n)); [lia |].
  cbn [orb]. eexists. split; [reflexivity |].
  unfold elements. cbn [buffer byteOffset byteLength].
  rewrite (take_drop_commute (take _ _)), take_take.
  rewrite Nat.min_l by lia.
  rewrite <- take_drop_commute, drop_drop.
  f_equal. f_equal. lia.
Qed.

Lemma ieee_magnitude_range64 (m x : Z) :
  0 <= m -> 0 <= ieee_magnitude 53 11 m x <= 9218868437227405312.
Proof.
  intros H. unfold ieee_magnitude.
  change (Z.shiftl (2 ^ 11 - 1) (53 - 1)) with 9218868437227405312.
  set (E := Z.log2 m + x). set (emin := 2 - 2 ^ (11 - 1)).
  set (q := Z.max E emin - (53 - 1)).
  assert (0 <= Z.shiftl (Z.max (E - emin) 0) (53 - 1))
    by (apply Z.shiftl_nonneg; lia).
  assert (0 <= (if q <=? x then Z.shiftl m (x - q) else shr_rne m (q - x))).
  { destruct (q <=? x); [apply Z.shiftl_nonneg; exact H |].
    apply shr_rne_nonneg; exact H. }
  lia.
Qed.

Lemma ieee_sign_cases64 (neg : bool) :
  ieee_sign 53 11 neg = 0 \/ ieee_sign 53 11 neg = 9223372036854775808.
Proof. destruct neg; [right | left]; reflexivity. Qed.

(** The binary64 bits of a number are 64 bits. *)
Lemma ieee_encode_range64 (x : number) : 0 <= ieee_encode 53 11 x < 2 ^ 64.
Proof.
  destruct x as [z | | neg | | neg k e].
  - destruct z as [| p | p]; [vm_compute; split; [discriminate | reflexivity] | |];
      unfold ieee_encode;
      match goal with
      | |- context [ieee_sign 53 11 ?b + ieee_magnitude 53 11 ?m ?x] =>
          pose proof (ieee_sign_cases64 b);
          pose proof (ieee_magnitude_range64 m x ltac:(lia))
      end; lia.
  - vm_compute; split; [discriminate | reflexivity].
  - destruct neg; vm_compute; split; (discriminate || reflexivity).
  - vm_compute; split; [discriminate | reflexivity].
  - unfold ieee_encode.
    pose proof (ieee_sign_cases64 neg).
    pose proof (ieee_magnitude_range64 (2 * Z.of_N k + 1) (- Z.pos e) ltac:(lia)).
    lia.
Qed.

Lemma getFloat64_setFloat64 (x : number) (pre post : list Z) :
  getFloat64 (pre ++ be_bytes 8 (ieee_encode 53 11 x) ++ post) (len pre) =
  Ok (ieee_decode 53 11 (ieee_encode 53 11 x)).
Proof.
  unfold getFloat64.
  rewrite dv_get_middle by apply length_be_bytes. unfold bind. rewrite be_value_be_bytes.
  pose proof (ieee_encode_range64 x).
  change (256 ^ Z.of_nat 8) with (2 ^ 64).
  rewrite Z.mod_small by lia. reflexivity.
Qed.

Lemma decodeOSC_case_d (data : Uint8Array) (offset : Z) :
  decodeOSC_case data (Some ASCII.d) offset =
  bind (getFloat64 (elements data) offset)
    (fun x => Ok (Some (Num x), offset + 8)).
Proof. reflexivity. Qed.

(** One turn of the loop of [decodeOSC], at the payload of an argument. *)
Lemma decodeOSC_case_received (use_f64 : bool) (data : Uint8Array) (a : OSCArg)
    (pre post : list Z) :
  wf_view data ->
  elements data = pre ++ payload use_f64 a ++ post ->
  no_nul (as_string a) -> small_arg a ->
  len pre mod 4 = 0 -> len pre + len (payload use_f64 a) <= 2 ^ 31 - 4 ->
  decodeOSC_case data (Some (type_tag use_f64 a)) (len pre) =
  Ok (Some (received use_f64 a), len pre + len (payload use_f64 a)).
Proof.
  intros Hwf Hel Hnn [Hs Hb] Hmod Hle. pose proof (len_nonneg pre) as Hpre.
  pose proof (len_elements data Hwf) as Hbl.
  destruct a as [s | x | b | bs];
    cbn [type_tag payload received as_string as_Uint8Array] in *.
  - (* string *)
    set (e := TextEncoder_encode s) in *.
    pose proof (encode_no_nul s Hnn) as He. fold e in He.
    rewrite decodeOSC_case_s.
    pose proof (len_nonneg e). pose proof (len_nonneg post).
    pose proof (pad1_bounds (len e) ltac:(lia)) as [Hp _].
    rewrite len_string_field in *.
    destruct (string_field_terminated e) as [r Hr]. rewrite Hr in Hel.
    rewrite <- app_assoc in Hel. rewrite <- app_comm_cons in Hel.
    rewrite Hel.
    rewrite indexOf_field by exact He.
    replace (len pre + len e - len pre) with (len e) by lia.
    pose proof (len_nonneg (r ++ post)).
    assert (Hin : len pre + len e <= byteLength data).
    { rewrite <- Hbl, Hel, !len_app, len_cons. lia. }
    destruct (new_view_within data (len pre) (len e) Hwf ltac:(lia) ltac:(lia) Hin)
      as (v & -> & Hv).
    unfold bind. rewrite Hv, Hel, !to_nat_len, take_drop_middle.
    rewrite <- Z.add_assoc, align4_add by lia.
    rewrite <- pad1_align4 by lia. reflexivity.
  - (* number *)
    destruct (isInt x) eqn:Hint.
    + rewrite decodeOSC_case_i, Hel.
      rewrite getInt32_setInt32. unfold bind.
      assert (E : ToInt32 (number_ToInt32 x) = number_ToInt32 x).
      { apply ToInt32_id.
        destruct x as [z | | neg | | neg k e]; cbn [number_ToInt32];
          try apply ToInt32_range; lia. }
      rewrite E, len_be_bytes. reflexivity.
    + destruct use_f64.
      * rewrite decodeOSC_case_d, Hel.
        rewrite getFloat64_setFloat64. unfold bind.
        rewrite len_be_bytes. reflexivity.
      * rewrite decodeOSC_case_f, Hel.
        rewrite getFloat32_setFloat32. unfold bind.
        rewrite len_be_bytes. reflexivity.
  - (* boolean *)
    change (len []) with 0. rewrite Z.add_0_r. destruct b; reflexivity.
  - (* blob *)
    pose proof (len_nonneg bs).
    pose proof (pad0_bounds (len bs) ltac:(lia)) as [Hp _].
    rewrite !len_app, len_be_bytes, len_replicate in * by lia.
    rewrite decodeOSC_case_b, Hel.
    rewrite <- !app_assoc.
    rewrite getInt32_setInt32. unfold bind.
    rewrite !ToInt32_id by (try rewrite ToInt32_id; lia).
    set (hd := be_bytes 4 (len bs)).
    assert (Hhd : len hd = 4) by apply len_be_bytes.
    rewrite (app_assoc pre hd).
    replace (len pre + 4) with (len (pre ++ hd)) by (rewrite len_app; lia).
    rewrite slice_middle.
    rewrite len_app, Hhd. rewrite <- pad0_align4 by lia.
    f_equal. f_equal. change (Z.of_nat 4) with 4. lia.
Qed.

(** The loop of [decodeOSC], when the view holds the payloads of [rest]
    from the cursor on and their tags from [tbase + len done] on. *)
Lemma decodeOSC_loop_received (use_f64 : bool) (data : Uint8Array)
    (tbase : Z) (post : list Z) (rest : list OSCArg) :
  forall (done : list OSCArg) (pre : list Z),
    wf_view data ->
    elements data = pre ++ flat_map (payload use_f64) rest ++ post ->
    (forall (i : nat) (a : OSCArg),
       rest !! i = Some a ->
       get (elements data) (tbase + len done + Z.of_nat i) =
         Some (type_tag use_f64 a)) ->
    Forall (fun a => no_nul (as_string a)) rest -> Forall small_arg rest ->
    len pre mod 4 = 0 ->
    len pre + len (flat_map (payload use_f64) rest) <= 2 ^ 31 - 4 ->
    decodeOSC_loop data (length rest) (length done)
      (tbase + len done) (len pre)
      (map Some done ++ replicate (length rest) None) =
    Ok (map Some (done ++ map (received use_f64) rest)).
Proof.
  induction rest as [| a rest IH];
    intros done pre Hwf HW Htags Hnn Hsmall Hmod Hlen.
  - cbn [length decodeOSC_loop replicate map]. rewrite !app_nil_r. reflexivity.
  - pose proof (Forall_inv Hnn) as Hn1. pose proof (Forall_inv_tail Hnn) as Hn2.
    pose proof (Forall_inv Hsmall) as Hs1.
    pose proof (Forall_inv_tail Hsmall) as Hs2.
    cbn [length decodeOSC_loop].
    pose proof (Htags 0%nat a eq_refl) as Htag. rewrite Z.add_0_r in Htag.
    rewrite Htag.
    cbn [flat_map] in HW, Hlen. rewrite len_app in Hlen.
    pose proof (len_nonneg pre). pose proof (len_nonneg (payload use_f64 a)).
    pose proof (len_nonneg (flat_map (payload use_f64) rest)).
    rewrite <- app_assoc in HW.
    rewrite (decodeOSC_case_received use_f64 data a pre
               (flat_map (payload use_f64) rest ++ post))
      by (try assumption; lia).
    unfold bind at 1. cbv beta iota.
    rewrite insert_app_r_alt by (rewrite length_map; lia).
    rewrite length_map, Nat.sub_diag. cbn [replicate insert list_insert].
    specialize (IH (done ++ [received use_f64 a]) (pre ++ payload use_f64 a)).
    rewrite !len_app in IH. rewrite map_app, length_app in IH.
    cbn [length map len] in IH.
    replace (length done + 1)%nat with (S (length done)) in IH by lia.
    replace (tbase + (len done + len [received use_f64 a]))
      with (tbase + len done + 1) in IH
      by (rewrite len_cons; change (len []) with 0; lia).
    rewrite <- !app_assoc in IH. cbn [app] in IH.
    cbn [map]. rewrite IH; [reflexivity | assumption | | | assumption | assumption | | lia].
    + rewrite HW. reflexivity.
    + intros i b Hb.
      specialize (Htags (S i) b Hb).
      rewrite <- Htags. f_equal. lia.
    + pose proof (len_payload use_f64 a). Z.to_euclidean_division_equations; lia.
Qed.

Lemma type_tags_no_nul' (use_f64 : bool) (args : list OSCArg) :
  Forall (fun y => y <> 0) (ASCII.COMMA :: map (type_tag use_f64) args).
Proof. apply (ascii_text_no_nul _ (type_tags_ascii use_f64 args)). Qed.

Lemma no_nul_strings_args (args : list OSCArg) :
  Forall no_nul (strings_of args) ->
  Forall (fun a => no_nul (as_string a)) args.
Proof.
  induction args as [| a args IH]; intros H; [constructor |].
  rewrite strings_of_cons in H.
  destruct a as [s | x | b | bs]; cbn [app] in H.
  - constructor; [exact (Forall_inv H) | apply IH; exact (Forall_inv_tail H)].
  - constructor; [constructor | apply IH; exact H].
  - constructor; [constructor | apply IH; exact H].
  - constructor; [constructor | apply IH; exact H].
Qed.

(** [decodeOSC] on a view that starts with an encoded message. *)
Lemma decodeOSC_received (use_f64 : bool) (data : Uint8Array)
    (addr : jsstring) (args : list OSCArg) (post : list Z) :
  wf_view data ->
  elements data = OSC_packet use_f64 addr args ++ post ->
  len post mod 4 = 0 ->
  no_nul addr -> Forall no_nul (strings_of args) ->
  short_packet use_f64 addr args ->
  decodeOSC data =
  Ok (TextDecoder_decode (TextEncoder_encode addr),
      map (fun a => Some (received use_f64 a)) args).
Proof.
  intros Hwf Hel Hpost Haddr Hargs Hfit.
  destruct (short_packet_parts use_f64 addr args Hfit) as (HA & HT & Htot & Hsmall).
  pose proof (len_OSC_packet use_f64 addr args) as [HWm HW8].
  pose proof (len_elements data Hwf) as Hbl.
  pose proof (encode_no_nul addr Haddr) as HeA.
  unfold OSC_packet in *.
  set (e := TextEncoder_encode addr) in *.
  set (tags := map (type_tag use_f64) args) in *.
  set (P := flat_map (payload use_f64) args) in *.
  set (W := string_field e ++ string_field (ASCII.COMMA :: tags) ++ P) in *.
  pose proof (len_nonneg e). pose proof (len_nonneg args). pose proof (len_nonneg P).
  pose proof (len_nonneg post).
  pose proof (string_field_mod4 e) as [HAm _].
  pose proof (string_field_mod4 (ASCII.COMMA :: tags)) as [HTm _].
  pose proof (len_string_field e) as HAe.
  pose proof (len_string_field (ASCII.COMMA :: tags)) as HTe.
  rewrite len_cons in HTe. unfold tags in HTe at 2 3. rewrite len_map in HTe.
  pose proof (pad1_bounds (len e) ltac:(lia)) as [HpA _].
  pose proof (pad1_bounds (1 + len args) ltac:(lia)) as [HpT _].
  assert (HlenW : len W = len (string_field e) +
                          len (string_field (ASCII.COMMA :: tags)) + len P)
    by (unfold W; rewrite !len_app; lia).
  assert (Hlen : byteLength data = len W + len post)
    by (rewrite <- Hbl, Hel, len_app; reflexivity).
  unfold decodeOSC.
  rewrite Z.rem_mod_nonneg by lia.
  assert (Hm : byteLength data mod 4 = 0)
    by (rewrite Hlen; Z.to_euclidean_division_equations; lia).
  rewrite Hm. cbn [Z.eqb negb].
  destruct (Z.ltb_spec (byteLength data) 8); [lia |].
  (* the address *)
  destruct (string_field_terminated e) as [rA HrA].
  assert (Hend : indexOf (elements data) ASCII.NULL 0 = len e).
  { pose proof (indexOf_field [] e
                  (rA ++ (string_field (ASCII.COMMA :: tags) ++ P) ++ post) HeA) as E.
    cbn [app] in E. change (len []) with 0 in E. rewrite Z.add_0_l in E.
    rewrite <- E. rewrite Hel. unfold W. rewrite HrA.
    rewrite <- !app_assoc. reflexivity. }
  rewrite Hend.
  destruct (new_view_within data 0 (len e) Hwf ltac:(lia) ltac:(lia) ltac:(lia))
    as (v & Hv & Helems).
  rewrite Z.add_0_r in Hv. rewrite Hv. unfold bind at 1.
  assert (Hve : elements v = e).
  { rewrite Helems, Hel. unfold W. rewrite HrA. cbn [Z.to_nat drop].
    rewrite <- !app_assoc. rewrite to_nat_len. apply take_app_length. }
  rewrite Hve.
  (* the type tags *)
  assert (Hstart : align4 (len e + 1) = len (string_field e))
    by (rewrite HAe; symmetry; apply pad1_align4; lia).
  rewrite Hstart.
  destruct (string_field_terminated (ASCII.COMMA :: tags)) as [rT HrT].
  assert (Htt_end : indexOf (elements data) ASCII.NULL (len (string_field e)) =
                    len (string_field e) + (1 + len args)).
  { rewrite Hel. unfold W.
    replace ((string_field e ++ string_field (ASCII.COMMA :: tags) ++ P) ++ post)
      with (string_field e ++ (ASCII.COMMA :: tags) ++ 0 :: (rT ++ P ++ post))
      by (rewrite HrT, <- !app_assoc; reflexivity).
    rewrite indexOf_field by apply type_tags_no_nul'.
    rewrite len_cons. unfold tags. rewrite len_map. reflexivity. }
  rewrite Htt_end.
  assert (Hcomma : get (elements data) (len (string_field e)) = Some ASCII.COMMA).
  { rewrite Hel. unfold W. rewrite HrT. rewrite <- !app_assoc. cbn [app].
    apply get_middle. }
  rewrite Hcomma. cbn [option_eqb]. rewrite Z.eqb_refl. cbn [negb].
  replace (len (string_field e) + (1 + len args) - len (string_field e) - 1)
    with (len args) by lia.
  unfold new_Array.
  destruct (Z.ltb_spec (len args) 0); [lia |].
  destruct (Z.leb_spec (2 ^ 32) (len args)); [lia |].
  cbn [orb]. unfold bind at 1.
  replace (len (string_field e) + (1 + len args) - (len (string_field e) + 1))
    with (len args) by lia.
  rewrite to_nat_len.
  assert (Hoff : align4 (len (string_field e) + (1 + len args) + 1) =
                 len (string_field e ++ string_field (ASCII.COMMA :: tags))).
  { rewrite len_app, HTe. rewrite <- Z.add_assoc, align4_add by lia.
    f_equal. symmetry. apply pad1_align4. lia. }
  rewrite Hoff.
  pose proof (decodeOSC_loop_received use_f64 data (len (string_field e) + 1) post
                args [] (string_field e ++ string_field (ASCII.COMMA :: tags)))
    as Hloop.
  cbn [length map app] in Hloop. change (len []) with 0 in Hloop.
  rewrite Z.add_0_r in Hloop.
  rewrite Hloop; [| assumption | | | | assumption | | ].
  - unfold bind. rewrite map_map. reflexivity.
  - rewrite Hel. unfold W. fold P. rewrite <- !app_assoc. reflexivity.
  - intros i a Ha.
    rewrite Hel. unfold W.
    replace ((string_field e ++ string_field (ASCII.COMMA :: tags) ++ P) ++ post)
      with ((string_field e ++ [ASCII.COMMA]) ++ tags ++ 0 :: (rT ++ P ++ post))
      by (rewrite HrT; rewrite <- !app_assoc; reflexivity).
    replace (len (string_field e) + 1)
      with (len (string_field e ++ [ASCII.COMMA]))
      by (rewrite len_app; reflexivity).
    rewrite get_app_r.
    rewrite lookup_app_l
      by (unfold tags; rewrite length_map; apply (lookup_lt_Some _ _ _ Ha)).
    apply lookup_map_Some. exact Ha.
  - apply no_nul_strings_args. exact Hargs.
  - rewrite len_app. Z.to_euclidean_division_equations; lia.
  - fold P. rewrite len_app. lia.
Qed.

(** ** [encodeOSC] with enough [oversize] *)

(** [encodeInto] writes the whole string when the destination has room
    for its UTF-8 bytes. *)
Lemma encodeInto_values_fits (cps : list Z) :
  forall avail : Z,
    len (flat_map utf8_bytes cps) <= avail ->
    encodeInto_values cps avail = flat_map utf8_bytes cps.
Proof.
  induction cps as [| cp cps IH]; intros avail H; [reflexivity |].
  cbn [encodeInto_values flat_map] in *. rewrite len_app in H.
  pose proof (len_nonneg (flat_map utf8_bytes cps)).
  fold (len (utf8_bytes cp)).
  destruct (Z.leb_spec (len (utf8_bytes cp)) avail); [| lia].
  rewrite IH by lia. reflexivity.
Qed.

Lemma TextEncoder_encodeInto_fits (s : jsstring) (avail : Z) :
  len (TextEncoder_encode s) <= avail ->
  TextEncoder_encodeInto s avail = TextEncoder_encode s.
Proof. apply encodeInto_values_fits. Qed.

(** A string, as [encodeOSC] writes it when the buffer has room. *)
Lemma encodeOSC_case_text (use_f64 : bool) (s : jsstring) (pre : list Z) (k : Z) :
  small_arg (Str s) -> len (payload use_f64 (Str s)) <= k ->
  encodeOSC_case (type_tag use_f64 (Str s)) (Str s)
    (pre ++ replicate (Z.to_nat k) 0) (len pre) =
  Ok ((pre ++ payload use_f64 (Str s)) ++
        replicate (Z.to_nat (k - len (payload use_f64 (Str s)))) 0,
      len pre + len (payload use_f64 (Str s))).
Proof.
  intros [Hs _] Hk. cbn [as_string type_tag payload] in *.
  set (e := TextEncoder_encode s) in *.
  pose proof (pad1_bounds (len e) (len_nonneg _)) as [Hp _].
  pose proof (len_nonneg e). pose proof (len_nonneg pre).
  rewrite len_string_field in *.
  change (encodeOSC_case ASCII.s (Str s) ?p ?o)
    with (if (o <? 0) || (len p <? o) then Throw RangeError
          else Ok (splice p (Z.to_nat o) (TextEncoder_encodeInto s (len p - o)),
                   o + align4 (len (TextEncoder_encodeInto s (len p - o)) + 1))).
  rewrite len_app, len_replicate by lia.
  destruct (Z.ltb_spec (len pre) 0); [lia |].
  destruct (Z.ltb_spec (len pre + k) (len pre)); [lia |].
  cbn [orb].
  rewrite TextEncoder_encodeInto_fits by (fold e; lia). fold e.
  rewrite to_nat_len, splice_zeros by lia.
  rewrite <- pad1_align4 by lia.
  f_equal. f_equal.
  rewrite (zeros_split (pad (len e) 1) (k - len e)) by lia.
  unfold string_field. rewrite <- !app_assoc. do 5 f_equal. lia.
Qed.

Lemma encodeOSC_write_text (use_f64 : bool) (args : list OSCArg) :
  forall (pre : list Z) (k : Z),
    Forall small_arg args ->
    len (flat_map (payload use_f64) args) <= k ->
    encodeOSC_write (map (type_tag use_f64) args) args
      (pre ++ replicate (Z.to_nat k) 0) (len pre) =
    Ok ((pre ++ flat_map (payload use_f64) args) ++
          replicate (Z.to_nat (k - len (flat_map (payload use_f64) args))) 0,
        len pre + len (flat_map (payload use_f64) args)).
Proof.
  induction args as [| a args IH]; intros pre k Hs Hk.
  - cbn [map encodeOSC_write flat_map]. change (len []) with 0.
    rewrite app_nil_r, Z.sub_0_r, Z.add_0_r. reflexivity.
  - pose proof (Forall_inv Hs) as Hs1. pose proof (Forall_inv_tail Hs) as Hs2.
    cbn [flat_map] in *. rewrite len_app in *.
    pose proof (len_nonneg (payload use_f64 a)).
    pose proof (len_nonneg (flat_map (payload use_f64) args)).
    cbn [map encodeOSC_write].
    assert (E : encodeOSC_case (type_tag use_f64 a) a
                  (pre ++ replicate (Z.to_nat k) 0) (len pre) =
                Ok ((pre ++ payload use_f64 a) ++
                      replicate (Z.to_nat (k - len (payload use_f64 a))) 0,
                    len pre + len (payload use_f64 a))).
    { destruct a as [s | x | b | bs].
      - apply encodeOSC_case_text; [assumption | lia].
      - apply encodeOSC_case_other; [exact I | assumption | lia].
      - apply encodeOSC_case_other; [exact I | assumption | lia].
      - apply encodeOSC_case_other; [exact I | assumption | lia]. }
    rewrite E. unfold bind at 1. cbv beta iota.
    rewrite <- len_app. rewrite IH by (try assumption; lia).
    rewrite len_app. f_equal. f_equal; [| lia].
    rewrite <- !app_assoc. do 4 f_equal. lia.
Qed.

(** [encodeOSC] on any text, when the buffer that it allocates is at least
    as long as the packet. *)
Lemma encodeOSC_roomy (addr : jsstring) (args : list OSCArg)
    (options : option OSCEncoderOptions) :
  short_packet (get_f64 options) addr args ->
  len (OSC_packet (get_f64 options) addr args) <=
    encodeOSC_packet_size (get_f64 options) addr args + get_oversize options ->
  encodeOSC addr args options =
  Ok {| buffer := OSC_packet (get_f64 options) addr args ++
                  replicate (Z.to_nat
                    (encodeOSC_packet_size (get_f64 options) addr args +
                     get_oversize options -
                     len (OSC_packet (get_f64 options) addr args))) 0;
        byteOffset := 0;
        byteLength := len (OSC_packet (get_f64 options) addr args) |}.
Proof.
  intros Hfit. unfold encodeOSC, encodeOSC_packet_size, OSC_packet.
  set (use_f64 := get_f64 options). set (ov := get_oversize options) in *.
  destruct (short_packet_parts use_f64 addr args Hfit) as (HA & HT & Htot & Hsmall).
  rewrite encodeOSC_sizing_spec. cbn [snd]. cbv beta iota.
  set (K := align4 (len addr + 1) + align4 (len args + 2) +
            sum_sizes (arg_size use_f64) args + ov).
  set (e := TextEncoder_encode addr) in *.
  set (tags := map (type_tag use_f64) args) in *.
  set (P := flat_map (payload use_f64) args) in *.
  rewrite !len_app. intros HK.
  pose proof (len_nonneg e). pose proof (len_nonneg args). pose proof (len_nonneg P).
  pose proof (string_field_mod4 e) as [HAm _].
  pose proof (len_string_field e) as HAe.
  pose proof (len_string_field (ASCII.COMMA :: tags)) as HTe.
  rewrite len_cons in HTe. unfold tags in HTe at 2 3. rewrite len_map in HTe.
  pose proof (pad1_bounds (len e) ltac:(lia)) as [HpE _].
  assert (Hstart : align4 (len e + 1) = len (string_field e))
    by (rewrite HAe; symmetry; apply pad1_align4; lia).
  assert (Htt : align4 (len args + 2) = len (string_field (ASCII.COMMA :: tags))).
  { rewrite HTe. symmetry.
    replace (len args + 2) with ((1 + len args) + 1) by lia.
    apply pad1_align4. lia. }
  rewrite new_Uint8Array_Ok by lia. unfold bind at 1.
  rewrite len_replicate by lia.
  rewrite TextEncoder_encodeInto_fits by (fold e; lia). fold e.
  rewrite Hstart.
  change 0%nat with (length (@nil Z)).
  rewrite <- (app_nil_l (replicate _ 0)) at 1.
  rewrite splice_zeros by lia. cbn [app].
  set (A := len (string_field e)) in *.
  set (T := len (string_field (ASCII.COMMA :: tags))) in *.
  rewrite (zeros_split (pad (len e) 1) (K - len e)) by lia.
  rewrite app_assoc. fold (string_field e).
  replace (K - len e - pad (len e) 1) with (K - A) by lia.
  subst A T. rewrite header_written by lia. unfold bind at 1.
  replace (len tags) with (len args) by (unfold tags; rewrite len_map; reflexivity).
  replace (align4 (len (string_field e) + len args + 2))
    with (len (string_field e) + align4 (len args + 2))
    by (rewrite <- align4_add by lia; f_equal; lia).
  rewrite Htt.
  rewrite <- len_app. subst tags P.
  rewrite encodeOSC_write_text by (try assumption; lia).
  unfold bind.
  rewrite !len_app, len_replicate by lia.
  match goal with
  | |- context [?a <? ?b] => destruct (Z.ltb_spec a b); [lia |]
  end.
  unfold new_view.
  rewrite !len_app, len_replicate by lia.
  match goal with
  | |- context [(0 <? 0) || (?n <? 0) || (?a <? ?b)] =>
      destruct (Z.ltb_spec n 0); [lia |];
      destruct (Z.ltb_spec a b); [lia |]
  end.
  cbn [orb Z.ltb Z.compare]. rewrite <- !app_assoc.
  f_equal. f_equal; [| lia]. do 5 f_equal. lia.
Qed.

(** ** Text through [TextEncoder] and [TextDecoder] *)

Lemma land_plus (base x n : Z) :
  0 <= n -> base mod 2 ^ n = 0 -> 0 <= x < 2 ^ n ->
  Z.land (base + x) (2 ^ n - 1) = x.
Proof.
  intros Hn Hb Hx. rewrite land_low_bits by exact Hn.
  rewrite Z.add_mod by lia. rewrite Hb, Z.add_0_l, Z.mod_mod by lia.
  apply Z.mod_small. exact Hx.
Qed.

Lemma land_continuation (x : Z) : 0 <= x < 64 -> Z.land (0x80 + x) 0x3F = x.
Proof. intros H. apply (land_plus 0x80 x 6); [lia | reflexivity | lia]. Qed.

Lemma land_lead2 (x : Z) : 0 <= x < 32 -> Z.land (0xC0 + x) 0x1F = x.
Proof. intros H. apply (land_plus 0xC0 x 5); [lia | reflexivity | lia]. Qed.

Lemma land_lead3 (x : Z) : 0 <= x < 16 -> Z.land (0xE0 + x) 0xF = x.
Proof. intros H. apply (land_plus 0xE0 x 4); [lia | reflexivity | lia]. Qed.

Lemma land_lead4 (x : Z) : 0 <= x < 8 -> Z.land (0xF0 + x) 0x7 = x.
Proof. intros H. apply (land_plus 0xF0 x 3); [lia | reflexivity | lia]. Qed.

(** The decoder reads the UTF-8 bytes of a scalar value as that value. *)
Lemma utf8_decode_utf8_bytes (cp : Z) (rest : list Z) :
  scalar_value cp ->
  utf8_decode utf8_idle (utf8_bytes cp ++ rest) =
  cp :: utf8_decode utf8_idle rest.
Proof.
  intros [Hr Hs]. unfold utf8_bytes.
  destruct (Z.ltb_spec cp 0x80) as [H1 | H1].
  { cbn [app utf8_decode utf8_idle Z.eqb]. unfold utf8_lead.
    destruct (Z.leb_spec cp 0x7F); [reflexivity | lia]. }
  destruct (Z.ltb_spec cp 0x800) as [H2 | H2].
  { pose proof (Z.div_mod cp 64 ltac:(lia)) as Hd.
    pose proof (Z.mod_pos_bound cp 64 ltac:(lia)) as Hm.
    set (q := cp / 64) in *. set (r := cp mod 64) in *.
    cbn [app]. cbn [utf8_decode utf8_idle Z.eqb]. unfold utf8_lead.
    destruct (Z.leb_spec (0xC0 + q) 0x7F); [lia |].
    destruct (Z.leb_spec 0xC2 (0xC0 + q)); [| lia].
    destruct (Z.leb_spec (0xC0 + q) 0xDF); [| lia].
    cbn [andb app]. cbn [utf8_decode Z.eqb].
    destruct (Z.leb_spec 0x80 (0x80 + r)); [| lia].
    destruct (Z.leb_spec (0x80 + r) 0xBF); [| lia].
    cbn [andb].
    rewrite land_lead2, land_continuation by lia.
    f_equal. lia. }
  destruct (Z.ltb_spec cp 0x10000) as [H3 | H3].
  { pose proof (Z.div_mod cp 64 ltac:(lia)) as Hd.
    pose proof (Z.mod_pos_bound cp 64 ltac:(lia)) as Hm.
    pose proof (Z.div_mod (cp / 64) 64 ltac:(lia)) as Hd2.
    pose proof (Z.mod_pos_bound (cp / 64) 64 ltac:(lia)) as Hm2.
    assert (E : cp / 4096 = cp / 64 / 64)
      by (rewrite Z.div_div by lia; reflexivity).
    rewrite E.
    set (q := cp / 64) in *. set (r := cp mod 64) in *.
    set (q2 := q / 64) in *. set (r2 := q mod 64) in *.
    cbn [app]. cbn [utf8_decode utf8_idle Z.eqb]. unfold utf8_lead.
    destruct (Z.leb_spec (0xE0 + q2) 0x7F); [lia |].
    destruct (Z.leb_spec 0xC2 (0xE0 + q2)); [| lia].
    destruct (Z.leb_spec (0xE0 + q2) 0xDF); [lia |].
    destruct (Z.leb_spec 0xE0 (0xE0 + q2)); [| lia].
    destruct (Z.leb_spec (0xE0 + q2) 0xEF); [| lia].
    cbn [andb app]. cbn [utf8_decode Z.eqb].
    destruct (Z.eqb_spec (0xE0 + q2) 0xE0); destruct (Z.eqb_spec (0xE0 + q2) 0xED);
      try lia;
      match goal with
      | |- context [(?lo <=? 0x80 + r2) && (0x80 + r2 <=? ?hi)] =>
          destruct (Z.leb_spec lo (0x80 + r2)); [| lia];
          destruct (Z.leb_spec (0x80 + r2) hi); [| lia]
      end;
      cbn [andb Z.sub Z.eqb Z.pos_sub Pos.pred_double];
      cbn [utf8_decode Z.eqb];
      (destruct (Z.leb_spec 0x80 (0x80 + r)); [| lia]);
      (destruct (Z.leb_spec (0x80 + r) 0xBF); [| lia]);
      cbn [andb];
      rewrite land_lead3, !land_continuation by lia;
      f_equal; lia. }
  { pose proof (Z.div_mod cp 64 ltac:(lia)) as Hd.
    pose proof (Z.mod_pos_bound cp 64 ltac:(lia)) as Hm.
    pose proof (Z.div_mod (cp / 64) 64 ltac:(lia)) as Hd2.
    pose proof (Z.mod_pos_bound (cp / 64) 64 ltac:(lia)) as Hm2.
    pose proof (Z.div_mod (cp / 64 / 64) 64 ltac:(lia)) as Hd3.
    pose proof (Z.mod_pos_bound (cp / 64 / 64) 64 ltac:(lia)) as Hm3.
    assert (E : cp / 4096 = cp / 64 / 64)
      by (rewrite Z.div_div by lia; reflexivity).
    assert (E' : cp / 262144 = cp / 64 / 64 / 64)
      by (rewrite !Z.div_div by lia; reflexivity).
    rewrite E, E'.
    set (q := cp / 64) in *. set (r := cp mod 64) in *.
    set (q2 := q / 64) in *. set (r2 := q mod 64) in *.
    set (q3 := q2 / 64) in *. set (r3 := q2 mod 64) in *.
    cbn [app]. cbn [utf8_decode utf8_idle Z.eqb]. unfold utf8_lead.
    destruct (Z.leb_spec (0xF0 + q3) 0x7F); [lia |].
    destruct (Z.leb_spec 0xC2 (0xF0 + q3)); [| lia].
    destruct (Z.leb_spec (0xF0 + q3) 0xDF); [lia |].
    destruct (Z.leb_spec 0xE0 (0xF0 + q3)); [| lia].
    destruct (Z.leb_spec (0xF0 + q3) 0xEF); [lia |].
    destruct (Z.leb_spec 0xF0 (0xF0 + q3)); [| lia].
    destruct (Z.leb_spec (0xF0 + q3) 0xF4); [| lia].
    cbn [andb app]. cbn [utf8_decode Z.eqb].
    destruct (Z.eqb_spec (0xF0 + q3) 0xF0); destruct (Z.eqb_spec (0xF0 + q3) 0xF4);
      try lia;
      match goal with
      | |- context [(?lo <=? 0x80 + r3) && (0x80 + r3 <=? ?hi)] =>
          destruct (Z.leb_spec lo (0x80 + r3)); [| lia];
          destruct (Z.leb_spec (0x80 + r3) hi); [| lia]
      end;
      cbn [andb Z.sub Z.eqb Z.pos_sub Pos.pred_double];
      cbn [utf8_decode Z.eqb];
      (destruct (Z.leb_spec 0x80 (0x80 + r2)); [| lia]);
      (destruct (Z.leb_spec (0x80 + r2) 0xBF); [| lia]);
      cbn [andb Z.sub Z.eqb Z.pos_sub Pos.pred_double];
      cbn [utf8_decode Z.eqb];
      (destruct (Z.leb_spec 0x80 (0x80 + r)); [| lia]);
      (destruct (Z.leb_spec (0x80 + r) 0xBF); [| lia]);
      cbn [andb];
      rewrite land_lead4, !land_continuation by lia;
      f_equal; lia. }
Qed.

Lemma utf8_decode_encode (cps : list Z) :
  Forall scalar_value cps ->
  utf8_decode utf8_idle (flat_map utf8_bytes cps) = cps.
Proof.
  induction 1 as [| cp cps Hcp _ IH]; [reflexivity |].
  cbn [flat_map]. rewrite utf8_decode_utf8_bytes by exact Hcp.
  rewrite IH. reflexivity.
Qed.

(** Only U+FEFF is encoded as the byte order mark. *)
Lemma strip_bom_utf8_bytes (cp : Z) (rest : list Z) :
  scalar_value cp -> cp <> 0xFEFF ->
  strip_bom (utf8_bytes cp ++ rest) = utf8_bytes cp ++ rest.
Proof.
  intros [Hr Hs] Hne. unfold utf8_bytes.
  destruct (Z.ltb_spec cp 0x80) as [H1 | H1].
  { cbn [app]. destruct rest as [| b2 [| b3 rest]]; try reflexivity.
    cbn [strip_bom]. destruct (Z.eqb_spec cp 0xEF); [lia | reflexivity]. }
  destruct (Z.ltb_spec cp 0x800) as [H2 | H2].
  { cbn [app]. destruct rest as [| b3 rest]; try reflexivity.
    cbn [strip_bom].
    destruct (Z.eqb_spec (0xC0 + cp / 64) 0xEF) as [E | E]; [| reflexivity].
    exfalso. Z.to_euclidean_division_equations; lia. }
  destruct (Z.ltb_spec cp 0x10000) as [H3 | H3].
  { cbn [app strip_bom].
    destruct (Z.eqb_spec (0xE0 + cp / 4096) 0xEF) as [E1 | E1]; [| reflexivity].
    destruct (Z.eqb_spec (0x80 + (cp / 64) mod 64) 0xBB) as [E2 | E2];
      [| reflexivity].
    destruct (Z.eqb_spec (0x80 + cp mod 64) 0xBF) as [E3 | E3]; [| reflexivity].
    exfalso. apply Hne.
    pose proof (Z.div_mod cp 64 ltac:(lia)).
    pose proof (Z.div_mod (cp / 64) 64 ltac:(lia)).
    assert (E : cp / 4096 = cp / 64 / 64)
      by (rewrite Z.div_div by lia; reflexivity).
    lia. }
  { cbn [app strip_bom].
    destruct (Z.eqb_spec (0xF0 + cp / 262144) 0xEF) as [E | E]; [| reflexivity].
    exfalso. Z.to_euclidean_division_equations; lia. }
Qed.

Lemma isWellFormed_pair (c c' : Z) (s : jsstring) :
  isWellFormed (c :: c' :: s) =
  if is_high_surrogate c then is_low_surrogate c' && isWellFormed s
  else negb (is_low_surrogate c) && (0 <=? c) && (c <? 0x10000) &&
       isWellFormed (c' :: s).
Proof. reflexivity. Qed.

Lemma scalar_values_pair (c c' : Z) (s : jsstring) :
  scalar_values (c :: c' :: s) =
  if is_high_surrogate c then
    if is_low_surrogate c'
    then (0x10000 + (c - 0xD800) * 0x400 + (c' - 0xDC00)) :: scalar_values s
    else 0xFFFD :: scalar_values (c' :: s)
  else if is_low_surrogate c then 0xFFFD :: scalar_values (c' :: s)
  else c :: scalar_values (c' :: s).
Proof. reflexivity. Qed.

(** A code unit that is not a surrogate is a scalar value of its own. *)
Lemma scalar_values_unit (c : Z) (s : jsstring) :
  is_high_surrogate c = false -> is_low_surrogate c = false ->
  scalar_values (c :: s) = c :: scalar_values s.
Proof. intros Hh Hl. cbn [scalar_values]. rewrite Hh, Hl. reflexivity. Qed.

Lemma surrogate_bounds (c : Z) :
  (is_high_surrogate c = true <-> 0xD800 <= c <= 0xDBFF) /\
  (is_low_surrogate c = true <-> 0xDC00 <= c <= 0xDFFF).
Proof.
  unfold is_high_surrogate, is_low_surrogate.
  rewrite !andb_true_iff, !Z.leb_le. tauto.
Qed.

(** The scalar values of well-formed text, and their code units. *)
Lemma scalar_values_wf (s : jsstring) :
  isWellFormed s = true ->
  Forall scalar_value (scalar_values s) /\
  flat_map utf16_units (scalar_values s) = s.
Proof.
  induction s as [| c | c c' s IH1 IH2] using jsstring_pair_ind; intros H.
  - split; [constructor | reflexivity].
  - cbn [isWellFormed] in H.
    destruct (is_high_surrogate c) eqn:Hh; [discriminate |].
    rewrite !andb_true_iff in H. destruct H as [[[Hl H0] H1] _].
    apply negb_true_iff in Hl. apply Z.leb_le in H0. apply Z.ltb_lt in H1.
    rewrite scalar_values_unit by assumption. cbn [scalar_values flat_map].
    split.
    + constructor; [| constructor]. split; [lia |]. intros Hc.
      assert (0xD800 <= c <= 0xDBFF \/ 0xDC00 <= c <= 0xDFFF) as [X | X] by lia.
      * apply (proj1 (surrogate_bounds c)) in X. congruence.
      * apply (proj2 (surrogate_bounds c)) in X. congruence.
    + unfold utf16_units. destruct (Z.ltb_spec c 0x10000); [reflexivity | lia].
  - rewrite isWellFormed_pair in H. rewrite scalar_values_pair.
    destruct (is_high_surrogate c) eqn:Hh.
    + apply andb_true_iff in H as [Hl' Hs]. rewrite Hl'.
      destruct (IH1 Hs) as [F E].
      apply (proj1 (surrogate_bounds c)) in Hh.
      apply (proj2 (surrogate_bounds c')) in Hl'.
      split.
      * constructor; [| exact F]. split; lia.
      * cbn [flat_map]. rewrite E. unfold utf16_units.
        set (cp := 0x10000 + (c - 0xD800) * 0x400 + (c' - 0xDC00)).
        destruct (Z.ltb_spec cp 0x10000); [unfold cp in *; lia |].
        cbn [app]. f_equal; [| f_equal];
          unfold cp; Z.to_euclidean_division_equations; lia.
    + rewrite !andb_true_iff in H. destruct H as [[[Hl H0] H1] Hs].
      apply negb_true_iff in Hl. apply Z.leb_le in H0. apply Z.ltb_lt in H1.
      rewrite Hl. destruct (IH2 Hs) as [F E].
      split.
      * constructor; [| exact F]. split; [lia |]. intros Hc.
        assert (0xD800 <= c <= 0xDBFF \/ 0xDC00 <= c <= 0xDFFF) as [X | X] by lia.
        -- apply (proj1 (surrogate_bounds c)) in X. congruence.
        -- apply (proj2 (surrogate_bounds c)) in X. congruence.
      * cbn [flat_map]. rewrite E. unfold utf16_units.
        destruct (Z.ltb_spec c 0x10000); [reflexivity | lia].
Qed.

(** Well-formed text comes back from its UTF-8 bytes, without a leading
    byte order mark. *)
Lemma text_roundtrip (s : jsstring) :
  isWellFormed s = true ->
  TextDecoder_decode (TextEncoder_encode s) = without_BOM s.
Proof.
  intros Hwf. unfold TextDecoder_decode, TextEncoder_encode, without_BOM.
  destruct (scalar_values_wf s Hwf) as [F E].
  destruct s as [| c s]; [reflexivity |].
  cbn [starts_with_BOM tail].
  destruct (Z.eqb_spec c 0xFEFF) as [-> | Hne].
  - rewrite scalar_values_unit in * by reflexivity.
    cbn [flat_map] in *.
    assert (B : utf8_bytes 0xFEFF = [0xEF; 0xBB; 0xBF]) by reflexivity.
    rewrite B. cbn [app strip_bom Z.eqb Pos.eqb andb].
    rewrite utf8_decode_encode by exact (Forall_inv_tail F).
    cbn [utf16_units app] in E. injection E as E. exact E.
  - assert (Hhead : exists cp cps, scalar_values (c :: s) = cp :: cps /\ cp <> 0xFEFF).
    { destruct s as [| c' s].
      - cbn [scalar_values]. destruct (is_high_surrogate c);
          [| destruct (is_low_surrogate c)]; eexists _, _; split;
          try reflexivity; lia.
      - rewrite scalar_values_pair.
        destruct (is_high_surrogate c) eqn:Hh.
        + apply (proj1 (surrogate_bounds c)) in Hh.
          destruct (is_low_surrogate c') eqn:Hl'.
          * apply (proj2 (surrogate_bounds c')) in Hl'.
            eexists _, _; split; [reflexivity | lia].
          * eexists _, _; split; [reflexivity | lia].
        + destruct (is_low_surrogate c); eexists _, _; split;
            try reflexivity; lia. }
    destruct Hhead as (cp & cps & Hsv & Hcp).
    rewrite Hsv in *. cbn [flat_map].
    rewrite strip_bom_utf8_bytes by (try exact (Forall_inv F); exact Hcp).
    change (utf8_bytes cp ++ flat_map utf8_bytes cps)
      with (flat_map utf8_bytes (cp :: cps)).
    rewrite utf8_decode_encode by exact F. exact E.
Qed.

(** ** Numbers that a binary format holds exactly *)

Lemma shiftl_odd (pm : positive) (t : nat) :
  exists pm', Z.pos pm * 2 ^ Z.of_nat t = Z.pos pm' /\
    (ctz pm = 0 -> ctz pm' = Z.of_nat t).
Proof.
  induction t as [| t (pm' & E & C)].
  - exists pm. split; [cbn; lia | intros H; exact H].
  - exists (xO pm'). split.
    + rewrite Nat2Z.inj_succ, Z.pow_succ_r by lia.
      rewrite Z.mul_assoc, (Z.mul_comm (Z.pos pm) 2), <- Z.mul_assoc, E.
      reflexivity.
    + intros H. cbn [ctz]. rewrite (C H). lia.
Qed.

(** The number that [scaled] makes of an odd numerator shifted left. *)
Lemma scaled_odd (neg : bool) (k : N) (e : positive) (t X : Z) :
  0 <= t -> X + t = - Z.pos e ->
  scaled neg ((2 * Z.of_N k + 1) * 2 ^ t) X = Frac neg k e.
Proof.
  intros Ht HX.
  assert (Hm : exists pm, 2 * Z.of_N k + 1 = Z.pos pm /\ ctz pm = 0).
  { destruct k as [| pk]; [exists xH | exists (xI pk)]; split; reflexivity. }
  destruct Hm as (pm & Em & Cm).
  destruct (shiftl_odd pm (Z.to_nat t)) as (pm' & E' & C').
  rewrite Z2Nat.id in E', C' by exact Ht.
  rewrite Em, E'. cbn [scaled]. rewrite (C' Cm).
  destruct (Z.leb_spec 0 (X + t)); [lia |].
  f_equal.
  - rewrite <- E', <- Em. rewrite Z.shiftr_div_pow2 by lia.
    rewrite Z.pow_add_r by lia. change (2 ^ 1) with 2.
    rewrite (Z.mul_comm (2 ^ t) 2).
    rewrite Z.div_mul_cancel_r by lia.
    replace ((2 * Z.of_N k + 1) / 2) with (Z.of_N k)
      by (Z.to_euclidean_division_equations; lia).
    apply N2Z.id.
  - rewrite HX. reflexivity.
Qed.

Lemma testbit_sign (n mag : Z) (neg : bool) :
  0 <= n -> 0 <= mag < 2 ^ n ->
  Z.testbit ((if neg then 2 ^ n else 0) + mag) n = neg.
Proof.
  intros Hn Hmag. destruct neg.
  - apply Z.testbit_true; [exact Hn |].
    rewrite Z.add_comm.
    replace (mag + 2 ^ n) with (mag + 1 * 2 ^ n) by lia.
    rewrite Z.div_add by lia. rewrite Z.div_small by lia. reflexivity.
  - apply Z.testbit_false; [exact Hn |].
    rewrite Z.add_0_l, Z.div_small by lia. reflexivity.
Qed.

(** A fraction of the format comes back from its bits as it is. *)
Lemma ieee_decode_encode_fraction (p w : Z) (x : number) :
  2 <= p -> 2 <= w -> p <= 2 ^ (w - 1) ->
  binary_fraction p w x ->
  ieee_decode p w (ieee_encode p w x) = x.
Proof.
  intros Hp Hw Hpw Hx.
  destruct x as [z | | neg0 | | neg k e]; try contradiction.
  destruct Hx as [Hm He]. cbn [ieee_encode]. unfold ieee_magnitude, ieee_sign.
  set (m := 2 * Z.of_N k + 1) in *.
  assert (Hm1 : 1 <= m) by (unfold m; lia).
  pose proof (Z.log2_spec m ltac:(lia)) as [HL1 HL2].
  pose proof (Z.log2_nonneg m) as HL0.
  rewrite Z.pow_succ_r in HL2 by exact HL0.
  set (L := Z.log2 m) in *.
  assert (HLp : L <= p - 1).
  { destruct (Z.le_gt_cases L (p - 1)) as [? | Hgt]; [assumption |].
    assert (2 ^ p <= 2 ^ L) by (apply Z.pow_le_mono_r; lia). lia. }
  set (emin := 2 - 2 ^ (w - 1)) in *.
  assert (Hw1 : 2 <= 2 ^ (w - 1)).
  { change 2 with (2 ^ 1) at 1. apply Z.pow_le_mono_r; lia. }
  assert (Hww : 2 ^ w = 2 * 2 ^ (w - 1)).
  { replace w with (w - 1 + 1) at 1 by lia. rewrite Z.pow_add_r by lia. lia. }
  set (P := 2 ^ (p - 1)) in *.
  assert (HP : 0 < P) by (apply Z.pow_pos_nonneg; lia).
  assert (Hinf : Z.shiftl (2 ^ w - 1) (p - 1) = (2 ^ w - 1) * P)
    by (apply Z.shiftl_mul_pow2; lia).
  assert (Htop : 2 ^ (p - 1 + w) = 2 ^ w * P)
    by (rewrite Z.pow_add_r by lia; unfold P; lia).
  unfold ieee_decode.
  destruct (Z.le_gt_cases emin (L - Z.pos e)) as [Hnorm | Hsub].
  - (* a normal number *)
    rewrite (Z.max_l (L + - Z.pos e) emin) by lia.
    destruct (Z.leb_spec (L + - Z.pos e - (p - 1)) (- Z.pos e)); [| lia].
    replace (- Z.pos e - (L + - Z.pos e - (p - 1))) with (p - 1 - L) by lia.
    rewrite (Z.max_l (L + - Z.pos e - emin) 0) by lia.
    rewrite !Z.shiftl_mul_pow2 by lia. fold P.
    set (t := p - 1 - L).
    assert (HS : P <= m * 2 ^ t < 2 * P).
    { unfold P. replace (p - 1) with (L + t) by (unfold t; lia).
      rewrite Z.pow_add_r by (unfold t; lia).
      assert (0 < 2 ^ t) by (apply Z.pow_pos_nonneg; unfold t; lia).
      nia. }
    set (S := m * 2 ^ t) in *.
    set (ef := L + - Z.pos e - emin) in *.
    assert (Hef : 0 <= ef /\ ef + 2 <= 2 ^ w - 1) by (unfold ef, emin; lia).
    rewrite Z.min_l by nia.
    set (bits := (if neg then 2 ^ (p - 1 + w) else 0) + (ef * P + S)).
    assert (Hmag : 0 <= ef * P + S < 2 ^ (p - 1 + w)) by (rewrite Htop; nia).
    assert (Hneg : Z.testbit bits (p - 1 + w) = neg)
      by (apply testbit_sign; [lia | exact Hmag]).
    rewrite Hneg.
    assert (Hdecomp : bits = ((if neg then 2 ^ w else 0) + (ef + 1)) * P + (S - P)).
    { unfold bits. rewrite Htop. destruct neg; lia. }
    assert (Hfr : bits mod P = S - P).
    { rewrite Hdecomp, Z.add_comm, Z.mod_add by lia. apply Z.mod_small. lia. }
    assert (Hex : (bits / P) mod 2 ^ w = ef + 1).
    { rewrite Hdecomp, Z.div_add_l by lia.
      rewrite (Z.div_small (S - P) P) by lia. rewrite Z.add_0_r.
      destruct neg.
      - replace (2 ^ w + (ef + 1)) with (ef + 1 + 1 * 2 ^ w) by lia.
        rewrite Z.mod_add by lia. apply Z.mod_small. lia.
      - rewrite Z.add_0_l. apply Z.mod_small. lia. }
    rewrite Hfr, Hex.
    destruct (Z.eqb_spec (ef + 1) (2 ^ w - 1)); [lia |].
    destruct (Z.eqb_spec (ef + 1) 0); [lia |].
    replace (P + (S - P)) with S by lia.
    unfold S. apply scaled_odd; [unfold t; lia |]. unfold ef, t. lia.
  - (* a subnormal number *)
    rewrite (Z.max_r (L + - Z.pos e) emin) by lia.
    destruct (Z.leb_spec (emin - (p - 1)) (- Z.pos e)); [| unfold emin in *; lia].
    rewrite (Z.max_r (L + - Z.pos e - emin) 0) by lia.
    rewrite !Z.shiftl_mul_pow2 by lia. fold P.
    set (t := - Z.pos e - (emin - (p - 1))) in *.
    assert (Ht : 0 <= t) by (unfold t; lia).
    assert (HS : 1 <= m * 2 ^ t < P).
    { assert (0 < 2 ^ t) by (apply Z.pow_pos_nonneg; lia).
      split; [nia |].
      assert (2 * 2 ^ L * 2 ^ t <= P).
      { replace (2 * 2 ^ L * 2 ^ t) with (2 ^ (L + 1 + t))
          by (rewrite !Z.pow_add_r by lia; lia).
        unfold P. apply Z.pow_le_mono_r; [lia |]. unfold t. lia. }
      nia. }
    set (S := m * 2 ^ t) in *.
    rewrite Z.mul_0_l, Z.add_0_l.
    rewrite Z.min_l by nia.
    set (bits := (if neg then 2 ^ (p - 1 + w) else 0) + S).
    assert (Hmag : 0 <= S < 2 ^ (p - 1 + w)) by (rewrite Htop; nia).
    assert (Hneg : Z.testbit bits (p - 1 + w) = neg)
      by (apply testbit_sign; [lia | exact Hmag]).
    rewrite Hneg.
    assert (Hdecomp : bits = (if neg then 2 ^ w else 0) * P + S).
    { unfold bits. rewrite Htop. destruct neg; lia. }
    assert (Hfr : bits mod P = S).
    { rewrite Hdecomp, Z.add_comm, Z.mod_add by lia. apply Z.mod_small. lia. }
    assert (Hex : (bits / P) mod 2 ^ w = 0).
    { rewrite Hdecomp, Z.div_add_l by lia.
      rewrite (Z.div_small S P) by lia. rewrite Z.add_0_r.
      destruct neg; [apply Z.mod_same; lia | apply Z.mod_0_l; lia]. }
    rewrite Hfr, Hex.
    destruct (Z.eqb_spec 0 (2 ^ w - 1)); [lia |].
    cbn [Z.eqb].
    unfold S. apply scaled_odd; [exact Ht |]. unfold t. lia.
Qed.

(** ** [decodeOSCSlow] on an encoded message *)

Lemma tokens_middle (m : list Z) :
  forall pre post : list Z,
    SlowDecoder.tokens (pre ++ m ++ post) (length m) (len pre) = map Some m.
Proof.
  induction m as [| x m IH]; intros pre post; [reflexivity |].
  cbn [length SlowDecoder.tokens map app].
  rewrite get_middle. f_equal.
  replace (len pre + 1) with (len (pre ++ [x]))
    by (rewrite len_app; reflexivity).
  replace (pre ++ x :: m ++ post) with ((pre ++ [x]) ++ m ++ post)
    by (rewrite <- app_assoc; reflexivity).
  apply IH.
Qed.

(** The turns of the [for] loop of [oscStringGen]: the tokens that are
    not 0 are yielded, and a 0 sets [terminated]. *)
Lemma block_tokens (d : list Z) (n : nat) :
  forall (pos : Z) (t : bool),
    SlowDecoder.block d n pos t =
    (List.filter (fun tok => negb (option_eqb tok (Some 0)))
       (SlowDecoder.tokens d n pos),
     pos + Z.of_nat n,
     t || existsb (fun tok => option_eqb tok (Some 0)) (SlowDecoder.tokens d n pos)).
Proof.
  induction n as [| n IH]; intros pos t.
  - cbn [SlowDecoder.block SlowDecoder.tokens List.filter existsb].
    rewrite orb_false_r, Z.add_0_r. reflexivity.
  - cbn [SlowDecoder.block SlowDecoder.tokens existsb List.filter]. rewrite !IH.
    destruct (option_eqb (get d pos) (Some 0)) eqn:E; cbn [negb orb].
    + rewrite orb_true_r. f_equal. f_equal. lia.
    + f_equal. f_equal. lia.
Qed.

Lemma filter_tokens (e : list Z) (k : nat) :
  Forall (fun y => y <> 0) e ->
  List.filter (fun tok => negb (option_eqb tok (Some 0)))
    (map Some (e ++ replicate k 0)) = map Some e.
Proof.
  induction 1 as [| x e Hx _ IH].
  - cbn [app map]. induction k as [| k IHk]; [reflexivity | exact IHk].
  - cbn [app map List.filter option_eqb].
    destruct (Z.eqb_spec x 0); [contradiction |]. cbn [negb].
    rewrite IH. reflexivity.
Qed.

Lemma existsb_tokens (e : list Z) (k : nat) :
  Forall (fun y => y <> 0) e ->
  existsb (fun tok => option_eqb tok (Some 0)) (map Some (e ++ replicate k 0)) =
  negb (Nat.eqb k 0).
Proof.
  induction 1 as [| x e Hx _ IH].
  - cbn [app]. destruct k as [| k]; reflexivity.
  - cbn [app map existsb option_eqb].
    destruct (Z.eqb_spec x 0); [contradiction |]. exact IH.
Qed.

(** The padding of a string of at least 4 bytes is that of the string
    without its first 4 bytes. *)
Lemma string_field_chunk (c e : list Z) :
  length c = 4%nat -> string_field (c ++ e) = c ++ string_field e.
Proof.
  intros Hc. unfold string_field. rewrite <- app_assoc. do 3 f_equal.
  rewrite len_app. pose proof (len_nonneg e).
  assert (Hl : len c = 4) by (unfold len; lia). rewrite Hl.
  rewrite !pad_spec by lia. Z.to_euclidean_division_equations; lia.
Qed.

Lemma string_field_short (e : list Z) :
  (length e < 4)%nat ->
  string_field e = e ++ replicate (4 - length e) 0 /\ (4 - length e <> 0)%nat.
Proof.
  intros H. unfold string_field.
  pose proof (pad1_bounds (len e) (len_nonneg _)) as [Hp Hm].
  assert (Hl : 0 <= len e < 4) by (unfold len; lia).
  assert (E : pad (len e) 1 = 4 - len e)
    by (Z.to_euclidean_division_equations; lia).
  rewrite E. split; [| lia]. do 2 f_equal. unfold len. lia.
Qed.

(** [oscStringGen] on a string field: the content, and the cursor at the
    end of the field. *)
Lemma slow_oscStringGen_field (fuel : nat) :
  forall e pre post : list Z,
    Forall (fun y => y <> 0) e ->
    (length e < 4 * fuel)%nat ->
    SlowDecoder.oscStringGen fuel (pre ++ string_field e ++ post) (len pre) =
    Some (map Some e, len pre + len (string_field e)).
Proof.
  induction fuel as [| fuel IH]; intros e pre post He Hfuel; [lia |].
  cbn [SlowDecoder.oscStringGen]. rewrite block_tokens.
  destruct (Nat.lt_ge_cases (length e) 4) as [Hshort | Hlong].
  - destruct (string_field_short e Hshort) as [E Hk].
    rewrite E.
    assert (T : SlowDecoder.tokens
                  (pre ++ (e ++ replicate (4 - length e) 0) ++ post) 4 (len pre) =
                map Some (e ++ replicate (4 - length e) 0)).
    { rewrite <- (tokens_middle _ pre post). f_equal.
      rewrite length_app, length_replicate. lia. }
    rewrite T, filter_tokens, existsb_tokens by exact He.
    destruct (Nat.eqb_spec (4 - length e) 0); [contradiction |].
    cbn [orb negb]. do 2 f_equal.
    unfold len. rewrite length_app, length_replicate. lia.
  - set (c := take 4 e). set (e' := drop 4 e).
    assert (Ee : e = c ++ e') by (symmetry; apply take_drop).
    assert (Hc : length c = 4%nat) by (unfold c; rewrite length_take; lia).
    assert (Hce : Forall (fun y => y <> 0) c /\ Forall (fun y => y <> 0) e').
    { apply Forall_app. rewrite <- Ee. exact He. }
    destruct Hce as [Fc Fe'].
    rewrite Ee, string_field_chunk by exact Hc.
    rewrite <- app_assoc.
    assert (T : SlowDecoder.tokens (pre ++ c ++ string_field e' ++ post) 4 (len pre) =
                map Some (c ++ replicate 0 0)).
    { rewrite <- Hc, tokens_middle. cbn [replicate]. rewrite app_nil_r. reflexivity. }
    rewrite T, filter_tokens, existsb_tokens by exact Fc.
    cbn [orb negb Nat.eqb].
    replace (len pre + Z.of_nat 4) with (len (pre ++ c))
      by (rewrite len_app; unfold len; lia).
    rewrite (app_assoc pre c).
    rewrite IH; [| exact Fe' |].
    + rewrite map_app. f_equal. f_equal. rewrite !len_app. lia.
    + rewrite Ee, length_app in Hfuel. lia.
Qed.

Lemma Uint8Array_from_Some (l : list Z) :
  SlowDecoder.Uint8Array_from (map Some l) = l.
Proof.
  unfold SlowDecoder.Uint8Array_from. rewrite map_map. apply map_id.
Qed.

Lemma slow_oscString_field (fuel : nat) (e pre post : list Z) :
  Forall (fun y => y <> 0) e ->
  (length e < 4 * fuel)%nat ->
  SlowDecoder.oscString fuel (pre ++ string_field e ++ post) (len pre) =
  Some (Ok (TextDecoder_decode e, len pre + len (string_field e))).
Proof.
  intros He Hfuel. unfold SlowDecoder.oscString.
  rewrite slow_oscStringGen_field by assumption.
  rewrite Uint8Array_from_Some. reflexivity.
Qed.

Ltac eval_string_eqb :=
  repeat match goal with
  | |- context [string_eqb ?a ?b] =>
      let v := eval vm_compute in (string_eqb a b) in
      change (string_eqb a b) with v; cbv iota
  end.

(** One argument, as [argsGen] of [decodeOSCSlow] reads it. *)
Lemma slow_argsGen_received (use_f64 : bool) (fuel : nat) (post : list Z)
    (args : list OSCArg) :
  forall pre : list Z,
    Forall (fun a => no_nul (as_string a)) args -> Forall small_arg args ->
    Forall (fun a => (length (TextEncoder_encode (as_string a)) < 4 * fuel)%nat)
      args ->
    SlowDecoder.argsGen fuel (pre ++ flat_map (payload use_f64) args ++ post)
      (map (fun t => [t]) (map (type_tag use_f64) args)) (len pre) =
    Some (Ok (map (received use_f64) args)).
Proof.
  induction args as [| a args IH]; intros pre Hnn Hsmall Hfuel; [reflexivity |].
  pose proof (Forall_inv Hnn) as Hn1. pose proof (Forall_inv_tail Hnn) as Hn2.
  pose proof (Forall_inv Hsmall) as [Hs1 Hb1].
  pose proof (Forall_inv_tail Hsmall) as Hs2.
  pose proof (Forall_inv Hfuel) as Hf1. pose proof (Forall_inv_tail Hfuel) as Hf2.
  cbn [flat_map map SlowDecoder.argsGen] in *.
  set (R := flat_map (payload use_f64) args) in *.
  rewrite <- app_assoc in *.
  assert (Hnext : forall P : list Z,
            SlowDecoder.argsGen fuel (pre ++ P ++ R ++ post)
              (map (fun t => [t]) (map (type_tag use_f64) args))
              (len pre + len P) =
            Some (Ok (map (received use_f64) args))).
  { intros P0. rewrite <- len_app. rewrite (app_assoc pre P0).
    apply IH; assumption. }
  destruct a as [s | x | b | bs];
    cbn [type_tag payload received as_string as_Uint8Array] in *.
  - (* string *)
    eval_string_eqb.
    pose proof (encode_no_nul s Hn1) as He.
    set (e := TextEncoder_encode s) in *.
    rewrite slow_oscString_field by assumption.
    cbn [bind_run]. rewrite Hnext. reflexivity.
  - (* number *)
    destruct (isInt x) eqn:Hint; [| destruct use_f64]; eval_string_eqb.
    + unfold SlowDecoder.oscInt, lift. rewrite getInt32_setInt32.
      cbn [bind bind_run].
      assert (E : ToInt32 (number_ToInt32 x) = number_ToInt32 x).
      { apply ToInt32_id.
        destruct x as [z | | neg | | neg k e]; cbn [number_ToInt32];
          try apply ToInt32_range; lia. }
      rewrite E.
      replace (len pre + 4) with (len pre + len (be_bytes 4 (number_ToInt32 x)))
        by (rewrite len_be_bytes; reflexivity).
      rewrite Hnext. reflexivity.
    + unfold SlowDecoder.oscDouble, lift. rewrite getFloat64_setFloat64.
      cbn [bind bind_run].
      replace (len pre + 8)
        with (len pre + len (be_bytes 8 (ieee_encode 53 11 x)))
        by (rewrite len_be_bytes; reflexivity).
      rewrite Hnext. reflexivity.
    + unfold SlowDecoder.oscFloat, lift. rewrite getFloat32_setFloat32.
      cbn [bind bind_run].
      replace (len pre + 4)
        with (len pre + len (be_bytes 4 (ieee_encode 24 8 x)))
        by (rewrite len_be_bytes; reflexivity).
      rewrite Hnext. reflexivity.
  - (* boolean *)
    destruct b; eval_string_eqb; cbn [bind_run];
      specialize (Hnext []);
      change (len []) with 0 in Hnext; rewrite Z.add_0_r in Hnext;
      rewrite Hnext; reflexivity.
  - (* blob *)
    eval_string_eqb.
    pose proof (len_nonneg bs).
    pose proof (pad0_bounds (len bs) ltac:(lia)) as [Hp _].
    unfold SlowDecoder.oscBlob, SlowDecoder.oscInt, lift.
    rewrite <- !app_assoc.
    rewrite getInt32_setInt32. cbn [bind].
    rewrite !ToInt32_id by (try rewrite ToInt32_id; lia).
    rewrite new_Uint8Array_Ok by lia. cbn [bind].
    rewrite length_replicate, to_nat_len.
    set (hd := be_bytes 4 (len bs)).
    assert (Hhd : len hd = 4) by apply len_be_bytes.
    replace (len pre + 4) with (len (pre ++ hd)) by (rewrite len_app; lia).
    rewrite (app_assoc pre hd).
    rewrite tokens_middle, Uint8Array_from_Some.
    cbn [bind_run].
    rewrite Z.max_l by lia.
    specialize (Hnext (hd ++ bs ++ replicate (Z.to_nat (pad (len bs) 0)) 0)).
    rewrite <- !app_assoc in Hnext.
    rewrite !len_app, len_replicate in Hnext by lia.
    rewrite <- app_assoc.
    replace (len (pre ++ hd) + len bs + pad (len bs) 0)
      with (len pre + (len hd + (len bs + pad (len bs) 0)))
      by (rewrite len_app; lia).
    rewrite Hnext. reflexivity.
Qed.

Lemma string_iterator_ascii (s : jsstring) :
  Forall (fun c => c < 128) s -> string_iterator s = map (fun c => [c]) s.
Proof.
  induction 1 as [| c s Hc _ IH]; [reflexivity |].
  cbn [string_iterator map]. unfold is_high_surrogate.
  destruct (Z.leb_spec 0xD800 c); [lia |]. cbn [andb]. rewrite IH. reflexivity.
Qed.

(** An address that starts with ['/'] still does after it is encoded and
    decoded. *)
Lemma decoded_address_slash (addr : jsstring) :
  starts_with_slash addr ->
  charAt0_is_not_slash (TextDecoder_decode (TextEncoder_encode addr)) = false.
Proof.
  intros [rest ->]. unfold TextEncoder_encode.
  rewrite scalar_values_unit by reflexivity. cbn [flat_map].
  change (utf8_bytes ASCII.SLASH) with [ASCII.SLASH]. cbn [app].
  set (bs := flat_map utf8_bytes (scalar_values rest)).
  unfold TextDecoder_decode.
  assert (E : strip_bom (ASCII.SLASH :: bs) = ASCII.SLASH :: bs)
    by (destruct bs as [| b2 [| b3 bs']]; reflexivity).
  rewrite E. reflexivity.
Qed.

Lemma encoded_strings_short (use_f64 : bool) (args : list OSCArg) :
  Forall (fun a => len (TextEncoder_encode (as_string a)) <=
                   len (flat_map (payload use_f64) args)) args.
Proof.
  induction args as [| a args IH]; [constructor |].
  cbn [flat_map]. rewrite len_app.
  pose proof (len_nonneg (payload use_f64 a)).
  pose proof (len_nonneg (flat_map (payload use_f64) args)).
  constructor.
  - destruct a as [s | x | b | bs]; cbn [as_string];
      try (change (TextEncoder_encode []) with (@nil Z); change (len []) with 0; lia).
    cbn [payload] in *.
    pose proof (string_field_mod4 (TextEncoder_encode s)) as [_ Hl]. lia.
  - eapply Forall_impl; [exact IH |]. cbn beta. intros a0 Ha0. lia.
Qed.

(** [decodeOSCSlow] on a view that starts with an encoded message, with
    fuel for a turn of the [while] loop per 4 bytes. *)
Lemma decodeOSCSlow_received (use_f64 : bool) (fuel : nat) (data : Uint8Array)
    (addr : jsstring) (args : list OSCArg) (post : list Z) :
  wf_view data ->
  elements data = OSC_packet use_f64 addr args ++ post ->
  len post mod 4 = 0 ->
  starts_with_slash addr -> no_nul addr -> Forall no_nul (strings_of args) ->
  short_packet use_f64 addr args ->
  byteLength data <= 4 * Z.of_nat fuel ->
  decodeOSCSlow fuel data =
  Some (Ok (TextDecoder_decode (TextEncoder_encode addr),
            map (received use_f64) args)).
Proof.
  intros Hwf Hel Hpost Hslash Haddr Hargs Hfit Hfuel.
  destruct (short_packet_parts use_f64 addr args Hfit) as (HA & HT & Htot & Hsmall).
  pose proof (len_OSC_packet use_f64 addr args) as [HWm HW8].
  pose proof (len_elements data Hwf) as Hbl.
  pose proof (encode_no_nul addr Haddr) as HeA.
  pose proof (encoded_strings_short use_f64 args) as Hshort.
  unfold OSC_packet in *.
  set (e := TextEncoder_encode addr) in *.
  set (tags := map (type_tag use_f64) args) in *.
  set (P := flat_map (payload use_f64) args) in *.
  pose proof (len_nonneg e). pose proof (len_nonneg args). pose proof (len_nonneg P).
  pose proof (len_nonneg post).
  pose proof (string_field_mod4 e) as [HAm HAl].
  pose proof (string_field_mod4 (ASCII.COMMA :: tags)) as [HTm HTl].
  rewrite len_cons in HTl. pose proof (len_nonneg tags).
  assert (Hlen : byteLength data =
                 len (string_field e) + len (string_field (ASCII.COMMA :: tags)) +
                 len P + len post)
    by (rewrite <- Hbl, Hel, !len_app; ring).
  rewrite !len_app in HWm, HW8.
  unfold decodeOSCSlow.
  rewrite Z.rem_mod_nonneg by lia.
  assert (Hm : byteLength data mod 4 = 0)
    by (rewrite Hlen; Z.to_euclidean_division_equations; lia).
  rewrite Hm. cbn [Z.eqb negb].
  destruct (Z.ltb_spec (byteLength data) 8); [lia |].
  rewrite Hel.
  (* the address *)
  rewrite <- !app_assoc.
  pose proof (slow_oscString_field fuel e []
                (string_field (ASCII.COMMA :: tags) ++ P ++ post) HeA) as Ha.
  cbn [app] in Ha. change (len []) with 0 in Ha. rewrite Z.add_0_l in Ha.
  rewrite Ha by (unfold len in *; lia). clear Ha.
  cbn [bind_run]. fold e in |- *. unfold e at 1.
  rewrite (decoded_address_slash addr Hslash). fold e.
  (* the type tags *)
  rewrite slow_oscString_field;
    [| apply type_tags_no_nul' | cbn [length]; unfold len in *; lia].
  cbn [bind_run].
  pose proof (ascii_text_lt _ (type_tags_ascii use_f64 args)) as Hlt.
  fold tags in Hlt.
  rewrite TextDecoder_decode_ascii by exact Hlt.
  rewrite string_iterator_ascii by exact Hlt.
  cbn [map tail]. eval_string_eqb. cbn [negb].
  (* the arguments *)
  rewrite <- len_app. rewrite (app_assoc (string_field e)).
  unfold tags, P.
  rewrite slow_argsGen_received.
  - reflexivity.
  - apply no_nul_strings_args. exact Hargs.
  - exact Hsmall.
  - eapply Forall_impl; [exact Hshort |]. cbn beta. intros a Ha.
    fold P in Ha. unfold len in *. lia.
Qed.

(** ** Arguments that come back as they are *)

Lemma received_exact (use_f64 : bool) (a : OSCArg) :
  exact_arg use_f64 a -> received use_f64 a = a.
Proof.
  destruct a as [s | x | b | bs]; cbn [exact_arg received]; intros H;
    try reflexivity.
  - destruct H as (Hwf & _ & Hbom). rewrite text_roundtrip by exact Hwf.
    unfold without_BOM. rewrite Hbom. reflexivity.
  - destruct x as [z | | neg | | neg k e]; cbn [exact_number isInt] in *;
      try contradiction.
    + cbn [number_ToInt32]. rewrite ToInt32_id by exact H. reflexivity.
    + destruct use_f64; reflexivity.
    + destruct use_f64.
      * rewrite ieee_decode_encode_fraction;
          [reflexivity | lia | lia | vm_compute; discriminate | exact H].
      * unfold fround. rewrite ieee_decode_encode_fraction;
          [reflexivity | lia | lia | vm_compute; discriminate | exact H].
Qed.

Lemma received_exact_args (use_f64 : bool) (args : list OSCArg) :
  Forall (exact_arg use_f64) args ->
  map (fun a => Some (received use_f64 a)) args = dense args.
Proof.
  unfold dense. induction 1 as [| a args Ha _ IH]; [reflexivity |].
  cbn [map]. rewrite IH, received_exact by exact Ha. reflexivity.
Qed.

Lemma exact_args_no_nul (use_f64 : bool) (args : list OSCArg) :
  Forall (exact_arg use_f64) args -> Forall no_nul (strings_of args).
Proof.
  induction 1 as [| a args Ha _ IH]; [constructor |].
  rewrite strings_of_cons. apply Forall_app. split; [| exact IH].
  destruct a as [s | x | b | bs]; cbn [strings_of flat_map app];
    [| constructor ..].
  constructor; [| constructor]. exact (proj1 (proj2 Ha)).
Qed.

Lemma plain_text_roundtrip (s : jsstring) :
  plain_text s -> TextDecoder_decode (TextEncoder_encode s) = s.
Proof.
  intros (Hwf & _ & Hbom). rewrite text_roundtrip by exact Hwf.
  unfold without_BOM. rewrite Hbom. reflexivity.
Qed.

Lemma ascii_plain_text (s : jsstring) : ascii_text s -> plain_text s.
Proof.
  intros H. split; [| split].
  - induction H as [| c s Hc _ IH]; [reflexivity |].
    cbn [isWellFormed]. unfold is_high_surrogate, is_low_surrogate.
    destruct (Z.leb_spec 0xD800 c); [lia |].
    destruct (Z.leb_spec 0xDC00 c); [lia |].
    destruct (Z.leb_spec 0 c); [| lia].
    destruct (Z.ltb_spec c 0x10000); [| lia].
    cbn [andb negb]. exact IH.
  - apply ascii_text_no_nul. exact H.
  - destruct H as [| c s Hc _]; [reflexivity |].
    cbn [starts_with_BOM]. destruct (Z.eqb_spec c 0xFEFF); [lia | reflexivity].
Qed.

Lemma wf_Uint8Array_of (l : list Z) : wf_view (Uint8Array_of l).
Proof.
  unfold wf_view, Uint8Array_of. cbn [buffer byteOffset byteLength].
  pose proof (len_nonneg l). lia.
Qed.

Lemma wf_subarray_of (before packet after : list Z) :
  wf_view (subarray_of before packet after) /\
  elements (subarray_of before packet after) = packet.
Proof.
  unfold wf_view, subarray_of, elements. cbn [buffer byteOffset byteLength].
  pose proof (len_nonneg before). pose proof (len_nonneg packet).
  pose proof (len_nonneg after). rewrite !len_app.
  split; [lia |]. rewrite !to_nat_len. apply take_drop_middle.
Qed.

(** * The codec, end to end *)

(** ** What the encoders accept and produce *)

(** X5: [encodeOSC_UTF8] makes no check of its own: for every address and
    every arguments, whatever the text (no leading slash, NUL, multi-byte
    characters), it returns the address field, the type-tag field and the
    payloads in order, in an array of exactly that length; the assertion
    at its end never fails. *)
Theorem encodeOSC_UTF8_wire_format (addr : jsstring) (args : list OSCArg)
    (options : option OSCEncoderOptions) :
  fits_int32 addr args ->
  encodeOSC_UTF8 addr args options =
  Ok (Uint8Array_of
        (string_field (TextEncoder_encode addr) ++
         string_field (ASCII.COMMA :: map (type_tag (get_f64 options)) args) ++
         flat_map (payload (get_f64 options)) args)).
Proof. intros H. apply encodeOSC_UTF8_spec, fits_int32_short, H. Qed.

Lemma encodeOSC_UTF8_wire_format_witness :
  encodeOSC_UTF8 (js "foo") [Str [120; 0; 233]; Num NaN; Blob [1]] None =
  Ok (Uint8Array_of
        (string_field (TextEncoder_encode (js "foo")) ++
         string_field (ASCII.COMMA ::
                       map (type_tag false) [Str [120; 0; 233]; Num NaN; Blob [1]]) ++
         flat_map (payload false) [Str [120; 0; 233]; Num NaN; Blob [1]])).
Proof.
  apply (encodeOSC_UTF8_wire_format (js "foo")
           [Str [120; 0; 233]; Num NaN; Blob [1]] None).
  vm_compute. reflexivity.
Defined.

Lemma not_slash (addr : jsstring) :
  ~ starts_with_slash addr -> charAt0_is_not_slash addr = true.
Proof.
  intros H. destruct addr as [| c rest]; [reflexivity |].
  cbn [charAt0_is_not_slash]. destruct (Z.eqb_spec c ASCII.SLASH) as [-> | _];
    [| reflexivity].
  exfalso. apply H. exists rest. reflexivity.
Qed.

(** X6: the checks of [encodeOSCSlow], in their order: an address that
    does not start with ['/'] (the empty one included) is refused first;
    then a NUL in the address or in a string argument; every other
    message is encoded, whatever its size. *)
Theorem encodeOSCSlow_checks (addr : jsstring) (args : list OSCArg)
    (opt : option OSCSlowEncoderOptions) :
  (~ starts_with_slash addr ->
   encodeOSCSlow addr args opt = Throw (OSCProtocolError MsgAddrNoSlash)) /\
  (starts_with_slash addr ->
   In 0 addr \/ (exists s, In s (strings_of args) /\ In 0 s) ->
   encodeOSCSlow addr args opt = Throw (OSCProtocolError MsgIllegalCharacters)) /\
  (starts_with_slash addr -> no_nul addr -> Forall no_nul (strings_of args) ->
   encodeOSCSlow addr args opt =
   Ok (Uint8Array_of (OSC_packet (get_slow_f64 opt) addr args))).
Proof.
  split; [| split].
  - intros H. apply encodeOSCSlow_address, not_slash, H.
  - apply encodeOSCSlow_rejects_nul.
  - apply encodeOSCSlow_valid.
Qed.

(** ** The buffer of [encodeOSC] never grows *)

Lemma len_encodeInto_values (cps : list Z) :
  forall avail : Z, len (encodeInto_values cps avail) <= Z.max avail 0.
Proof.
  induction cps as [| cp cps IH]; intros avail.
  - cbn [encodeInto_values]. change (len []) with 0. lia.
  - cbn [encodeInto_values]. fold (len (utf8_bytes cp)).
    pose proof (len_nonneg (utf8_bytes cp)).
    destruct (Z.leb_spec (len (utf8_bytes cp)) avail).
    + rewrite len_app. specialize (IH (avail - len (utf8_bytes cp))). lia.
    + change (len []) with 0. lia.
Qed.

Lemma len_typed_set (a src a' : list Z) (off : Z) :
  typed_set a src off = Ok a' -> len a' = len a.
Proof.
  unfold typed_set.
  destruct (Z.ltb_spec off 0); [discriminate |].
  destruct (Z.ltb_spec (len a) (off + len src)); [discriminate |].
  cbn [orb]. intros E. injection E as <-.
  apply len_splice. unfold len in *. lia.
Qed.

Lemma encodeOSC_case_len (t : Z) (a : OSCArg) (packet packet' : list Z)
    (offset offset' : Z) :
  encodeOSC_case t a packet offset = Ok (packet', offset') ->
  len packet' = len packet.
Proof.
  unfold encodeOSC_case. intros H.
  destruct (t =? ASCII.s).
  { destruct (Z.ltb_spec offset 0); [discriminate |].
    destruct (Z.ltb_spec (len packet) offset); [discriminate |].
    cbn [orb] in H. injection H as <- _.
    pose proof (len_encodeInto_values (scalar_values (as_string a))
                  (len packet - offset)) as Hw.
    fold (TextEncoder_encodeInto (as_string a) (len packet - offset)) in Hw.
    apply len_splice. unfold len in *. lia. }
  destruct (t =? ASCII.i).
  { apply bind_Ok in H as (p & Hp & H). injection H as <- _.
    exact (len_typed_set _ _ _ _ Hp). }
  destruct (t =? ASCII.f).
  { apply bind_Ok in H as (p & Hp & H). injection H as <- _.
    exact (len_typed_set _ _ _ _ Hp). }
  destruct (t =? ASCII.d).
  { apply bind_Ok in H as (p & Hp & H). injection H as <- _.
    exact (len_typed_set _ _ _ _ Hp). }
  destruct (t =? ASCII.b).
  { apply bind_Ok in H as (p & Hp & H). apply bind_Ok in H as (p' & Hp' & H).
    injection H as <- _.
    rewrite (len_typed_set _ _ _ _ Hp'). exact (len_typed_set _ _ _ _ Hp). }
  injection H as <- _. reflexivity.
Qed.

Lemma encodeOSC_write_len (tags : list Z) :
  forall (args : list OSCArg) (packet packet' : list Z) (offset offset' : Z),
    encodeOSC_write tags args packet offset = Ok (packet', offset') ->
    len packet' = len packet.
Proof.
  induction tags as [| t tags IH]; intros args packet packet' offset offset' H.
  - cbn [encodeOSC_write] in H. injection H as <- _. reflexivity.
  - destruct args as [| a args].
    + cbn [encodeOSC_write] in H. injection H as <- _. reflexivity.
    + cbn [encodeOSC_write] in H.
      apply bind_Ok in H as ([p1 o1] & H1 & H2).
      rewrite (IH _ _ _ _ _ H2). exact (encodeOSC_case_len _ _ _ _ _ _ H1).
Qed.

(** The packet that [encodeOSC] returns is a view of the buffer that it
    allocated at the start. *)
Lemma encodeOSC_within_buffer (addr : jsstring) (args : list OSCArg)
    (options : option OSCEncoderOptions) (p : Uint8Array) :
  encodeOSC addr args options = Ok p ->
  byteLength p <=
    encodeOSC_packet_size (get_f64 options) addr args + get_oversize options.
Proof.
  unfold encodeOSC, encodeOSC_packet_size.
  destruct (encodeOSC_sizing (get_f64 options) args
              (align4 (len addr + 1) + align4 (len args + 2)))
    as [tags packet_size].
  cbn [snd]. intros H.
  apply bind_Ok in H as (packet & Hp & H).
  unfold new_Uint8Array in Hp.
  destruct (Z.ltb_spec (packet_size + get_oversize options) 0); [discriminate |].
  injection Hp as <-.
  set (K := packet_size + get_oversize options) in *.
  set (packet := replicate (Z.to_nat K) 0) in *.
  assert (HK : len packet = K) by (unfold packet; rewrite len_replicate; lia).
  set (written := TextEncoder_encodeInto addr (len packet)) in *.
  assert (Hw : len written <= K).
  { pose proof (len_encodeInto_values (scalar_values addr) (len packet)) as Hw.
    fold (TextEncoder_encodeInto addr (len packet)) in Hw. fold written in Hw.
    lia. }
  assert (H1 : len (splice packet 0 written) = K).
  { rewrite len_splice; [exact HK |]. unfold len in *. lia. }
  apply bind_Ok in H as (packet3 & H3 & H).
  apply len_typed_set in H3. rewrite len_store, H1 in H3.
  apply bind_Ok in H as ([packet4 offset] & H4 & H).
  apply encodeOSC_write_len in H4.
  destruct (Z.ltb_spec (len packet4) offset); [discriminate |].
  apply new_view_elements in H as [-> _]. lia.
Qed.

(** X7: [encodeOSC] and [oversize].  [encodeOSC] returns the UTF-8 packet,
    byte for byte what [encodeOSC_UTF8] returns, exactly when the buffer
    that it allocates (the size counted in UTF-16 code units, plus
    [oversize]) is at least as long as that packet; this holds for any
    text, for a message whose packet is shorter than 2^31 bytes. *)
Theorem encodeOSC_with_oversize (addr : jsstring) (args : list OSCArg)
    (options : option OSCEncoderOptions) :
  short_packet (get_f64 options) addr args ->
  packet_bytes (encodeOSC_UTF8 addr args options) =
    Ok (OSC_packet (get_f64 options) addr args) /\
  (packet_bytes (encodeOSC addr args options) =
     Ok (OSC_packet (get_f64 options) addr args) <->
   len (OSC_packet (get_f64 options) addr args) <=
     encodeOSC_packet_size (get_f64 options) addr args + get_oversize options).
Proof.
  intros Hfit. split; [| split].
  - rewrite encodeOSC_UTF8_spec by assumption.
    unfold packet_bytes, bind. rewrite elements_Uint8Array_of. reflexivity.
  - intros H. unfold packet_bytes in H.
    apply bind_Ok in H as (p & Hp & H). injection H as H.
    pose proof (encodeOSC_within_buffer _ _ _ _ Hp) as Hin.
    destruct (encodeOSC_length _ _ _ _ Hfit Hp) as (_ & _ & Hl).
    rewrite <- H, Hl. exact Hin.
  - intros Hroom. rewrite encodeOSC_roomy by assumption.
    unfold packet_bytes, bind. rewrite elements_prefix. reflexivity.
Qed.

Lemma encodeOSC_with_oversize_witness :
  let addr := [47; 233] in
  let args := [Str [233; 233; 233]; Num (Int 1)] in
  let roomy := Some {| oversize := Some 4; f64 := None |} in
  packet_bytes (encodeOSC addr args roomy) = Ok (OSC_packet false addr args) /\
  packet_bytes (encodeOSC addr args None) <> Ok (OSC_packet false addr args).
Proof.
  split.
  - apply (encodeOSC_with_oversize [47; 233] [Str [233; 233; 233]; Num (Int 1)]
             (Some {| oversize := Some 4; f64 := None |})).
    + vm_compute. reflexivity.
    + vm_compute. discriminate.
  - intros H.
    apply (encodeOSC_with_oversize [47; 233] [Str [233; 233; 233]; Num (Int 1)]
             None) in H.
    + vm_compute in H. apply H. reflexivity.
    + vm_compute. reflexivity.
Defined.

(** ** Decoding what was encoded *)

(** X8: [decodeOSC] on a view that holds an encoded message (no NUL in
    the address or in a string, packet shorter than 2^31 bytes).  Where
    the view lies in its buffer ([before], [after]) makes no difference,
    and bytes that follow the last argument ([post], a multiple of 4) are
    ignored: the result is the address as its bytes decode, and for each
    argument what [received] describes. *)
Theorem decodeOSC_subarray (use_f64 : bool) (addr : jsstring)
    (args : list OSCArg) (before after post : list Z) :
  len post mod 4 = 0 ->
  no_nul addr -> Forall no_nul (strings_of args) ->
  short_packet use_f64 addr args ->
  decodeOSC (subarray_of before (OSC_packet use_f64 addr args ++ post) after) =
  Ok (TextDecoder_decode (TextEncoder_encode addr),
      map (fun a => Some (received use_f64 a)) args).
Proof.
  intros Hpost Haddr Hargs Hfit.
  destruct (wf_subarray_of before (OSC_packet use_f64 addr args ++ post) after)
    as [Hwf Hel].
  exact (decodeOSC_received use_f64 _ addr args post Hwf Hel Hpost Haddr Hargs Hfit).
Qed.

Lemma decodeOSC_subarray_witness :
  decodeOSC (subarray_of [9; 9]
               (OSC_packet true sample_addr sample_args ++ [1; 2; 3; 4]) [7]) =
  Ok (TextDecoder_decode (TextEncoder_encode sample_addr),
      map (fun a => Some (received true a)) sample_args).
Proof.
  apply (decodeOSC_subarray true sample_addr sample_args [9; 9] [7] [1; 2; 3; 4]).
  - reflexivity.
  - vm_compute. repeat constructor; discriminate.
  - vm_compute. repeat constructor; discriminate.
  - vm_compute. reflexivity.
Defined.

Lemma received_ascii (use_f64 : bool) (s : jsstring) :
  ascii_text s -> received use_f64 (Str s) = Str s.
Proof.
  intros H. cbn [received].
  rewrite plain_text_roundtrip by (apply ascii_plain_text; exact H). reflexivity.
Qed.

Lemma decodeOSC_encodeOSC_ascii (addr : jsstring) (args : list OSCArg)
    (options : option OSCEncoderOptions) :
  ascii_text addr -> Forall ascii_arg args -> short_packet (get_f64 options) addr args ->
  0 <= get_oversize options ->
  bind (encodeOSC addr args options) decodeOSC =
  Ok (addr, map (fun a => Some (received (get_f64 options) a)) args).
Proof.
  intros Haddr Hargs Hfit Hov.
  rewrite encodeOSC_spec by assumption. unfold bind.
  set (W := OSC_packet (get_f64 options) addr args).
  set (p := {| buffer := W ++ replicate (Z.to_nat (get_oversize options)) 0;
               byteOffset := 0; byteLength := len W |}).
  assert (Hwf : wf_view p).
  { unfold wf_view, p. cbn [buffer byteOffset byteLength].
    pose proof (len_nonneg W). rewrite len_app, len_replicate by lia. lia. }
  assert (Hel : elements p = W ++ []).
  { rewrite app_nil_r. apply elements_prefix. }
  rewrite (decodeOSC_received (get_f64 options) p addr args [] Hwf Hel eq_refl
             (ascii_text_no_nul addr Haddr) (ascii_args_no_nul args Hargs) Hfit).
  rewrite plain_text_roundtrip by (apply ascii_plain_text; exact Haddr).
  reflexivity.
Qed.

(** X9: what comes back from [decodeOSC(encodeOSC(addr, args, options))]
    for ASCII text without NUL, a packet shorter than 2^31 bytes and an
    [oversize] that is not negative, whatever the numbers: the address,
    and the arguments as [received] describes.  Strings, booleans and
    blobs are unchanged;
    a number that [isInt] accepts comes back reduced to 32 bits, so that
    an integer [z] is [ToInt32 z] and -0 and the infinities are 0; another
    number comes back rounded to binary32, or to binary64 under [f64]. *)
Theorem decodeOSC_encodeOSC (addr : jsstring) (args : list OSCArg)
    (options : option OSCEncoderOptions) :
  ascii_text addr -> Forall ascii_arg args -> short_packet (get_f64 options) addr args ->
  0 <= get_oversize options ->
  bind (encodeOSC addr args options) decodeOSC =
    Ok (addr, map (fun a => Some (received (get_f64 options) a)) args) /\
  Forall (fun a => match a with
                   | Num (Int z) =>
                       received (get_f64 options) a = Num (Int (ToInt32 z))
                   | Num NegZero | Num (Infinity _) =>
                       received (get_f64 options) a = Num (Int 0)
                   | Num NaN => received (get_f64 options) a = Num NaN
                   | Num (Frac _ _ _) => True
                   | _ => received (get_f64 options) a = a
                   end) args.
Proof.
  intros Haddr Hargs Hfit Hov.
  split; [apply decodeOSC_encodeOSC_ascii; assumption |].
  eapply Forall_impl; [exact Hargs |].
  intros [s | x | b | bs] Ha; try reflexivity.
  - apply received_ascii. exact Ha.
  - destruct x as [z | | neg | | neg k e]; try reflexivity.
    cbn [received isInt]. destruct (get_f64 options); reflexivity.
Qed.

Lemma decodeOSC_encodeOSC_witness :
  let args := [Num (Int (2 ^ 31)); Num (Infinity true); Num NegZero;
               Num (Frac false 1 2); Str (js "x")] in
  bind (encodeOSC (js "/a") args None) decodeOSC =
    Ok (js "/a", map (fun a => Some (received false a)) args) /\
  Forall (fun a => match a with
                   | Num (Int z) => received false a = Num (Int (ToInt32 z))
                   | Num NegZero | Num (Infinity _) =>
                       received false a = Num (Int 0)
                   | Num NaN => received false a = Num NaN
                   | Num (Frac _ _ _) => True
                   | _ => received false a = a
                   end) args.
Proof.
  apply (decodeOSC_encodeOSC (js "/a")
           [Num (Int (2 ^ 31)); Num (Infinity true); Num NegZero;
            Num (Frac false 1 2); Str (js "x")] None).
  - vm_compute. repeat constructor; discriminate.
  - repeat constructor.
  - vm_compute. reflexivity.
  - vm_compute. discriminate.
Defined.

(** ** Round trips *)

Lemma decodeOSC_encodeOSC_UTF8 (addr : jsstring) (args : list OSCArg)
    (options : option OSCEncoderOptions) :
  no_nul addr -> Forall no_nul (strings_of args) -> short_packet (get_f64 options) addr args ->
  bind (encodeOSC_UTF8 addr args options) decodeOSC =
  Ok (TextDecoder_decode (TextEncoder_encode addr),
      map (fun a => Some (received (get_f64 options) a)) args).
Proof.
  intros Haddr Hargs Hfit.
  rewrite encodeOSC_UTF8_spec by exact Hfit. unfold bind.
  apply (decodeOSC_received (get_f64 options) _ addr args []);
    try assumption; try reflexivity.
  - apply wf_Uint8Array_of.
  - rewrite elements_Uint8Array_of, app_nil_r. reflexivity.
Qed.

(** X10: the round trip through [encodeOSC_UTF8], for text of any script.
    When the address and the string arguments are well-formed text without
    NUL that does not start with U+FEFF, the numbers are integers of
    32 bits, NaN, or values of the format in use, and the packet is
    shorter than 2^31 bytes, then [decodeOSC] gives back the address and
    the arguments. *)
Theorem roundtrip_UTF8 (addr : jsstring) (args : list OSCArg)
    (options : option OSCEncoderOptions) :
  plain_text addr -> Forall (exact_arg (get_f64 options)) args ->
  short_packet (get_f64 options) addr args ->
  bind (encodeOSC_UTF8 addr args options) decodeOSC = Ok (addr, dense args).
Proof.
  intros Haddr Hargs Hfit.
  rewrite decodeOSC_encodeOSC_UTF8;
    [| exact (proj1 (proj2 Haddr))
     | exact (exact_args_no_nul _ args Hargs) | exact Hfit].
  rewrite plain_text_roundtrip by exact Haddr.
  rewrite received_exact_args by exact Hargs. reflexivity.
Qed.

Lemma roundtrip_UTF8_witness :
  let addr := [47; 233; 0x20AC] in
  let args := [Str [0xD834; 0xDD1E; 97]; Num (Frac false 1 2); Blob [0; 255];
               Num (Int (-1)); Bool false] in
  bind (encodeOSC_UTF8 addr args None) decodeOSC = Ok (addr, dense args).
Proof.
  apply (roundtrip_UTF8 [47; 233; 0x20AC]
           [Str [0xD834; 0xDD1E; 97]; Num (Frac false 1 2); Blob [0; 255];
            Num (Int (-1)); Bool false] None).
  - split; [reflexivity | split; [repeat constructor; discriminate | reflexivity]].
  - repeat constructor; try discriminate; vm_compute; discriminate.
  - vm_compute. reflexivity.
Defined.

(** X11: a byte order mark at the start of a string does not come back:
    decoding the packet that [encodeOSC_UTF8] makes of the one string
    U+FEFF followed by [s] gives the one string [s], for well-formed
    text [s] without NUL, an address that is well-formed text without NUL
    and without a leading U+FEFF, and a packet shorter than 2^31 bytes. *)
Theorem leading_BOM_dropped (addr s : jsstring)
    (options : option OSCEncoderOptions) :
  plain_text addr -> isWellFormed s = true -> no_nul s ->
  short_packet (get_f64 options) addr [Str (0xFEFF :: s)] ->
  bind (encodeOSC_UTF8 addr [Str (0xFEFF :: s)] options) decodeOSC =
  Ok (addr, [Some (Str s)]).
Proof.
  intros Haddr Hwf Hnn Hfit.
  rewrite decodeOSC_encodeOSC_UTF8; [| exact (proj1 (proj2 Haddr)) | | exact Hfit].
  - rewrite plain_text_roundtrip by exact Haddr.
    cbn [map received]. rewrite text_roundtrip by exact Hwf. reflexivity.
  - cbn [strings_of flat_map app]. constructor; [| constructor].
    constructor; [cbv beta; lia | exact Hnn].
Qed.

Lemma leading_BOM_dropped_witness :
  bind (encodeOSC_UTF8 (js "/a") [Str (0xFEFF :: js "abc")] None) decodeOSC =
  Ok (js "/a", [Some (Str (js "abc"))]).
Proof.
  apply (leading_BOM_dropped (js "/a") (js "abc") None).
  - apply ascii_plain_text. vm_compute. repeat constructor; discriminate.
  - reflexivity.
  - vm_compute. repeat constructor; discriminate.
  - vm_compute. reflexivity.
Defined.

(** X12: the two decoders agree on encoded messages.  On a view that
    holds the packet (shorter than 2^31 bytes) of a message whose address
    starts with ['/'] and whose address and strings have no NUL, followed
    by any bytes (a multiple of 4),
    [decodeOSCSlow] returns, once it has fuel for a turn of its [while]
    loop per 4 bytes of the view, the address and the arguments that
    [decodeOSC] returns. *)
Theorem decoders_agree_on_encoded (use_f64 : bool) (fuel : nat)
    (data : Uint8Array) (addr : jsstring) (args : list OSCArg) (post : list Z) :
  wf_view data ->
  elements data = OSC_packet use_f64 addr args ++ post ->
  len post mod 4 = 0 ->
  starts_with_slash addr -> no_nul addr -> Forall no_nul (strings_of args) ->
  short_packet use_f64 addr args ->
  byteLength data <= 4 * Z.of_nat fuel ->
  exists (addr' : jsstring) (args' : list OSCArg),
    decodeOSCSlow fuel data = Some (Ok (addr', args')) /\
    decodeOSC data = Ok (addr', dense args') /\
    args' = map (received use_f64) args.
Proof.
  intros Hwf Hel Hpost Hslash Haddr Hargs Hfit Hfuel.
  exists (TextDecoder_decode (TextEncoder_encode addr)),
         (map (received use_f64) args).
  split; [| split; [| reflexivity]].
  - apply (decodeOSCSlow_received use_f64 fuel data addr args post); assumption.
  - rewrite (decodeOSC_received use_f64 data addr args post) by assumption.
    unfold dense. rewrite map_map. reflexivity.
Qed.

Lemma decoders_agree_on_encoded_witness :
  exists (addr' : jsstring) (args' : list OSCArg),
    decodeOSCSlow 20 (Uint8Array_of (OSC_packet false sample_addr sample_args)) =
      Some (Ok (addr', args')) /\
    decodeOSC (Uint8Array_of (OSC_packet false sample_addr sample_args)) =
      Ok (addr', dense args') /\
    args' = map (received false) sample_args.
Proof.
  apply (decoders_agree_on_encoded false 20
           (Uint8Array_of (OSC_packet false sample_addr sample_args))
           sample_addr sample_args []).
  - apply wf_Uint8Array_of.
  - rewrite elements_Uint8Array_of, app_nil_r. reflexivity.
  - reflexivity.
  - eexists. reflexivity.
  - vm_compute. repeat constructor; discriminate.
  - vm_compute. repeat constructor; discriminate.
  - vm_compute. reflexivity.
  - vm_compute. discriminate.
Defined.

(** X13: the round trip through the reference codec.  For an address that
    starts with ['/'], text and numbers as in X10 and a packet shorter
    than 2^31 bytes, [decodeOSCSlow] gives back what [encodeOSCSlow] was
    given, once it has fuel for a turn of its [while] loop per 4 bytes of
    the packet. *)
Theorem roundtrip_slow (addr : jsstring) (args : list OSCArg)
    (opt : option OSCSlowEncoderOptions) (fuel : nat) :
  starts_with_slash addr -> plain_text addr ->
  Forall (exact_arg (get_slow_f64 opt)) args ->
  short_packet (get_slow_f64 opt) addr args ->
  len (OSC_packet (get_slow_f64 opt) addr args) <= 4 * Z.of_nat fuel ->
  bind_run (lift (encodeOSCSlow addr args opt)) (decodeOSCSlow fuel) =
  Some (Ok (addr, args)).
Proof.
  intros Hslash Haddr Hargs Hfit Hfuel.
  pose proof (exact_args_no_nul _ args Hargs) as Hnn.
  rewrite encodeOSCSlow_valid; [| exact Hslash | exact (proj1 (proj2 Haddr)) | exact Hnn].
  unfold lift, bind_run.
  rewrite (decodeOSCSlow_received (get_slow_f64 opt) fuel _ addr args []);
    try assumption; try reflexivity.
  - rewrite plain_text_roundtrip by exact Haddr.
    do 3 f_equal. clear -Hargs.
    induction Hargs as [| a args Ha _ IH]; [reflexivity |].
    cbn [map]. rewrite IH, received_exact by exact Ha. reflexivity.
  - apply wf_Uint8Array_of.
  - rewrite elements_Uint8Array_of, app_nil_r. reflexivity.
  - exact (proj1 (proj2 Haddr)).
Qed.

Lemma roundtrip_slow_witness :
  bind_run (lift (encodeOSCSlow sample_addr sample_args
                    (Some {| slow_f64 := Some true |})))
    (decodeOSCSlow 20) =
  Some (Ok (sample_addr, sample_args)).
Proof.
  apply (roundtrip_slow sample_addr sample_args
           (Some {| slow_f64 := Some true |}) 20).
  - eexists. reflexivity.
  - apply ascii_plain_text. vm_compute. repeat constructor; discriminate.
  - repeat constructor; try discriminate; vm_compute; discriminate.
  - vm_compute. reflexivity.
  - vm_compute. discriminate.
Defined.

(** X14: the round trip through [encodeOSC] under the [f64] option.  For
    ASCII text without NUL, a packet shorter than 2^31 bytes and an
    [oversize] that is not negative,
    [decodeOSC(encodeOSC(addr, args, options))] gives back the
    address and the arguments when every number is an integer of 32 bits,
    NaN, or a value of the format in use: with [f64: true] every binary64
    number that is not an integer comes back as it is. *)
Theorem roundtrip_encodeOSC (addr : jsstring) (args : list OSCArg)
    (options : option OSCEncoderOptions) :
  ascii_text addr ->
  Forall (fun a => ascii_arg a /\ exact_arg (get_f64 options) a) args ->
  short_packet (get_f64 options) addr args -> 0 <= get_oversize options ->
  bind (encodeOSC addr args options) decodeOSC = Ok (addr, dense args).
Proof.
  intros Haddr Hargs Hfit Hov.
  apply Forall_and in Hargs as [Hascii Hexact].
  rewrite decodeOSC_encodeOSC_ascii by assumption.
  rewrite received_exact_args by exact Hexact. reflexivity.
Qed.

Lemma roundtrip_encodeOSC_witness :
  let args := [Num (Frac false 1801439850948198 55) (* 0.1 *);
               Str (js "baz"); Num (Int 123)] in
  let options := Some {| oversize := None; f64 := Some true |} in
  bind (encodeOSC (js "/foo") args options) decodeOSC =
  Ok (js "/foo", dense args).
Proof.
  apply (roundtrip_encodeOSC (js "/foo")
           [Num (Frac false 1801439850948198 55); Str (js "baz"); Num (Int 123)]
           (Some {| oversize := None; f64 := Some true |})).
  - vm_compute. repeat constructor; discriminate.
  - repeat constructor; try discriminate; vm_compute;
      repeat constructor; discriminate.
  - vm_compute. reflexivity.
  - vm_compute. discriminate.
Defined.

(** ** The view that [decodeOSC] is given *)

Lemma bind_Ok_inv {A B : Type} (r : result A) (k : A -> result B) (b : B) :
  bind r k = Ok b -> exists a, r = Ok a /\ k a = Ok b.
Proof. destruct r as [a | e]; [eauto | discriminate]. Qed.

Lemma new_view_own (data : Uint8Array) (off n : Z) (v' : Uint8Array) :
  wf_view data ->
  new_view (elements data) (0 + off) n = Ok v' ->
  exists v, new_view (buffer data) (byteOffset data + off) n = Ok v /\
    elements v = elements v'.
Proof.
  intros Hwf H. pose proof (len_elements data Hwf) as Hbl.
  unfold new_view in H.
  destruct (Z.ltb_spec (0 + off) 0); [discriminate |].
  destruct (Z.ltb_spec n 0); [discriminate |].
  destruct (Z.ltb_spec (len (elements data)) (0 + off + n)); [discriminate |].
  cbn [orb] in H. injection H as <-.
  destruct (new_view_within data off n Hwf ltac:(lia) ltac:(lia) ltac:(lia))
    as (v & Hv & Hel).
  exists v. split; [exact Hv |]. rewrite Hel.
  unfold elements at 3. cbn [buffer byteOffset byteLength]. reflexivity.
Qed.

Lemma decodeOSC_case_own (data : Uint8Array) (tag : option Z) (offset : Z)
    (r : option OSCArg * Z) :
  wf_view data ->
  decodeOSC_case (Uint8Array_of (elements data)) tag offset = Ok r ->
  decodeOSC_case data tag offset = Ok r.
Proof.
  intros Hwf. unfold decodeOSC_case. rewrite elements_Uint8Array_of.
  cbn [Uint8Array_of buffer byteOffset].
  destruct tag as [t |]; [| exact (fun H => H)].
  destruct (t =? ASCII.s); [| exact (fun H => H)].
  intros H. apply bind_Ok_inv in H as (v' & Hv' & Hr).
  destruct (new_view_own data offset _ v' Hwf Hv') as (v & Hv & Hel).
  rewrite Hv. cbn [bind]. rewrite Hel. exact Hr.
Qed.

Lemma decodeOSC_loop_own (data : Uint8Array) (n : nat) :
  forall (i : nat) (ti offset : Z) (args r : list (option OSCArg)),
    wf_view data ->
    decodeOSC_loop (Uint8Array_of (elements data)) n i ti offset args = Ok r ->
    decodeOSC_loop data n i ti offset args = Ok r.
Proof.
  induction n as [| n IH]; intros i ti offset args r Hwf H; [exact H |].
  cbn [decodeOSC_loop] in *. rewrite elements_Uint8Array_of in H.
  apply bind_Ok_inv in H as ([v offset'] & Hc & Hr).
  rewrite (decodeOSC_case_own data _ _ _ Hwf Hc). cbn [bind].
  apply IH; assumption.
Qed.

(** X15: a packet that [decodeOSC] decodes as an array of its own, it
    decodes to the same result as a view of a longer buffer. *)
Theorem decodeOSC_view_independent (data : Uint8Array)
    (r : jsstring * list (option OSCArg)) :
  wf_view data ->
  decodeOSC (Uint8Array_of (elements data)) = Ok r ->
  decodeOSC data = Ok r.
Proof.
  intros Hwf. pose proof (len_elements data Hwf) as Hbl.
  unfold decodeOSC. rewrite elements_Uint8Array_of.
  cbn [Uint8Array_of buffer byteOffset byteLength]. rewrite Hbl.
  destruct (negb (Z.rem (byteLength data) 4 =? 0)); [exact (fun H => H) |].
  destruct (byteLength data <? 8); [exact (fun H => H) |].
  intros H. apply bind_Ok_inv in H as (v' & Hv' & H).
  change 0 with (0 + 0) in Hv' at 1.
  destruct (new_view_own data 0 _ v' Hwf Hv') as (v & Hv & Hel).
  rewrite Z.add_0_r in Hv. rewrite Hv. cbn [bind]. rewrite Hel.
  destruct (negb (option_eqb _ _)); [exact H |].
  apply bind_Ok_inv in H as (args0 & Ha & H). rewrite Ha. cbn [bind].
  apply bind_Ok_inv in H as (args1 & Hl & H).
  rewrite (decodeOSC_loop_own data _ _ _ _ _ _ Hwf Hl). cbn [bind]. exact H.
Qed.

Lemma decodeOSC_view_independent_witness :
  decodeOSC (subarray_of [9; 9] (OSC_packet false sample_addr sample_args) [7]) =
  Ok (sample_addr, dense sample_args).
Proof.
  apply (decodeOSC_view_independent
           (subarray_of [9; 9] (OSC_packet false sample_addr sample_args) [7])
           (sample_addr, dense sample_args)).
  - apply wf_subarray_of.
  - vm_compute. reflexivity.
Defined.

(** ** The blobs that [decodeOSC] returns *)

Lemma slice_is_part (a : list Z) (start stop : Z) :
  exists k : nat,
    slice a start stop = take (length (slice a start stop)) (drop k a).
Proof.
  unfold slice. cbv zeta.
  set (k := Z.to_nat (clamp_index (len a) start)).
  set (n := Z.to_nat (clamp_index (len a) stop - clamp_index (len a) start)).
  exists k. rewrite length_take.
  destruct (Nat.le_gt_cases n (length (drop k a))) as [Hn | Hn].
  - rewrite Nat.min_l by exact Hn. reflexivity.
  - rewrite Nat.min_r by lia. rewrite !take_ge by lia. reflexivity.
Qed.

Lemma decodeOSC_case_blob_part (data : Uint8Array) (tag : option Z)
    (offset offset' : Z) (bs : list Z) :
  decodeOSC_case data tag offset = Ok (Some (Blob bs), offset') ->
  exists k : nat, bs = take (length bs) (drop k (elements data)).
Proof.
  unfold decodeOSC_case. destruct tag as [t |]; [| discriminate].
  destruct (t =? ASCII.s).
  { intros H. apply bind_Ok_inv in H as (v & _ & H). discriminate. }
  destruct (t =? ASCII.i).
  { intros H. apply bind_Ok_inv in H as (v & _ & H). discriminate. }
  destruct (t =? ASCII.b).
  { intros H. apply bind_Ok_inv in H as (n & _ & H). injection H as <- _.
    apply slice_is_part. }
  destruct (t =? ASCII.f).
  { intros H. apply bind_Ok_inv in H as (v & _ & H). discriminate. }
  destruct (t =? ASCII.d).
  { intros H. apply bind_Ok_inv in H as (v & _ & H). discriminate. }
  destruct (t =? ASCII.T); [discriminate |].
  destruct (t =? ASCII.F); discriminate.
Qed.

Lemma decodeOSC_loop_blob_part (data : Uint8Array) (n : nat) :
  forall (i : nat) (ti offset : Z) (args r : list (option OSCArg)),
    decodeOSC_loop data n i ti offset args = Ok r ->
    Forall (fun slot => forall bs, slot = Some (Blob bs) ->
              exists k : nat, bs = take (length bs) (drop k (elements data))) args ->
    Forall (fun slot => forall bs, slot = Some (Blob bs) ->
              exists k : nat, bs = take (length bs) (drop k (elements data))) r.
Proof.
  induction n as [| n IH]; intros i ti offset args r H Hargs.
  - cbn [decodeOSC_loop] in H. injection H as <-. exact Hargs.
  - cbn [decodeOSC_loop] in H.
    apply bind_Ok_inv in H as ([v offset'] & Hc & H).
    apply IH in H; [exact H |].
    destruct v as [a |]; [| exact Hargs].
    apply Forall_insert; [exact Hargs |].
    intros bs E. injection E as ->.
    exact (decodeOSC_case_blob_part data _ _ _ _ Hc).
Qed.

(** X16: every blob that [decodeOSC] returns is a run of bytes of the
    view it was given, so it is never longer than the packet, whatever
    length the packet declares for it. *)
Theorem decodeOSC_blob_within (data : Uint8Array) (addr : jsstring)
    (args : list (option OSCArg)) (i : nat) (bs : list Z) :
  decodeOSC data = Ok (addr, args) ->
  args !! i = Some (Some (Blob bs)) ->
  (exists k : nat, bs = take (length bs) (drop k (elements data))) /\
  len bs <= len (elements data).
Proof.
  intros H Hi.
  assert (Hpart : exists k : nat, bs = take (length bs) (drop k (elements data))).
  { unfold decodeOSC in H.
    destruct (negb (Z.rem (byteLength data) 4 =? 0)); [discriminate |].
    destruct (byteLength data <? 8); [discriminate |].
    apply bind_Ok_inv in H as (v & _ & H).
    destruct (negb (option_eqb _ _)); [discriminate |].
    apply bind_Ok_inv in H as (args0 & Ha & H).
    apply bind_Ok_inv in H as (args1 & Hl & H). injection H as _ <-.
    apply decodeOSC_loop_blob_part in Hl.
    - rewrite Forall_lookup in Hl. exact (Hl i _ Hi bs eq_refl).
    - unfold new_Array in Ha. destruct (_ || _); [discriminate |].
      injection Ha as <-. apply Forall_replicate. discriminate. }
  split; [exact Hpart |].
  destruct Hpart as (k & E).
  assert (L : (length bs <= length (elements data))%nat).
  { rewrite E at 1. rewrite length_take, length_drop. lia. }
  unfold len. lia.
Qed.

Lemma decodeOSC_blob_within_witness :
  let data := Uint8Array_of (js "/a" ++ [0; 0] ++ js ",b" ++ [0; 0] ++
                             [0; 0; 1; 0] ++ [1; 2; 3; 4]) in
  (exists k : nat, [1; 2; 3; 4] =
     take (length [1; 2; 3; 4]) (drop k (elements data))) /\
  len [1; 2; 3; 4] <= len (elements data).
Proof.
  apply (decodeOSC_blob_within
           (Uint8Array_of (js "/a" ++ [0; 0] ++ js ",b" ++ [0; 0] ++
                           [0; 0; 1; 0] ++ [1; 2; 3; 4]))
           (js "/a") [Some (Blob [1; 2; 3; 4])] 0 [1; 2; 3; 4]).
  - vm_compute. reflexivity.
  - reflexivity.
Defined.

(** X17: [decodeOSC] can read the buffer outside the view it is given.
    On the packet whose blob declares the length -16, given as a view that
    starts 4 bytes into its buffer, the string argument is decoded from
    the bytes [b0 b1 b2] that precede the view in the buffer; given as an
    array of its own, the same packet is refused with a [RangeError]. *)
Theorem decodeOSC_reads_before_view (b0 b1 b2 b3 : Z) :
  decodeOSC (subarray_of [b0; b1; b2; b3] packet_with_negative_blob []) =
    Ok (js "/a", [Some (Blob []); Some (Str (TextDecoder_decode [b0; b1; b2]))]) /\
  decodeOSC (Uint8Array_of packet_with_negative_blob) = Throw RangeError.
Proof.
  split; [| vm_compute; reflexivity].
  assert (A : TextDecoder_decode [47; 97] = [47; 97]) by (vm_compute; reflexivity).
  cbv -[TextDecoder_decode]. rewrite A. reflexivity.
Qed.

(** * The first version of the codec *)

(** ** Its decoder returns on every packet *)

Lemma legacy_consume_pos (d : list Z) (n : nat) :
  forall pos : Z,
    snd (Legacy.Decoder.consume d n pos) = pos + Z.of_nat n.
Proof.
  induction n as [| n IH]; intros pos.
  - cbn. lia.
  - cbn [Legacy.Decoder.consume]. unfold Legacy.Decoder.consumeToken.
    specialize (IH (pos + 1)).
    destruct (Legacy.Decoder.consume d n (pos + 1)) as [ts pos'].
    cbn [snd] in *. lia.
Qed.

Lemma legacy_block_terminated (d : list Z) (n : nat) :
  forall pos : Z,
    exists ys, Legacy.Decoder.block d n pos true = (ys, pos + Z.of_nat n, true).
Proof.
  induction n as [| n IH]; intros pos.
  - exists []. cbn. f_equal. f_equal. lia.
  - cbn [Legacy.Decoder.block]. unfold Legacy.Decoder.consumeToken.
    destruct (IH (pos + 1)) as (ys & E).
    destruct (_ =? 0).
    + exists ys. rewrite E. f_equal. f_equal. lia.
    + rewrite E. eexists. f_equal. f_equal. lia.
Qed.

(** A turn of the [while] loop that does not terminate has read 4 bytes
    of the packet. *)
Lemma legacy_block_spec (d : list Z) (n : nat) :
  forall (pos : Z) (t : bool),
    exists ys t',
      Legacy.Decoder.block d n pos t = (ys, pos + Z.of_nat n, t') /\
      (t' = false -> (0 < n)%nat -> pos + Z.of_nat n < len d).
Proof.
  induction n as [| n IH]; intros pos t.
  - exists [], t. split; [cbn; f_equal; f_equal; lia | lia].
  - cbn [Legacy.Decoder.block]. unfold Legacy.Decoder.consumeToken.
    destruct (get d (pos + 1)) as [b |] eqn:G.
    + destruct (Z.eqb_spec b 0) as [-> | Hb].
      * destruct (legacy_block_terminated d n (pos + 1)) as (ys & E).
        exists ys, true. rewrite E.
        split; [f_equal; f_equal; lia | discriminate].
      * destruct (IH (pos + 1) t) as (ys & t' & E & Hlt). rewrite E.
        exists (b :: ys), t'. split; [f_equal; f_equal; lia |].
        intros Ht _. apply get_Some_lt in G.
        destruct n as [| n]; [lia |]. specialize (Hlt Ht ltac:(lia)). lia.
    + cbn [Z.eqb].
      destruct (legacy_block_terminated d n (pos + 1)) as (ys & E).
      exists ys, true. rewrite E.
      split; [f_equal; f_equal; lia | discriminate].
Qed.

Lemma legacy_oscStringGen_total (d : list Z) (fuel : nat) :
  forall pos : Z,
    (1 <= fuel)%nat -> len d - (pos + 1) < 4 * Z.of_nat fuel ->
    exists ys pos',
      Legacy.Decoder.oscStringGen fuel d pos = Some (ys, pos') /\ pos <= pos'.
Proof.
  induction fuel as [| fuel IH]; intros pos H1 Hlen; [lia |].
  cbn [Legacy.Decoder.oscStringGen].
  destruct (legacy_block_spec d 4 pos false) as (ys & t' & E & Hlt).
  rewrite E. destruct t'.
  - exists ys, (pos + Z.of_nat 4). split; [reflexivity | lia].
  - specialize (Hlt eq_refl ltac:(lia)).
    destruct (IH (pos + Z.of_nat 4)) as (ys' & pos' & E' & Hpos); [lia | lia |].
    rewrite E'. exists (ys ++ ys'), pos'. split; [reflexivity | lia].
Qed.

Lemma legacy_oscString_total (d : list Z) (fuel : nat) (pos : Z) :
  -1 <= pos -> len d < 4 * Z.of_nat fuel ->
  exists v pos',
    Legacy.Decoder.oscString fuel d pos = Some (v, pos') /\ pos <= pos'.
Proof.
  intros Hpos Hlen. pose proof (len_nonneg d).
  destruct (legacy_oscStringGen_total d fuel pos) as (ys & pos' & E & Hle);
    [lia | lia |].
  unfold Legacy.Decoder.oscString. rewrite E. eauto.
Qed.

Lemma legacy_oscMemcpy_pos (d : list Z) (n : nat) (pos : Z) :
  snd (Legacy.Decoder.oscMemcpy d n pos) = pos + Z.of_nat n.
Proof.
  unfold Legacy.Decoder.oscMemcpy.
  pose proof (legacy_consume_pos d n pos) as H.
  destruct (Legacy.Decoder.consume d n pos) as [ts pos']. exact H.
Qed.

Lemma legacy_oscBlob_pos (le : bool) (d : list Z) (pos : Z)
    (v : list Z) (pos' : Z) :
  Legacy.Decoder.oscBlob le d pos = Legacy.Ok (v, pos') -> pos <= pos'.
Proof.
  unfold Legacy.Decoder.oscBlob, Legacy.Decoder.oscInt.
  pose proof (legacy_oscMemcpy_pos d 4 pos) as H4.
  destruct (Legacy.Decoder.oscMemcpy d 4 pos) as [view p1]. cbn [snd] in H4.
  destruct (Z.ltb_spec (ToInt32 (Legacy.element_bits le view)) 0);
    [discriminate |].
  set (size := ToInt32 (Legacy.element_bits le view)) in *.
  pose proof (legacy_oscMemcpy_pos d (Z.to_nat size) p1) as Hs.
  destruct (Legacy.Decoder.oscMemcpy d (Z.to_nat size) p1) as [view2 p2].
  cbn [snd] in Hs.
  pose proof (legacy_consume_pos d (Z.to_nat (pad size 0)) p2) as Hp.
  destruct (Legacy.Decoder.consume d (Z.to_nat (pad size 0)) p2) as [ts p3].
  cbn [snd] in Hp. intros E. injection E as _ <-. lia.
Qed.

Lemma legacy_argsGen_total (le : bool) (d : list Z) (fuel : nat)
    (typeTag : list jsstring) :
  forall pos : Z,
    -1 <= pos -> len d < 4 * Z.of_nat fuel ->
    exists r, Legacy.Decoder.argsGen le fuel d typeTag pos = Some r.
Proof.
  induction typeTag as [| argType typeTag IH]; intros pos Hpos Hlen;
    [eexists; reflexivity |].
  cbn [Legacy.Decoder.argsGen].
  assert (Hnext : forall ys pos', pos <= pos' ->
            exists r,
              match Legacy.Decoder.argsGen le fuel d typeTag pos' with
              | None => None
              | Some (Legacy.Throw e) => Some (Legacy.Throw e)
              | Some (Legacy.Ok rest) => Some (Legacy.Ok (ys ++ rest))
              end = Some r).
  { intros ys pos' Hle. destruct (IH pos' ltac:(lia) Hlen) as (r & ->).
    destruct r; eexists; reflexivity. }
  destruct (string_eqb argType (js "s")).
  { destruct (legacy_oscString_total d fuel pos Hpos Hlen) as (v & pos' & -> & Hle).
    apply Hnext. exact Hle. }
  destruct (string_eqb argType (js "i")).
  { pose proof (legacy_oscMemcpy_pos d 4 pos) as H4.
    unfold Legacy.Decoder.oscInt.
    destruct (Legacy.Decoder.oscMemcpy d 4 pos) as [view p1]. cbn [snd] in H4.
    apply Hnext. lia. }
  destruct (string_eqb argType (js "b")).
  { destruct (Legacy.Decoder.oscBlob le d pos) as [[v pos'] | e] eqn:E.
    - apply Hnext. exact (legacy_oscBlob_pos le d pos v pos' E).
    - eexists. reflexivity. }
  destruct (string_eqb argType (js "f")).
  { pose proof (legacy_oscMemcpy_pos d 4 pos) as H4.
    unfold Legacy.Decoder.oscFloat.
    destruct (Legacy.Decoder.oscMemcpy d 4 pos) as [view p1]. cbn [snd] in H4.
    apply Hnext. lia. }
  destruct (string_eqb argType (js "d")).
  { pose proof (legacy_oscMemcpy_pos d 8 pos) as H8.
    unfold Legacy.Decoder.oscDouble.
    destruct (Legacy.Decoder.oscMemcpy d 8 pos) as [view p1]. cbn [snd] in H8.
    apply Hnext. lia. }
  destruct (string_eqb argType (js "T")); [apply Hnext; lia |].
  destruct (string_eqb argType (js "F")); apply Hnext; lia.
Qed.

(** X18: the first [decodeOSC] returns or throws on every packet: its
    reader gives 0 past the end of the packet ([data[pos] ?? 0]), so that
    every string ends there at the latest, and fuel for a turn of the
    [while] loop per 4 bytes of the packet, and one more, is enough. *)
Theorem legacy_decodeOSC_terminates (little_endian : bool) (fuel : nat)
    (data : Uint8Array) :
  wf_view data -> byteLength data < 4 * Z.of_nat fuel ->
  exists r, Legacy.decodeOSC little_endian fuel data = Some r.
Proof.
  intros Hwf Hfuel. pose proof (len_elements data Hwf) as Hbl.
  rewrite <- Hbl in Hfuel.
  unfold Legacy.decodeOSC.
  destruct (negb _); [eexists; reflexivity |].
  destruct (_ <? 8); [eexists; reflexivity |].
  destruct (legacy_oscString_total (elements data) fuel (-1) ltac:(lia) Hfuel)
    as (addr & pos & -> & Hpos).
  destruct (charAt0_is_not_slash addr); [eexists; reflexivity |].
  destruct (legacy_oscString_total (elements data) fuel pos ltac:(lia) Hfuel)
    as (tagstr & pos' & -> & Hpos').
  destruct (negb _); [eexists; reflexivity |].
  destruct (legacy_argsGen_total little_endian (elements data) fuel
              (tail (string_iterator tagstr)) pos' ltac:(lia) Hfuel) as (r & ->).
  destruct r; eexists; reflexivity.
Qed.

Lemma legacy_decodeOSC_terminates_witness :
  exists r,
    Legacy.decodeOSC true 3 (Uint8Array_of [47; 97; 97; 97; 97; 97; 97; 97]) =
    Some r.
Proof.
  apply (legacy_decodeOSC_terminates true 3
           (Uint8Array_of [47; 97; 97; 97; 97; 97; 97; 97])).
  - apply wf_Uint8Array_of.
  - vm_compute. reflexivity.
Defined.

(** ** Its encoder, on a little endian host *)

Lemma legacy_oscString_spec (s : jsstring) :
  Forall (fun y => y <> 0) (TextEncoder_encode s) ->
  Legacy.Encoder.oscString s = Legacy.Ok (string_field (TextEncoder_encode s)).
Proof.
  intros H. unfold Legacy.Encoder.oscString.
  assert (E : existsb (Z.eqb 0) (TextEncoder_encode s) = false).
  { induction H as [| c l Hc _ IH]; [reflexivity |].
    cbn [existsb]. rewrite IH. destruct (Z.eqb_spec 0 c); [lia | reflexivity]. }
  rewrite E. unfold pack, string_field. cbn [concat]. rewrite app_nil_r.
  reflexivity.
Qed.

Lemma without_blobs_cons (a : OSCArg) (args : list OSCArg) :
  without_blobs (a :: args) =
  match a with Blob _ => without_blobs args | _ => a :: without_blobs args end.
Proof. destruct a; reflexivity. Qed.

Lemma legacy_argsGen_spec (args : list OSCArg) :
  Forall no_nul (strings_of args) ->
  Legacy.Encoder.argsGen true args =
  Legacy.Ok (map (fun a => (type_tag false a, payload false a))
               (without_blobs args)).
Proof.
  induction args as [| a args IH]; intros H; [reflexivity |].
  rewrite strings_of_cons in H. apply Forall_app in H as [Ha Hargs].
  cbn [Legacy.Encoder.argsGen]. rewrite (IH Hargs), without_blobs_cons.
  destruct a as [s | x | [|] | bs]; cbn [type_tag payload map app];
    try reflexivity.
  - rewrite legacy_oscString_spec; [reflexivity |].
    apply encode_no_nul. exact (Forall_inv Ha).
  - unfold Legacy.Encoder.oscInt, Legacy.Encoder.oscFloat, Legacy.element_bytes.
    rewrite !rev_involutive. destruct (isInt x); reflexivity.
Qed.

(** X19: the first [encodeOSC], on a little endian host.  For an address
    that starts with ['/'] and strings without NUL, it returns the packet
    of the message without its blobs: a [Uint8Array] argument is left out
    of the type tags and of the payloads, without an error; the other
    arguments are encoded as [encodeOSCSlow] encodes them. *)
Theorem legacy_encodeOSC_little_endian (addr : jsstring) (args : list OSCArg) :
  starts_with_slash addr -> no_nul addr -> Forall no_nul (strings_of args) ->
  Legacy.encodeOSC true addr args =
    Legacy.Ok (Uint8Array_of (OSC_packet false addr (without_blobs args))) /\
  encodeOSCSlow addr (without_blobs args) None =
    Ok (Uint8Array_of (OSC_packet false addr (without_blobs args))).
Proof.
  intros Hslash Haddr Hargs. split.
  - destruct Hslash as [rest ->]. unfold Legacy.encodeOSC.
    cbn [charAt0_is_not_slash]. rewrite Z.eqb_refl. cbn [negb].
    rewrite legacy_argsGen_spec by exact Hargs.
    rewrite legacy_oscString_spec by (apply encode_no_nul; exact Haddr).
    rewrite map_map. cbn [fst].
    change (ASCII.COMMA :: map (fun a => type_tag false a) (without_blobs args))
      with (ASCII.COMMA :: map (type_tag false) (without_blobs args)).
    pose proof (ascii_text_lt _ (type_tags_ascii false (without_blobs args))) as Hlt.
    assert (Et : TextEncoder_encode
                   (ASCII.COMMA :: map (type_tag false) (without_blobs args)) =
                 ASCII.COMMA :: map (type_tag false) (without_blobs args))
      by (apply TextEncoder_encode_ascii; exact Hlt).
    rewrite legacy_oscString_spec by (rewrite Et; apply type_tags_no_nul').
    rewrite Et. rewrite map_map. cbn [snd].
    unfold pack, OSC_packet. cbn [concat].
    rewrite flat_map_concat_map. reflexivity.
  - apply encodeOSCSlow_valid; [exact Hslash | exact Haddr |].
    clear -Hargs. induction args as [| a args IH]; [constructor |].
    rewrite strings_of_cons in Hargs. apply Forall_app in Hargs as [Ha Hr].
    rewrite without_blobs_cons.
    destruct a as [s | x | b | bs]; try (rewrite strings_of_cons; cbn [strings_of flat_map app]);
      try (apply IH; exact Hr).
    constructor; [exact (Forall_inv Ha) | apply IH; exact Hr].
Qed.

Lemma legacy_encodeOSC_little_endian_witness :
  Legacy.encodeOSC true sample_addr sample_args =
    Legacy.Ok (Uint8Array_of
                 (OSC_packet false sample_addr (without_blobs sample_args))) /\
  encodeOSCSlow sample_addr (without_blobs sample_args) None =
    Ok (Uint8Array_of (OSC_packet false sample_addr (without_blobs sample_args))).
Proof.
  apply (legacy_encodeOSC_little_endian sample_addr sample_args).
  - eexists. reflexivity.
  - vm_compute. repeat constructor; discriminate.
  - vm_compute. repeat constructor; discriminate.
Defined.

(** ** Its decoder, on a little endian host *)

Lemma legacy_consume_middle (m : list Z) :
  forall pre post : list Z,
    Legacy.Decoder.consume (pre ++ m ++ post) (length m) (len pre - 1) =
    (m, len pre + len m - 1).
Proof.
  induction m as [| x m IH]; intros pre post.
  - cbn. change (len []) with 0. f_equal. lia.
  - cbn [length Legacy.Decoder.consume]. unfold Legacy.Decoder.consumeToken.
    replace (len pre - 1 + 1) with (len pre) by lia.
    cbn [app]. rewrite get_middle.
    pose proof (IH (pre ++ [x]) post) as IH'.
    rewrite len_app in IH'. change (len [x]) with 1 in IH'.
    replace (len pre + 1 - 1) with (len pre) in IH' by lia.
    rewrite <- app_assoc in IH'. cbn [app] in IH'.
    rewrite IH'. f_equal. rewrite len_cons. lia.
Qed.

Lemma legacy_block_consume (d : list Z) (n : nat) :
  forall (pos : Z) (t : bool),
    Legacy.Decoder.block d n pos t =
    (List.filter (fun b => negb (b =? 0)) (fst (Legacy.Decoder.consume d n pos)),
     pos + Z.of_nat n,
     t || existsb (fun b => b =? 0) (fst (Legacy.Decoder.consume d n pos))).
Proof.
  induction n as [| n IH]; intros pos t.
  - cbn. rewrite orb_false_r, Z.add_0_r. reflexivity.
  - cbn [Legacy.Decoder.block Legacy.Decoder.consume].
    unfold Legacy.Decoder.consumeToken.
    set (token := match get d (pos + 1) with Some b => b | None => 0 end).
    rewrite !IH.
    destruct (Legacy.Decoder.consume d n (pos + 1)) as [ts pos'].
    cbn [fst List.filter existsb].
    destruct (token =? 0); cbn [negb orb].
    + rewrite orb_true_r. f_equal. f_equal. lia.
    + f_equal. f_equal. lia.
Qed.

Lemma filter_nonzero (e : list Z) (k : nat) :
  Forall (fun y => y <> 0) e ->
  List.filter (fun b => negb (b =? 0)) (e ++ replicate k 0) = e /\
  existsb (fun b => b =? 0) (e ++ replicate k 0) = negb (Nat.eqb k 0).
Proof.
  induction 1 as [| x e Hx _ [IH1 IH2]].
  - cbn [app]. induction k as [| k [IHk1 IHk2]]; [split; reflexivity |].
    cbn [replicate List.filter existsb Z.eqb negb orb]. split; [exact IHk1 | reflexivity].
  - cbn [app List.filter existsb].
    destruct (Z.eqb_spec x 0); [contradiction |]. cbn [negb orb].
    rewrite IH1, IH2. split; reflexivity.
Qed.

(** The first [oscStringGen] on a string field; [pos] is the index of
    the last byte that was read. *)
Lemma legacy_oscStringGen_field (fuel : nat) :
  forall e pre post : list Z,
    Forall (fun y => y <> 0) e ->
    (length e < 4 * fuel)%nat ->
    Legacy.Decoder.oscStringGen fuel (pre ++ string_field e ++ post)
      (len pre - 1) =
    Some (e, len pre + len (string_field e) - 1).
Proof.
  induction fuel as [| fuel IH]; intros e pre post He Hfuel; [lia |].
  cbn [Legacy.Decoder.oscStringGen]. rewrite legacy_block_consume.
  destruct (Nat.lt_ge_cases (length e) 4) as [Hshort | Hlong].
  - destruct (string_field_short e Hshort) as [E Hk].
    rewrite E.
    assert (T : Legacy.Decoder.consume
                  (pre ++ (e ++ replicate (4 - length e) 0) ++ post) 4
                  (len pre - 1) =
                (e ++ replicate (4 - length e) 0,
                 len pre + len (e ++ replicate (4 - length e) 0) - 1)).
    { rewrite <- (legacy_consume_middle _ pre post). f_equal.
      rewrite length_app, length_replicate. lia. }
    rewrite T. cbn [fst].
    destruct (filter_nonzero e (4 - length e) He) as [F1 F2].
    rewrite F1, F2.
    destruct (Nat.eqb_spec (4 - length e) 0); [contradiction |].
    cbn [orb negb]. do 2 f_equal.
    unfold len. rewrite length_app, length_replicate. lia.
  - set (c := take 4 e). set (e' := drop 4 e).
    assert (Ee : e = c ++ e') by (symmetry; apply take_drop).
    assert (Hc : length c = 4%nat) by (unfold c; rewrite length_take; lia).
    assert (Hce : Forall (fun y => y <> 0) c /\ Forall (fun y => y <> 0) e').
    { apply Forall_app. rewrite <- Ee. exact He. }
    destruct Hce as [Fc Fe'].
    rewrite Ee, string_field_chunk by exact Hc.
    rewrite <- app_assoc.
    assert (T : Legacy.Decoder.consume (pre ++ c ++ string_field e' ++ post) 4
                  (len pre - 1) = (c, len pre + len c - 1)).
    { rewrite <- Hc. apply legacy_consume_middle. }
    rewrite T. cbn [fst].
    destruct (filter_nonzero c 0 Fc) as [F1 F2].
    cbn [replicate] in F1, F2. rewrite app_nil_r in F1, F2.
    rewrite F1, F2. cbn [orb negb Nat.eqb].
    replace (len pre - 1 + Z.of_nat 4) with (len (pre ++ c) - 1)
      by (rewrite len_app; unfold len; lia).
    rewrite (app_assoc pre c).
    rewrite IH; [| exact Fe' |].
    + f_equal. f_equal. rewrite !len_app. lia.
    + rewrite Ee, length_app in Hfuel. lia.
Qed.

Lemma legacy_oscString_field (fuel : nat) (e pre post : list Z) :
  Forall (fun y => y <> 0) e ->
  (length e < 4 * fuel)%nat ->
  Legacy.Decoder.oscString fuel (pre ++ string_field e ++ post) (len pre - 1) =
  Some (TextDecoder_decode e, len pre + len (string_field e) - 1).
Proof.
  intros He Hfuel. unfold Legacy.Decoder.oscString.
  rewrite legacy_oscStringGen_field by assumption. reflexivity.
Qed.

(** [oscMemcpy] and the typed array invert each other on a little endian
    host: the element is the big endian value of the bytes read. *)
Lemma legacy_element (m pre post : list Z) :
  let '(view, pos) :=
    Legacy.Decoder.oscMemcpy (pre ++ m ++ post) (length m) (len pre - 1) in
  Legacy.element_bits true view = be_value m /\ view = rev m /\
  pos = len pre + len m - 1.
Proof.
  unfold Legacy.Decoder.oscMemcpy. rewrite legacy_consume_middle.
  unfold Legacy.element_bits. rewrite rev_involutive. auto.
Qed.

Lemma legacy_oscInt_field (v : Z) (pre post : list Z) :
  Legacy.Decoder.oscInt true (pre ++ be_bytes 4 v ++ post) (len pre - 1) =
  (ToInt32 v, len pre + 4 - 1).
Proof.
  unfold Legacy.Decoder.oscInt.
  pose proof (legacy_element (be_bytes 4 v) pre post) as H.
  rewrite length_be_bytes in H.
  destruct (Legacy.Decoder.oscMemcpy _ 4 _) as [view pos].
  destruct H as (-> & _ & ->).
  rewrite be_value_be_bytes, len_be_bytes.
  change (256 ^ Z.of_nat 4) with (2 ^ 32). rewrite ToInt32_mod. reflexivity.
Qed.

Lemma legacy_oscFloat_field (x : number) (pre post : list Z) :
  Legacy.Decoder.oscFloat true
    (pre ++ be_bytes 4 (ieee_encode 24 8 x) ++ post) (len pre - 1) =
  (fround x, len pre + 4 - 1).
Proof.
  unfold Legacy.Decoder.oscFloat.
  pose proof (legacy_element (be_bytes 4 (ieee_encode 24 8 x)) pre post) as H.
  rewrite length_be_bytes in H.
  destruct (Legacy.Decoder.oscMemcpy _ 4 _) as [view pos].
  destruct H as (-> & _ & ->).
  rewrite be_value_be_bytes, len_be_bytes.
  pose proof (ieee_encode_range x).
  change (256 ^ Z.of_nat 4) with (2 ^ 32). rewrite Z.mod_small by lia.
  reflexivity.
Qed.

Lemma legacy_oscDouble_field (x : number) (pre post : list Z) :
  Legacy.Decoder.oscDouble true
    (pre ++ be_bytes 8 (ieee_encode 53 11 x) ++ post) (len pre - 1) =
  (ieee_decode 53 11 (ieee_encode 53 11 x), len pre + 8 - 1).
Proof.
  unfold Legacy.Decoder.oscDouble.
  pose proof (legacy_element (be_bytes 8 (ieee_encode 53 11 x)) pre post) as H.
  rewrite length_be_bytes in H.
  destruct (Legacy.Decoder.oscMemcpy _ 8 _) as [view pos].
  destruct H as (-> & _ & ->).
  rewrite be_value_be_bytes, len_be_bytes.
  pose proof (ieee_encode_range64 x).
  change (256 ^ Z.of_nat 8) with (2 ^ 64). rewrite Z.mod_small by lia.
  reflexivity.
Qed.

Lemma legacy_oscBlob_field (bs pre post : list Z) :
  len bs <= 2 ^ 31 - 8 ->
  Legacy.Decoder.oscBlob true (pre ++ payload false (Blob bs) ++ post)
    (len pre - 1) =
  Legacy.Ok (rev bs, len pre + len (payload false (Blob bs)) - 1).
Proof.
  intros Hb. pose proof (len_nonneg bs).
  pose proof (pad0_bounds (len bs) ltac:(lia)) as [Hp _].
  cbn [payload]. unfold Legacy.Decoder.oscBlob.
  rewrite ToInt32_id by lia.
  rewrite <- !app_assoc. rewrite legacy_oscInt_field.
  rewrite ToInt32_id by lia.
  destruct (Z.ltb_spec (len bs) 0); [lia |].
  set (hd := be_bytes 4 (len bs)).
  assert (Hhd : len hd = 4) by apply len_be_bytes.
  replace (len pre + 4 - 1) with (len (pre ++ hd) - 1)
    by (rewrite len_app; lia).
  rewrite (app_assoc pre hd). rewrite to_nat_len.
  unfold Legacy.Decoder.oscMemcpy. rewrite legacy_consume_middle.
  set (z := replicate (Z.to_nat (pad (len bs) 0)) 0).
  replace (Z.to_nat (pad (len bs) 0)) with (length z)
    by (unfold z; rewrite length_replicate; reflexivity).
  replace (len (pre ++ hd) + len bs - 1) with (len ((pre ++ hd) ++ bs) - 1)
    by (rewrite !len_app; lia).
  rewrite (app_assoc (pre ++ hd) bs).
  rewrite legacy_consume_middle.
  f_equal. f_equal. rewrite !len_app. lia.
Qed.

Lemma payload_blob_f64 (use_f64 : bool) (bs : list Z) :
  payload use_f64 (Blob bs) = payload false (Blob bs).
Proof. reflexivity. Qed.

Lemma legacy_argsGen_received (use_f64 : bool) (fuel : nat) (post : list Z)
    (args : list OSCArg) :
  forall pre : list Z,
    Forall (fun a => no_nul (as_string a)) args -> Forall small_arg args ->
    Forall (fun a => (length (TextEncoder_encode (as_string a)) < 4 * fuel)%nat)
      args ->
    Legacy.Decoder.argsGen true fuel
      (pre ++ flat_map (payload use_f64) args ++ post)
      (map (fun t => [t]) (map (type_tag use_f64) args)) (len pre - 1) =
    Some (Legacy.Ok (map (legacy_received use_f64) args)).
Proof.
  induction args as [| a args IH]; intros pre Hnn Hsmall Hfuel; [reflexivity |].
  pose proof (Forall_inv Hnn) as Hn1. pose proof (Forall_inv_tail Hnn) as Hn2.
  pose proof (Forall_inv Hsmall) as [Hs1 Hb1].
  pose proof (Forall_inv_tail Hsmall) as Hs2.
  pose proof (Forall_inv Hfuel) as Hf1. pose proof (Forall_inv_tail Hfuel) as Hf2.
  cbn [flat_map map Legacy.Decoder.argsGen] in *.
  set (R := flat_map (payload use_f64) args) in *.
  rewrite <- app_assoc in *.
  assert (Hnext : forall P : list Z,
            Legacy.Decoder.argsGen true fuel (pre ++ P ++ R ++ post)
              (map (fun t => [t]) (map (type_tag use_f64) args))
              (len pre + len P - 1) =
            Some (Legacy.Ok (map (legacy_received use_f64) args))).
  { intros P0. rewrite <- len_app. rewrite (app_assoc pre P0).
    apply IH; assumption. }
  destruct a as [s | x | b | bs];
    cbn [type_tag legacy_received received as_string as_Uint8Array] in *.
  - (* string *)
    eval_string_eqb. cbn [payload].
    pose proof (encode_no_nul s Hn1) as He.
    set (e := TextEncoder_encode s) in *.
    rewrite legacy_oscString_field by assumption.
    rewrite Hnext. reflexivity.
  - (* number *)
    cbn [payload].
    destruct (isInt x) eqn:Hint; [| destruct use_f64]; eval_string_eqb.
    + rewrite legacy_oscInt_field.
      assert (E : ToInt32 (number_ToInt32 x) = number_ToInt32 x).
      { apply ToInt32_id.
        destruct x as [z | | neg | | neg k e]; cbn [number_ToInt32];
          try apply ToInt32_range; lia. }
      rewrite E.
      replace (len pre + 4 - 1)
        with (len pre + len (be_bytes 4 (number_ToInt32 x)) - 1)
        by (rewrite len_be_bytes; reflexivity).
      rewrite Hnext. reflexivity.
    + rewrite legacy_oscDouble_field.
      replace (len pre + 8 - 1)
        with (len pre + len (be_bytes 8 (ieee_encode 53 11 x)) - 1)
        by (rewrite len_be_bytes; reflexivity).
      rewrite Hnext. reflexivity.
    + rewrite legacy_oscFloat_field.
      replace (len pre + 4 - 1)
        with (len pre + len (be_bytes 4 (ieee_encode 24 8 x)) - 1)
        by (rewrite len_be_bytes; reflexivity).
      rewrite Hnext. reflexivity.
  - (* boolean *)
    cbn [payload].
    destruct b; eval_string_eqb;
      specialize (Hnext []);
      change (len []) with 0 in Hnext; rewrite Z.add_0_r in Hnext;
      rewrite Hnext; reflexivity.
  - (* blob *)
    eval_string_eqb. rewrite payload_blob_f64.
    rewrite legacy_oscBlob_field by exact Hb1.
    rewrite Hnext. reflexivity.
Qed.

(** The first [decodeOSC] on a view that starts with an encoded message. *)
Lemma legacy_decodeOSC_received (use_f64 : bool) (fuel : nat) (data : Uint8Array)
    (addr : jsstring) (args : list OSCArg) (post : list Z) :
  wf_view data ->
  elements data = OSC_packet use_f64 addr args ++ post ->
  len post mod 4 = 0 ->
  starts_with_slash addr -> no_nul addr -> Forall no_nul (strings_of args) ->
  short_packet use_f64 addr args ->
  byteLength data <= 4 * Z.of_nat fuel ->
  Legacy.decodeOSC true fuel data =
  Some (Legacy.Ok (TextDecoder_decode (TextEncoder_encode addr),
                   map (legacy_received use_f64) args)).
Proof.
  intros Hwf Hel Hpost Hslash Haddr Hargs Hfit Hfuel.
  destruct (short_packet_parts use_f64 addr args Hfit) as (HA & HT & Htot & Hsmall).
  pose proof (len_OSC_packet use_f64 addr args) as [HWm HW8].
  pose proof (len_elements data Hwf) as Hbl.
  pose proof (encode_no_nul addr Haddr) as HeA.
  pose proof (encoded_strings_short use_f64 args) as Hshort.
  unfold OSC_packet in *.
  set (e := TextEncoder_encode addr) in *.
  set (tags := map (type_tag use_f64) args) in *.
  set (P := flat_map (payload use_f64) args) in *.
  pose proof (len_nonneg e). pose proof (len_nonneg args). pose proof (len_nonneg P).
  pose proof (len_nonneg post).
  pose proof (string_field_mod4 e) as [HAm HAl].
  pose proof (string_field_mod4 (ASCII.COMMA :: tags)) as [HTm HTl].
  rewrite len_cons in HTl. pose proof (len_nonneg tags).
  assert (Hlen : byteLength data =
                 len (string_field e) + len (string_field (ASCII.COMMA :: tags)) +
                 len P + len post)
    by (rewrite <- Hbl, Hel, !len_app; ring).
  rewrite !len_app in HWm, HW8.
  unfold Legacy.decodeOSC.
  rewrite Z.rem_mod_nonneg by lia.
  assert (Hm : byteLength data mod 4 = 0)
    by (rewrite Hlen; Z.to_euclidean_division_equations; lia).
  rewrite Hm. cbn [Z.eqb negb].
  destruct (Z.ltb_spec (byteLength data) 8); [lia |].
  rewrite Hel.
  (* the address *)
  rewrite <- !app_assoc.
  pose proof (legacy_oscString_field fuel e []
                (string_field (ASCII.COMMA :: tags) ++ P ++ post) HeA) as Ha.
  cbn [app] in Ha. change (len []) with 0 in Ha.
  change (0 - 1) with (-1) in Ha.
  rewrite Ha by (unfold len in *; lia). clear Ha.
  unfold e at 1. rewrite (decoded_address_slash addr Hslash). fold e.
  (* the type tags *)
  rewrite Z.add_0_l.
  rewrite legacy_oscString_field;
    [| apply type_tags_no_nul' | cbn [length]; unfold len in *; lia].
  pose proof (ascii_text_lt _ (type_tags_ascii use_f64 args)) as Hlt.
  fold tags in Hlt.
  rewrite TextDecoder_decode_ascii by exact Hlt.
  rewrite string_iterator_ascii by exact Hlt.
  cbn [map tail]. eval_string_eqb. cbn [negb].
  (* the arguments *)
  rewrite <- len_app. rewrite (app_assoc (string_field e)).
  unfold tags, P.
  rewrite legacy_argsGen_received.
  - reflexivity.
  - apply no_nul_strings_args. exact Hargs.
  - exact Hsmall.
  - eapply Forall_impl; [exact Hshort |]. cbn beta. intros a Ha.
    fold P in Ha. unfold len in *. lia.
Qed.

(** X20: the first [decodeOSC], on a little endian host, on a view that
    holds an encoded message (packet shorter than 2^31 bytes) whose
    address starts with ['/'] and whose address and strings have no NUL,
    with fuel for a turn of its [while] loop per 4 bytes of the view.  It
    returns what [decodeOSC] returns, with one
    difference: every blob comes back with its bytes in reverse order
    ([oscMemcpy] fills its view from the last index down, which suits the
    numbers only). *)
Theorem legacy_decodeOSC_little_endian (use_f64 : bool) (fuel : nat)
    (data : Uint8Array) (addr : jsstring) (args : list OSCArg) (post : list Z) :
  wf_view data ->
  elements data = OSC_packet use_f64 addr args ++ post ->
  len post mod 4 = 0 ->
  starts_with_slash addr -> no_nul addr -> Forall no_nul (strings_of args) ->
  short_packet use_f64 addr args ->
  byteLength data <= 4 * Z.of_nat fuel ->
  exists addr',
    decodeOSC data = Ok (addr', map (fun a => Some (received use_f64 a)) args) /\
    Legacy.decodeOSC true fuel data =
      Some (Legacy.Ok (addr', map (legacy_received use_f64) args)) /\
    Forall (fun a => match a with
                     | Blob bs => legacy_received use_f64 a = Blob (rev bs)
                     | _ => legacy_received use_f64 a = received use_f64 a
                     end) args.
Proof.
  intros Hwf Hel Hpost Hslash Haddr Hargs Hfit Hfuel.
  exists (TextDecoder_decode (TextEncoder_encode addr)).
  split; [| split].
  - apply (decodeOSC_received use_f64 data addr args post); assumption.
  - apply (legacy_decodeOSC_received use_f64 fuel data addr args post);
      assumption.
  - apply Forall_forall. intros [s | x | b | bs] _; reflexivity.
Qed.

Lemma legacy_decodeOSC_little_endian_witness :
  exists addr',
    decodeOSC (Uint8Array_of (OSC_packet false sample_addr sample_args)) =
      Ok (addr', map (fun a => Some (received false a)) sample_args) /\
    Legacy.decodeOSC true 20
      (Uint8Array_of (OSC_packet false sample_addr sample_args)) =
      Some (Legacy.Ok (addr', map (legacy_received false) sample_args)) /\
    Forall (fun a => match a with
                     | Blob bs => legacy_received false a = Blob (rev bs)
                     | _ => legacy_received false a = received false a
                     end) sample_args.
Proof.
  apply (legacy_decodeOSC_little_endian false 20
           (Uint8Array_of (OSC_packet false sample_addr sample_args))
           sample_addr sample_args []).
  - apply wf_Uint8Array_of.
  - rewrite elements_Uint8Array_of, app_nil_r. reflexivity.
  - reflexivity.
  - eexists. reflexivity.
  - vm_compute. repeat constructor; discriminate.
  - vm_compute. repeat constructor; discriminate.
  - vm_compute. reflexivity.
  - vm_compute. discriminate.
Defined.
